(** * Hours-of-Service trip scheduling: a shallow embedding of
      [trips/scheduling.py] and the properties of its schedule.

    Numbers.  The Python code computes on floats; here miles and hours are
    exact rationals ([Q]), so every statement below is about the
    arithmetic the code intends, not about binary rounding.  Timestamps are
    [datetime] values, which have microsecond resolution: a timestamp is an
    integer count of microseconds, and [timedelta(hours=h)] rounds [h] to
    the nearest microsecond (ties to even) as the constructor does.  The
    textual rendering [isoformat() + "Z"] is injective on timestamps and is
    left out; the calendar range of [datetime] is not modelled.

    The clock.  [datetime.utcnow()] is an input read from the environment;
    it is the explicit argument [now] of [compute_schedule_for_route]. *)

From Stdlib Require Import ZArith QArith Qround Qabs Lqa Lia List String Bool.
From Stdlib Require Import DecimalString.
Import ListNotations.
Local Open Scope Q_scope.

(** ** Constants *)

Definition AVG_SPEED_MPH : Q := 55.
Definition FUEL_RANGE_MILES : Q := 1000.
Definition FUEL_STOP_MIN : Z := 45.
Definition PICKUP_MIN : Z := 60.
Definition DROPOFF_MIN : Z := 60.
Definition MAX_DRIVE_HRS : Q := 11.
Definition MAX_ON_DUTY_HRS : Q := 14.
Definition BREAK_AFTER_HRS : Q := 8.
Definition OFF_DUTY_RESET_HRS : Q := 10.
Definition CYCLE_LIMIT_HRS : Q := 70.
Definition RESTART_OFF_DUTY_HRS : Q := 34.

(** The literal [1609.34] (metres per mile). *)
Definition METERS_PER_MILE : Q := 160934 # 100.

(** ** Python arithmetic on exact numbers *)

(** [x < y] as a test. *)
Definition Qltb (x y : Q) : bool := negb (Qle_bool y x).

(** [min(a, b)]: Python keeps the first argument unless a later one is
    strictly smaller. *)
Definition min2 (a b : Q) : Q := if Qltb b a then b else a.

(** [min(a, b, c)]. *)
Definition min3 (a b c : Q) : Q := min2 (min2 a b) c.

(** Rounding to the nearest integer, ties to the even one. *)
Definition round_half_even (q : Q) : Z :=
  let f := Qfloor q in
  match Qcompare (q - inject_Z f) (1 # 2) with
  | Lt => f
  | Gt => (f + 1)%Z
  | Eq => if Z.even f then f else (f + 1)%Z
  end.

(** [round(x, 2)]. *)
Definition round2 (q : Q) : Q := inject_Z (round_half_even (q * 100)) / 100.

(** Timestamps and durations, in microseconds. *)
Definition US_PER_MINUTE : Z := 60000000.
Definition US_PER_HOUR : Z := 3600000000.

(** [timedelta(minutes=m)] for an integer [m]. *)
Definition timedelta_minutes (m : Z) : Z := (m * US_PER_MINUTE)%Z.

(** [timedelta(hours=h)] for a fractional [h]. *)
Definition timedelta_hours (h : Q) : Z :=
  round_half_even (h * inject_Z US_PER_HOUR).

(** [format(x, ".0f")]. *)
Definition fmt0f (q : Q) : string :=
  ((if Qltb q 0 then "-" else "") ++
   NilZero.string_of_uint (N.to_uint (Z.to_N (round_half_even (Qabs q)))))%string.

(** ** Input: the route description *)

Record segment := mkSegment { distance : Q; duration : Q }.

(** [props.get("segments", [])]: the key may be missing. *)
Record properties := mkProperties { segments_key : option (list segment) }.

Record feature := mkFeature { feature_properties : properties }.

(** [route_geojson.get("features", [])]: the key may be missing. *)
Record route_geojson := mkRoute { features_key : option (list feature) }.

Definition get_or_empty {A : Type} (o : option (list A)) : list A :=
  match o with Some l => l | None => [] end.

(** [sum(seg[key] for seg in segs)]: the sum starts from the integer 0. *)
Definition sum_of (f : segment -> Q) (segs : list segment) : Q :=
  fold_left (fun acc seg => acc + f seg) segs 0.

(** ** Output: schedule periods *)

(** The note of a period.  The two formatted notes keep the number that
    the f-string formats; [render_note] gives the text. *)
Inductive note :=
| NPreTrip
| NDriveToPickup (mi : Q)
| NPickup
| NBreak
| NSleeper
| NSplitCompletion
| NDailyReset
| NRestart
| NDrive (mi : Q)
| NFuelStop
| NUnload
| NPostTripRest.

Definition render_note (n : note) : string :=
  match n with
  | NPreTrip => "Pre-trip inspection"
  | NDriveToPickup mi => "Drive " ++ fmt0f mi ++ " mi to pickup"
  | NPickup => "Pickup cargo"
  | NBreak => "30 min mandatory break (after 8 hrs driving)"
  | NSleeper => "Sleeper berth (split rest)"
  | NSplitCompletion => "Off-duty completion of split rest"
  | NDailyReset => "10 hr off-duty reset (11/14 hr rule)"
  | NRestart => "34 hr restart (70 hr / 8-day rule)"
  | NDrive mi => "Drive " ++ fmt0f mi ++ " mi"
  | NFuelStop => "Fuel stop"
  | NUnload => "Unload cargo"
  | NPostTripRest => "10 hr rest after trip"
  end%string.

(** One entry of the schedule list (the dict built by [append]). *)
Record period := mkPeriod {
  status : string;
  start : Z;
  end_ : Z;
  period_note : note;
  miles_since_start : Q
}.

(** The returned dict.  [total_miles] and [estimated_drive_hours] are the
    integer 0 on the empty route and rounded numbers otherwise. *)
Record result := mkResult {
  schedule : list period;
  total_miles : Q;
  estimated_drive_hours : Q
}.

(** ** The simulation state: the local variables of the function *)

Record state := mkState {
  t : Z;
  sched : list period;
  miles_driven : Q;
  driving_today : Q;
  on_duty_today : Q;
  driving_since_break : Q;
  cycle_used : Q;
  miles_until_fuel : Q;
  remaining_miles : Q
}.

(** [append(status, start, end, note)]: the closure reads [miles_driven]
    at the time of the call. *)
Definition append (st : string) (start_ end' : Z) (n : note) (s : state) : state :=
  mkState (t s)
          (sched s ++ [mkPeriod st start_ end' n (miles_driven s)])
          (miles_driven s) (driving_today s) (on_duty_today s)
          (driving_since_break s) (cycle_used s) (miles_until_fuel s)
          (remaining_miles s).

Definition set_t (v : Z) (s : state) : state :=
  mkState v (sched s) (miles_driven s) (driving_today s) (on_duty_today s)
          (driving_since_break s) (cycle_used s) (miles_until_fuel s)
          (remaining_miles s).

Definition set_miles_driven (v : Q) (s : state) : state :=
  mkState (t s) (sched s) v (driving_today s) (on_duty_today s)
          (driving_since_break s) (cycle_used s) (miles_until_fuel s)
          (remaining_miles s).

Definition set_driving_today (v : Q) (s : state) : state :=
  mkState (t s) (sched s) (miles_driven s) v (on_duty_today s)
          (driving_since_break s) (cycle_used s) (miles_until_fuel s)
          (remaining_miles s).

Definition set_on_duty_today (v : Q) (s : state) : state :=
  mkState (t s) (sched s) (miles_driven s) (driving_today s) v
          (driving_since_break s) (cycle_used s) (miles_until_fuel s)
          (remaining_miles s).

Definition set_driving_since_break (v : Q) (s : state) : state :=
  mkState (t s) (sched s) (miles_driven s) (driving_today s) (on_duty_today s)
          v (cycle_used s) (miles_until_fuel s) (remaining_miles s).

Definition set_cycle_used (v : Q) (s : state) : state :=
  mkState (t s) (sched s) (miles_driven s) (driving_today s) (on_duty_today s)
          (driving_since_break s) v (miles_until_fuel s) (remaining_miles s).

Definition set_miles_until_fuel (v : Q) (s : state) : state :=
  mkState (t s) (sched s) (miles_driven s) (driving_today s) (on_duty_today s)
          (driving_since_break s) (cycle_used s) v (remaining_miles s).

Definition set_remaining_miles (v : Q) (s : state) : state :=
  mkState (t s) (sched s) (miles_driven s) (driving_today s) (on_duty_today s)
          (driving_since_break s) (cycle_used s) (miles_until_fuel s) v.

(** Statements of the function read top to bottom with [s |> f]. *)
Notation "s |> f" := (f s) (at level 45, left associativity, only parsing).

(** ** The function, statement by statement *)

(** Lines 36-43: the local variables before the first period.
    [remaining_miles] is assigned after the pickup. *)
Definition initial_state (now : Z) (current_cycle_used_hours : Q) : state :=
  mkState now [] 0 0 0 0 current_cycle_used_hours FUEL_RANGE_MILES 0.

(** [driving_today = on_duty_today = driving_since_break = 0]. *)
Definition reset_daily (s : state) : state :=
  s |> set_driving_today 0 |> set_on_duty_today 0 |> set_driving_since_break 0.

(** Lines 55-59: pre-trip inspection. *)
Definition pre_trip (s : state) : state :=
  let s := append "OnDutyNotDriving" (t s) (t s + timedelta_minutes 30) NPreTrip s in
  let s := set_t (t s + timedelta_minutes 30) s in
  let s := set_on_duty_today (on_duty_today s + (1 # 2)) s in
  set_cycle_used (cycle_used s + (1 # 2)) s.

(** Lines 61-72: drive from the current location to the pickup. *)
Definition drive_to_pickup (segments : list segment) (s : state) : state :=
  match segments with
  | [] => s
  | seg0 :: _ =>
    let first_leg_distance_mi := distance seg0 / METERS_PER_MILE in
    let hours_to_pickup := first_leg_distance_mi / AVG_SPEED_MPH in
    let s := append "Driving" (t s) (t s + timedelta_hours hours_to_pickup)
                    (NDriveToPickup first_leg_distance_mi) s in
    let s := set_t (t s + timedelta_hours hours_to_pickup) s in
    let s := set_miles_driven (miles_driven s + first_leg_distance_mi) s in
    let s := set_driving_since_break (driving_since_break s + hours_to_pickup) s in
    let s := set_driving_today (driving_today s + hours_to_pickup) s in
    let s := set_on_duty_today (on_duty_today s + hours_to_pickup) s in
    set_cycle_used (cycle_used s + hours_to_pickup) s
  end.

(** Lines 74-78: pickup. *)
Definition pickup (s : state) : state :=
  let s := append "OnDutyNotDriving" (t s) (t s + timedelta_minutes PICKUP_MIN) NPickup s in
  let s := set_t (t s + timedelta_minutes PICKUP_MIN) s in
  let s := set_on_duty_today (on_duty_today s + inject_Z PICKUP_MIN / 60) s in
  set_cycle_used (cycle_used s + inject_Z PICKUP_MIN / 60) s.

(** Lines 86-91: the mandatory 30 minute break. *)
Definition mandatory_break (s : state) : state :=
  let s := append "OffDuty" (t s) (t s + timedelta_minutes 30) NBreak s in
  let s := set_t (t s + timedelta_minutes 30) s in
  set_driving_since_break 0 s.

(** Lines 95-118: the daily limit is reached. *)
Definition daily_limit (s : state) : state :=
  let s :=
    if Qltb 50 (remaining_miles s) then
      let s1 := min2 7 (MAX_ON_DUTY_HRS - on_duty_today s) in
      let sb_start := t s in
      let sb_end := (t s + timedelta_hours s1)%Z in
      let s := append "Sleeper" sb_start sb_end NSleeper s in
      let s := set_t sb_end s in
      let s := reset_daily s in
      let s := set_cycle_used (cycle_used s + s1) s in
      let s2 := min2 3 OFF_DUTY_RESET_HRS in
      if Qltb 100 (remaining_miles s) then
        let rest_start := t s in
        let rest_end := (t s + timedelta_hours s2)%Z in
        let s := append "OffDuty" rest_start rest_end NSplitCompletion s in
        let s := set_t rest_end s in
        set_cycle_used (cycle_used s + s2) s
      else s
    else
      let reset_start := t s in
      let reset_end := (t s + timedelta_hours OFF_DUTY_RESET_HRS)%Z in
      let s := append "OffDuty" reset_start reset_end NDailyReset s in
      let s := set_t reset_end s in
      set_cycle_used (cycle_used s + OFF_DUTY_RESET_HRS) s in
  reset_daily s.

(** Lines 121-126: the cycle limit is reached. *)
Definition cycle_restart (s : state) : state :=
  let s := append "OffDuty" (t s) (t s + timedelta_hours RESTART_OFF_DUTY_HRS) NRestart s in
  let s := set_t (t s + timedelta_hours RESTART_OFF_DUTY_HRS) s in
  set_cycle_used 0 s.

(** Lines 147-153: the fuel stop after a leg. *)
Definition fuel_check (s : state) : state :=
  if Qle_bool (miles_until_fuel s) 0 && Qltb 0 (remaining_miles s) then
    let fuel_start := t s in
    let fuel_end := (t s + timedelta_minutes FUEL_STOP_MIN)%Z in
    let s := append "OnDutyNotDriving" fuel_start fuel_end NFuelStop s in
    let s := set_t fuel_end s in
    let s := set_on_duty_today (on_duty_today s + inject_Z FUEL_STOP_MIN / 60) s in
    let s := set_cycle_used (cycle_used s + inject_Z FUEL_STOP_MIN / 60) s in
    set_miles_until_fuel FUEL_RANGE_MILES s
  else s.

(** Lines 129-144: one driving leg. *)
Definition driving_leg (s : state) : state :=
  let miles_this_leg := min2 (remaining_miles s) AVG_SPEED_MPH in
  let hours_this_leg := miles_this_leg / AVG_SPEED_MPH in
  let hours_this_leg := min3 hours_this_leg (MAX_DRIVE_HRS - driving_today s)
                             (MAX_ON_DUTY_HRS - on_duty_today s) in
  let drive_start := t s in
  let drive_end := (t s + timedelta_hours hours_this_leg)%Z in
  let s := append "Driving" drive_start drive_end (NDrive miles_this_leg) s in
  let s := set_t drive_end s in
  let s := set_remaining_miles (remaining_miles s - miles_this_leg) s in
  let s := set_miles_driven (miles_driven s + miles_this_leg) s in
  let s := set_driving_today (driving_today s + hours_this_leg) s in
  let s := set_on_duty_today (on_duty_today s + hours_this_leg) s in
  let s := set_driving_since_break (driving_since_break s + hours_this_leg) s in
  let s := set_cycle_used (cycle_used s + hours_this_leg) s in
  set_miles_until_fuel (miles_until_fuel s - miles_this_leg) s.

(** Which rule an iteration of the loop fires: the first guard that holds. *)
Inductive rule := RBreak | RDaily | RCycle | RDrive.

Definition rule_of (s : state) : rule :=
  if Qle_bool BREAK_AFTER_HRS (driving_since_break s) then RBreak
  else if Qle_bool MAX_DRIVE_HRS (driving_today s)
          || Qle_bool MAX_ON_DUTY_HRS (on_duty_today s) then RDaily
  else if Qle_bool CYCLE_LIMIT_HRS (cycle_used s) then RCycle
  else RDrive.

(** Lines 85-153: the body of the [while] loop. *)
Definition loop_body (s : state) : state :=
  match rule_of s with
  | RBreak => mandatory_break s
  | RDaily => daily_limit s
  | RCycle => cycle_restart s
  | RDrive => fuel_check (driving_leg s)
  end.

(** Line 84: [while remaining_miles > 0].  The loop is run with a bound on
    the number of iterations; [None] means the bound was too small. *)
Fixpoint while_loop (fuel : nat) (s : state) : option state :=
  if Qltb 0 (remaining_miles s) then
    match fuel with
    | O => None
    | S fuel' => while_loop fuel' (loop_body s)
    end
  else Some s.

(** Lines 155-159: unload and the rest after the trip. *)
Definition dropoff_and_post_trip (s : state) : state :=
  let s := append "OnDutyNotDriving" (t s) (t s + timedelta_minutes DROPOFF_MIN) NUnload s in
  let s := set_t (t s + timedelta_minutes DROPOFF_MIN) s in
  append "OffDuty" (t s) (t s + timedelta_hours OFF_DUTY_RESET_HRS) NPostTripRest s.

(** Lines 55-81: everything before the loop. *)
Definition before_loop (now : Z) (segments : list segment)
           (current_cycle_used_hours : Q) : state :=
  initial_state now current_cycle_used_hours
  |> pre_trip
  |> drive_to_pickup segments
  |> pickup
  |> set_remaining_miles (sum_of distance (tl segments) / METERS_PER_MILE).

(** The degenerate result of line 24. *)
Definition empty_result : result := mkResult [] 0 0.

(** [compute_schedule_for_route], with the clock reading [now] and the
    iteration bound [fuel] made explicit. *)
Definition compute_schedule_for_route (fuel : nat) (now : Z)
           (route : route_geojson) (current_cycle_used_hours : Q)
  : option result :=
  match get_or_empty (features_key route) with
  | [] => Some empty_result
  | feature0 :: _ =>
    let props := feature_properties feature0 in
    let segments := get_or_empty (segments_key props) in
    let total_meters := sum_of distance segments in
    let total_seconds := sum_of duration segments in
    let total_miles := total_meters / METERS_PER_MILE in
    let est_drive_hours := total_seconds / 3600 in
    match while_loop fuel (before_loop now segments current_cycle_used_hours) with
    | None => None
    | Some s =>
      let s := dropoff_and_post_trip s in
      Some (mkResult (sched s) (round2 total_miles) (round2 est_drive_hours))
    end
  end.

(** A route with one feature carrying the given segments. *)
Definition route_of (segs : list segment) : route_geojson :=
  mkRoute (Some [mkFeature (mkProperties (Some segs))]).

(** ** Named parts of the steps *)

(** [first_leg_distance_mi] and [hours_to_pickup] of lines 63-64. *)
Definition first_leg_distance_mi (seg0 : segment) : Q :=
  distance seg0 / METERS_PER_MILE.

Definition hours_to_pickup (seg0 : segment) : Q :=
  first_leg_distance_mi seg0 / AVG_SPEED_MPH.

(** [s1] of line 96. *)
Definition sleeper_hours (s : state) : Q :=
  min2 7 (MAX_ON_DUTY_HRS - on_duty_today s).

(** [miles_this_leg] and [hours_this_leg] of lines 129-132. *)
Definition miles_this_leg (s : state) : Q :=
  min2 (remaining_miles s) AVG_SPEED_MPH.

Definition hours_this_leg (s : state) : Q :=
  min3 (miles_this_leg s / AVG_SPEED_MPH)
       (MAX_DRIVE_HRS - driving_today s)
       (MAX_ON_DUTY_HRS - on_duty_today s).

(** The segments the function works on: those of the first feature. *)
Definition segments_of (route : route_geojson) : list segment :=
  match get_or_empty (features_key route) with
  | [] => []
  | feature0 :: _ => get_or_empty (segments_key (feature_properties feature0))
  end.

(** The inputs the data model allows: no negative distance or duration. *)
Definition nonneg_segments (segments : list segment) : Prop :=
  Forall (fun seg => 0 <= distance seg /\ 0 <= duration seg) segments.

(** ** Example inputs *)

(** A 10 mile leg to the pickup, then 40 miles. *)
Definition short_trip : route_geojson :=
  route_of [mkSegment (16093 # 1) 660; mkSegment (64374 # 1) 2640].

(** A 10 mile leg to the pickup, then 700 miles. *)
Definition long_trip : route_geojson :=
  route_of [mkSegment (160934 # 10) 660; mkSegment (1126538 # 1) 45000].

(** A 1000 mile leg to the pickup, then 80 miles. *)
Definition far_pickup_segments : list segment :=
  [mkSegment (1609340 # 1) 65000; mkSegment (1287472 # 10) 5200].

Definition far_pickup : route_geojson := route_of far_pickup_segments.

(** A feature without segments. *)
Definition no_segments : route_geojson := route_of [].

(** ** Vocabulary of the properties *)

(** [chain a l b]: the periods of [l] follow one another from time [a] to
    time [b].  The list grows at its end, as the schedule does. *)
Inductive chain (a : Z) : list period -> Z -> Prop :=
| chain_nil : chain a [] a
| chain_snoc l b p : chain a l b -> start p = b -> chain a (l ++ [p]) (end_ p).

(** The schedule of a state is chained up to the current time. *)
Definition chained (now : Z) (s : state) : Prop := chain now (sched s) (t s).

(** The number of driving legs still needed. *)
Definition legs_left (s : state) : nat :=
  Z.to_nat (Qceiling (remaining_miles s / AVG_SPEED_MPH)).

(** A state is at most [k] iterations away from a driving leg. *)
Definition drives_within (k : nat) (s : state) : Prop :=
  exists j sd,
    (j <= k)%nat /\
    (forall fuel, while_loop (j + fuel) s = while_loop fuel sd) /\
    rule_of sd = RDrive /\
    remaining_miles sd = remaining_miles s.

(** The tag each kind of period is emitted with, read off the calls of
    [append]. *)
Definition status_of_note (n : note) : string :=
  match n with
  | NPreTrip | NPickup | NFuelStop | NUnload => "OnDutyNotDriving"
  | NDriveToPickup _ | NDrive _ => "Driving"
  | NSleeper => "Sleeper"
  | NBreak | NSplitCompletion | NDailyReset | NRestart | NPostTripRest => "OffDuty"
  end.

Definition well_tagged (p : period) : Prop :=
  status p = status_of_note (period_note p).

(** The four tags of the code. *)
Definition status_tags : list string :=
  ["Driving"; "OnDutyNotDriving"; "OffDuty"; "Sleeper"]%string.

(** The four periods that every non-degenerate run emits around the
    driving: inspection, pickup, unload and the rest after the trip. *)
Definition fixed_periods (now : Z) : list period :=
  let t1 := (now + timedelta_minutes 30)%Z in
  let t2 := (t1 + timedelta_minutes PICKUP_MIN)%Z in
  let t3 := (t2 + timedelta_minutes DROPOFF_MIN)%Z in
  [ mkPeriod "OnDutyNotDriving" now t1 NPreTrip 0;
    mkPeriod "OnDutyNotDriving" t1 t2 NPickup 0;
    mkPeriod "OnDutyNotDriving" t2 t3 NUnload 0;
    mkPeriod "OffDuty" t3 (t3 + timedelta_hours OFF_DUTY_RESET_HRS) NPostTripRest 0 ].

(** Moving a schedule in time. *)
Definition shift_period (d : Z) (p : period) : period :=
  mkPeriod (status p) (start p + d) (end_ p + d) (period_note p)
           (miles_since_start p).

Definition shift_result (d : Z) (r : result) : result :=
  mkResult (map (shift_period d) (schedule r)) (total_miles r)
           (estimated_drive_hours r).

Definition shift_state (d : Z) (s : state) : state :=
  mkState (t s + d) (map (shift_period d) (sched s)) (miles_driven s)
          (driving_today s) (on_duty_today s) (driving_since_break s)
          (cycle_used s) (miles_until_fuel s) (remaining_miles s).

(** The duration of a period, in microseconds. *)
Definition duration_us (p : period) : Z := (end_ p - start p)%Z.

Definition positive_duration (p : period) : Prop := (start p < end_ p)%Z.

(** The miles a period covers: the number in the note of a driving period. *)
Definition leg_miles (p : period) : Q :=
  match period_note p with
  | NDriveToPickup mi | NDrive mi => mi
  | _ => 0
  end.

(** Adding the miles of a period to a total, as the code does after a
    driving period (other periods leave [miles_driven] untouched). *)
Definition add_leg (acc : Q) (p : period) : Q :=
  match period_note p with
  | NDriveToPickup mi | NDrive mi => acc + mi
  | _ => acc
  end.

(** The miles covered by a list of periods, counted from [0.0]. *)
Definition miles_covered (l : list period) : Q := fold_left add_leg l 0.

(** [annotated l m]: every period of [l] is annotated with the miles
    covered by the periods before it, and [l] covers [m] miles. *)
Inductive annotated : list period -> Q -> Prop :=
| annotated_nil : annotated [] 0
| annotated_snoc l m p :
    annotated l m -> miles_since_start p = m ->
    annotated (l ++ [p]) (add_leg m p).

Definition nonneg_leg (p : period) : Prop := 0 <= leg_miles p.

(** The schedule of a state is annotated, and covers [miles_driven]. *)
Definition annotated_state (s : state) : Prop :=
  annotated (sched s) (miles_driven s).

(** Fuel stops. *)
Definition is_fuel_stop (p : period) : bool :=
  match period_note p with NFuelStop => true | _ => false end.

Definition count_fuel_stops (l : list period) : nat :=
  List.length (filter is_fuel_stop l).

(** The fuel stop test after a leg, from the miles remaining and the fuel
    counter before the leg. *)
Definition stops_for_fuel (rem muf : Q) : bool :=
  let miles := min2 rem AVG_SPEED_MPH in
  Qle_bool (muf - miles) 0 && Qltb 0 (rem - miles).

(** [fuel_run rem muf k]: driving [rem] miles in legs, with [muf] miles of
    fuel range at the start, stops [k] times for fuel.  Nothing but the
    miles of the legs of the loop enters. *)
Inductive fuel_run : Q -> Q -> nat -> Prop :=
| fuel_run_done rem muf : rem <= 0 -> fuel_run rem muf 0
| fuel_run_leg rem muf k :
    0 < rem ->
    fuel_run (rem - min2 rem AVG_SPEED_MPH)
             (if stops_for_fuel rem muf then FUEL_RANGE_MILES
              else muf - min2 rem AVG_SPEED_MPH) k ->
    fuel_run rem muf ((if stops_for_fuel rem muf then 1 else 0) + k).

(** Rest periods and driving periods, by their tags. *)
Definition is_rest (p : period) : bool :=
  (status p =? "OffDuty")%string || (status p =? "Sleeper")%string.

Definition is_driving (p : period) : bool := (status p =? "Driving")%string.

Definition is_restart (p : period) : bool :=
  match period_note p with NRestart => true | _ => false end.

(** The driving time of a list of periods: the durations of its Driving
    periods, in microseconds. *)
Definition driving_time (l : list period) : Z :=
  fold_right (fun p acc => if is_driving p then duration_us p + acc else acc)%Z
             0%Z l.

(** The continuous driving time at the end of a schedule, read from left
    to right: nothing is counted before the first rest period; a break or
    a daily rest starts the count again; a 34 hour restart starts it when
    no count runs and otherwise lets it run; a Driving period adds its
    duration. *)
Definition window_step (acc : option Z) (p : period) : option Z :=
  if is_rest p then
    if is_restart p then
      match acc with None => Some 0%Z | Some w => Some w end
    else Some 0%Z
  else if is_driving p then option_map (fun w => w + duration_us p)%Z acc
  else acc.

Definition continuous_driving (l : list period) : option Z :=
  fold_left window_step l None.

(** Eight hours, in microseconds. *)
Definition BREAK_AFTER_US : Z := timedelta_hours BREAK_AFTER_HRS.

(** At every point of the schedule the continuous driving time is between
    0 and 8 hours. *)
Definition bounded_windows (l : list period) : Prop :=
  forall l1 l2 w,
    l = l1 ++ l2 -> continuous_driving l1 = Some w ->
    (0 <= w <= BREAK_AFTER_US)%Z.

(** No driving leg can follow before a rest or the end of the loop. *)
Definition blocked (s : state) : Prop :=
  MAX_DRIVE_HRS <= driving_today s \/
  MAX_ON_DUTY_HRS <= on_duty_today s \/
  remaining_miles s <= 0.

(** The invariant of the loop for the break rule.  [driving_since_break]
    is not negative; the continuous driving time was never above 8 hours;
    and now it is a whole number [n <= 8] of hours that
    [driving_since_break] has reached, or the state is blocked. *)
Definition window_inv (s : state) : Prop :=
  0 <= driving_since_break s /\
  bounded_windows (sched s) /\
  forall w, continuous_driving (sched s) = Some w ->
    (exists n : Z, (0 <= n <= 8)%Z /\ w = (n * US_PER_HOUR)%Z /\
                   inject_Z n <= driving_since_break s) \/
    ((0 <= w <= BREAK_AFTER_US)%Z /\ blocked s).

(** Before the loop no rest period has been emitted. *)
Definition pre_window (s : state) : Prop :=
  0 <= driving_since_break s /\
  bounded_windows (sched s) /\
  continuous_driving (sched s) = None.

(** ** Results of the example inputs *)

Definition result_of (r : option result) : result :=
  match r with Some res => res | None => empty_result end.

Definition short_trip_result : result :=
  Eval vm_compute in result_of (compute_schedule_for_route 10 0 short_trip 0).

Definition long_trip_result : result :=
  Eval vm_compute in result_of (compute_schedule_for_route 20 0 long_trip 0).

(** [short_trip] with a leg of 100 miles to the pickup instead of 10. *)
Definition short_trip_far : route_geojson :=
  route_of [mkSegment (160934 # 1) 6600; mkSegment (64374 # 1) 2640].

Definition short_trip_far_result : result :=
  Eval vm_compute in result_of (compute_schedule_for_route 10 5 short_trip_far 3).

(** A 10 mile leg to the pickup, then 1200 miles. *)
Definition cross_country : route_geojson :=
  route_of [mkSegment (160934 # 10) 660; mkSegment (1931208 # 1) 78000].

Definition cross_country_result : result :=
  Eval vm_compute in result_of (compute_schedule_for_route 40 0 cross_country 0).

(** A period to read a list with [nth]. *)
Definition no_period : period := mkPeriod "" 0 0 NPreTrip 0.

(** The daily rests (the split rest, its completion, the 10 hour reset)
    and the mandatory break, by their notes. *)
Definition is_daily_rest (p : period) : bool :=
  match period_note p with
  | NSleeper | NSplitCompletion | NDailyReset => true
  | _ => false
  end.

Definition is_break (p : period) : bool :=
  match period_note p with NBreak => true | _ => false end.

(** The driving time since the first daily rest after the last mandatory
    break, at the end of a schedule: nothing is counted before a daily
    rest; a Driving period adds its duration; a mandatory break ends the
    count; every other period lets it run. *)
Definition daily_step (acc : option Z) (p : period) : option Z :=
  if is_driving p then option_map (fun w => w + duration_us p)%Z acc
  else if is_break p then None
  else if is_daily_rest p then
    match acc with None => Some 0%Z | Some w => Some w end
  else acc.

Definition driving_since_daily_rest (l : list period) : option Z :=
  fold_left daily_step l None.

Definition bounded_since_daily_rest (l : list period) : Prop :=
  forall l1 l2 w,
    l = l1 ++ l2 -> driving_since_daily_rest l1 = Some w ->
    (0 <= w <= BREAK_AFTER_US)%Z.

(** The invariant of the loop between a daily rest and the next break:
    the three daily counters are reset together, so [driving_today] and
    [driving_since_break] are the same whole number [n <= 8] of hours and
    [on_duty_today] exceeds them by the fuel stops only, at most one per
    leg; or the trip is over. *)
Definition daily_inv (s : state) : Prop :=
  bounded_since_daily_rest (sched s) /\
  forall w, driving_since_daily_rest (sched s) = Some w ->
    (exists n : Z, (0 <= n <= 8)%Z /\ w = (n * US_PER_HOUR)%Z /\
                   driving_since_break s == inject_Z n /\
                   driving_today s == inject_Z n /\
                   on_duty_today s <= (7 # 4) * driving_since_break s) \/
    ((0 <= w <= BREAK_AFTER_US)%Z /\ remaining_miles s <= 0).

(** A period ends no earlier than it starts, the split rest left aside. *)
Definition ends_after_start (p : period) : Prop :=
  period_note p = NSleeper \/ (start p <= end_ p)%Z.

(** ** The view: [plan_trip] of [trips/views.py]

    The view reads the request data, the environment variable
    [ORS_API_KEY], the routing service and, through
    [compute_schedule_for_route], the clock.  They are arguments here: the
    routing service is a function from the key and the coordinates it is
    called with to what [requests.post] gives back.  The request data is a
    JSON object whose locations are objects; what the view prints is
    returned beside the response. *)

(** A location of the request: [lng] and [lat] may be missing. *)
Record location := mkLocation { lng_key : option Q; lat_key : option Q }.

(** [request.data]: every key may be missing. *)
Record trip_data := mkTripData {
  current_location_key : option location;
  pickup_location_key : option location;
  dropoff_location_key : option location;
  current_cycle_used_hours_key : option Q
}.

(** The exceptions of the [try] block: a missing key, [l[0]] on an empty
    list, and whatever [requests.post] or [res.json()] raise, with their
    message. *)
Inductive exception :=
| KeyError (key : string)
| IndexError
| LibraryError (msg : string).

(** [str(e)]. *)
Definition str_of_exception (e : exception) : string :=
  match e with
  | KeyError key => "'" ++ key ++ "'"
  | IndexError => "list index out of range"
  | LibraryError msg => msg
  end%string.

(** What [res.json()] gives: it raises when the body is not JSON. *)
Inductive ors_body :=
| NotJson (msg : string)
| JsonBody (route_data : route_geojson).

(** What [requests.post] gives: it raises, or returns a response. *)
Inductive ors_outcome :=
| PostRaised (msg : string)
| PostReturned (status_code : Z) (text : string) (json : ors_body).

(** The routing service, called with the key (in the [Authorization]
    header) and the coordinates (the payload). *)
Definition ors_service : Type := string -> list (Q * Q) -> ors_outcome.

Record summary := mkSummary { distance_km : Q; duration_hr : Q }.

(** The data of a [Response]: an error with optional details, or the
    route, its summary and the schedule. *)
Inductive response_data :=
| ErrorData (error : string) (details : option string)
| TripData (route : route_geojson) (trip_summary : summary) (trip_schedule : result).

Record response := mkResponse { data_of : response_data; http_status : Z }.

(** The lines the view prints. *)
Inductive printed :=
| PrintReceived (data : trip_data)
| PrintText (text : string)
| PrintError (e : string).

(** Raising and propagating exceptions. *)
Definition bind_exc {A B : Type} (m : exception + A) (k : A -> exception + B)
  : exception + B :=
  match m with inl e => inl e | inr a => k a end.

Notation "x <- m ;; k" := (bind_exc m (fun x => k))
  (at level 61, m at next level, right associativity).

(** [d[key]]. *)
Definition getitem {A : Type} (key : string) (o : option A) : exception + A :=
  match o with Some a => inr a | None => inl (KeyError key) end.

(** [l[0]]. *)
Definition getitem0 {A : Type} (l : list A) : exception + A :=
  match l with a :: _ => inr a | [] => inl IndexError end.

(** [[data[key]["lng"], data[key]["lat"]]]. *)
Definition coordinate (key : string) (data_key : option location)
  : exception + (Q * Q) :=
  loc <- getitem key data_key ;;
  lng <- getitem "lng" (lng_key loc) ;;
  loc' <- getitem key data_key ;;
  lat <- getitem "lat" (lat_key loc') ;;
  inr (lng, lat).

(** Lines 18-22. *)
Definition coordinates (data : trip_data) : exception + list (Q * Q) :=
  c1 <- coordinate "current_location" (current_location_key data) ;;
  c2 <- coordinate "pickup_location" (pickup_location_key data) ;;
  c3 <- coordinate "dropoff_location" (dropoff_location_key data) ;;
  inr [c1; c2; c3].

(** [not ors_key]: the variable is unset or empty. *)
Definition no_key (ors_api_key : option string) : bool :=
  match ors_api_key with
  | None => true
  | Some EmptyString => true
  | Some _ => false
  end.

(** Lines 44-54: the response built from the route and the schedule. *)
Definition trip_response (route_data : route_geojson) (trip_schedule : result)
  : exception + (response * list printed) :=
  features <- getitem "features" (features_key route_data) ;;
  feature0 <- getitem0 features ;;
  segments <- getitem "segments" (segments_key (feature_properties feature0)) ;;
  props <- getitem0 segments ;;
  inr (mkResponse
         (TripData route_data
                   (mkSummary (round2 (distance props / 1000))
                              (round2 (duration props / 3600)))
                   trip_schedule)
         200, []).

(** Lines 16-54: the [try] block.  It returns a response and what it
    printed, or raises; [None] when the iteration bound of the schedule is
    too small.  The call of [compute_schedule_for_route] is the function
    above, on a typed route and a number of hours; what the Python
    function raises on other data or past the range of [datetime] is not
    modelled (the handler of line 58 would answer it with status 500). *)
Definition plan_trip_try (fuel : nat) (now : Z) (ors_api_key : option string)
           (ors : ors_service) (data : trip_data)
  : option (exception + (response * list printed)) :=
  match coordinates data with
  | inl e => Some (inl e)
  | inr coords =>
    if no_key ors_api_key then
      Some (inr (mkResponse (ErrorData "ORS_API_KEY not found" None) 500, []))
    else
      match ors (match ors_api_key with Some k => k | None => EmptyString end)
                coords with
      | PostRaised msg => Some (inl (LibraryError msg))
      | PostReturned status_code text json =>
        if negb (status_code =? 200)%Z then
          Some (inr (mkResponse (ErrorData "ORS request failed" (Some text)) 500,
                     [PrintText text]))
        else
          match json with
          | NotJson msg => Some (inl (LibraryError msg))
          | JsonBody route_data =>
            match compute_schedule_for_route
                    fuel now route_data
                    (match current_cycle_used_hours_key data with
                     | Some hours => hours
                     | None => 0
                     end) with
            | None => None
            | Some trip_schedule => Some (trip_response route_data trip_schedule)
            end
          end
      end
  end.

(** [plan_trip] from line 14 on, on the request data that line 13 has
    read: the [try] block and the handler of line 58. *)
Definition plan_trip (fuel : nat) (now : Z) (ors_api_key : option string)
           (ors : ors_service) (data : trip_data)
  : option (response * list printed) :=
  match plan_trip_try fuel now ors_api_key ors data with
  | None => None
  | Some (inr (resp, out)) => Some (resp, PrintReceived data :: out)
  | Some (inl e) =>
    Some (mkResponse (ErrorData (str_of_exception e) None) 500,
          [PrintReceived data; PrintError (str_of_exception e)])
  end.

(** [request.data] (line 13): reading it parses the body of the request,
    and raises the framework's [ParseError] when the body cannot be
    parsed.  The line is before the [try]. *)
Inductive request :=
| Unparsable (detail : string)
| Parsed (data : trip_data).

(** What a call of the view does: an exception leaves it, or it returns a
    response, having printed some lines. *)
Inductive outcome :=
| Raises (e : exception)
| Returns (resp : response) (out : list printed).

(** [plan_trip], from line 13 on. *)
Definition plan_trip_of_request (fuel : nat) (now : Z)
           (ors_api_key : option string) (ors : ors_service) (req : request)
  : option outcome :=
  match req with
  | Unparsable detail => Some (Raises (LibraryError detail))
  | Parsed data =>
    match plan_trip fuel now ors_api_key ors data with
    | None => None
    | Some (resp, out) => Some (Returns resp out)
    end
  end.

(** [data.get("current_cycle_used_hours", 0)]. *)
Definition cycle_hours_of (data : trip_data) : Q :=
  match current_cycle_used_hours_key data with
  | Some hours => hours
  | None => 0
  end.

(** The summary of the response: the first segment, in kilometres and
    hours, rounded to two places. *)
Definition summary_of (props : segment) : summary :=
  mkSummary (round2 (distance props / 1000)) (round2 (duration props / 3600)).

(** ** More vocabulary *)

(** The periods before the loop: the inspection, the drive to the pickup
    when there is a first segment, and the pickup. *)
Definition opening_periods (now : Z) (segments : list segment) : list period :=
  let t1 := (now + timedelta_minutes 30)%Z in
  match segments with
  | [] =>
    [ mkPeriod "OnDutyNotDriving" now t1 NPreTrip 0;
      mkPeriod "OnDutyNotDriving" t1 (t1 + timedelta_minutes PICKUP_MIN) NPickup 0 ]
  | seg0 :: _ =>
    let t2 := (t1 + timedelta_hours (hours_to_pickup seg0))%Z in
    [ mkPeriod "OnDutyNotDriving" now t1 NPreTrip 0;
      mkPeriod "Driving" t1 t2 (NDriveToPickup (first_leg_distance_mi seg0)) 0;
      mkPeriod "OnDutyNotDriving" t2 (t2 + timedelta_minutes PICKUP_MIN) NPickup
               (0 + first_leg_distance_mi seg0) ]
  end.

(** The two periods after the loop, from the time and the miles at the
    end of the loop. *)
Definition closing_periods (t_end : Z) (miles : Q) : list period :=
  let t1 := (t_end + timedelta_minutes DROPOFF_MIN)%Z in
  [ mkPeriod "OnDutyNotDriving" t_end t1 NUnload miles;
    mkPeriod "OffDuty" t1 (t1 + timedelta_hours OFF_DUTY_RESET_HRS) NPostTripRest miles ].

(** The periods the loop emits. *)
Definition is_loop_period (p : period) : bool :=
  match period_note p with
  | NBreak | NSleeper | NSplitCompletion | NDailyReset | NRestart
  | NDrive _ | NFuelStop => true
  | _ => false
  end.

(** The legs of the loop. *)
Definition is_leg (p : period) : bool :=
  match period_note p with NDrive _ => true | _ => false end.

(** The miles the route has after the pickup, and in all. *)
Definition miles_after_pickup (segments : list segment) : Q :=
  sum_of distance (tl segments) / METERS_PER_MILE.

Definition route_miles (segments : list segment) : Q :=
  sum_of distance segments / METERS_PER_MILE.

(** The state before the loop, field by field. *)
Definition miles_to_pickup (segments : list segment) : Q :=
  match segments with
  | [] => 0
  | seg0 :: _ => 0 + first_leg_distance_mi seg0
  end.

(** The time at which the pickup ends. *)
Definition pickup_end (now : Z) (segments : list segment) : Z :=
  match segments with
  | [] => (now + timedelta_minutes 30 + timedelta_minutes PICKUP_MIN)%Z
  | seg0 :: _ =>
    (now + timedelta_minutes 30 + timedelta_hours (hours_to_pickup seg0)
     + timedelta_minutes PICKUP_MIN)%Z
  end.

(** *** The order of the periods

    Which period can come next, read off the control flow: the loop
    starts after the pickup; a fuel stop follows a leg only; a rest resets
    the counter that asked for it, so the same rest does not come twice;
    the restart is tested last, so a leg follows it; the loop is left
    after a leg, or at once. *)
Definition may_follow (n m : note) : bool :=
  match n, m with
  | NPreTrip, (NDriveToPickup _ | NPickup) => true
  | NDriveToPickup _, NPickup => true
  | NPickup, (NBreak | NSleeper | NDailyReset | NRestart | NDrive _ | NUnload) => true
  | NBreak, (NSleeper | NDailyReset | NRestart | NDrive _) => true
  | NSleeper, (NSplitCompletion | NRestart | NDrive _) => true
  | NSplitCompletion, (NRestart | NDrive _) => true
  | NDailyReset, (NRestart | NDrive _) => true
  | NRestart, NDrive _ => true
  | NDrive _, (NFuelStop | NBreak | NSleeper | NDailyReset | NRestart
               | NDrive _ | NUnload) => true
  | NFuelStop, (NBreak | NSleeper | NDailyReset | NRestart | NDrive _) => true
  | NUnload, NPostTripRest => true
  | _, _ => false
  end.

(** The note of the last period. *)
Definition last_note (l : list period) : option note :=
  fold_left (fun _ p => Some (period_note p)) l None.

(** Every period of [l] may follow the one before it. *)
Definition in_order (l : list period) : Prop :=
  forall i p q,
    nth_error l i = Some p -> nth_error l (S i) = Some q ->
    may_follow (period_note p) (period_note q) = true.

(** What the loop knows when it is entered after a period with note [n]. *)
Definition after_note (n : note) (s : state) : Prop :=
  match n with
  | NPickup | NDrive _ => True
  | NBreak => driving_since_break s < BREAK_AFTER_HRS /\ 0 < remaining_miles s
  | NSleeper | NSplitCompletion | NDailyReset =>
    driving_since_break s < BREAK_AFTER_HRS /\
    driving_today s < MAX_DRIVE_HRS /\
    on_duty_today s < MAX_ON_DUTY_HRS /\
    0 < remaining_miles s
  | NRestart => rule_of s = RDrive /\ 0 < remaining_miles s
  | NFuelStop => 0 < remaining_miles s
  | NPreTrip | NDriveToPickup _ | NUnload | NPostTripRest => False
  end.

Definition order_inv (s : state) : Prop :=
  in_order (sched s) /\
  exists n, last_note (sched s) = Some n /\ after_note n s.

(** *** The legs of the loop *)

Definition count_legs (l : list period) : nat := List.length (filter is_leg l).

(** A leg covers at most the miles of one hour at the average speed, and
    lasts at most one hour. *)
Definition leg_within_speed (p : period) : Prop :=
  is_leg p = true ->
  0 < leg_miles p /\ leg_miles p <= AVG_SPEED_MPH /\
  (0 <= duration_us p <= US_PER_HOUR)%Z.

(** The legs of a schedule, in order. *)
Definition legs (l : list period) : list period := filter is_leg l.

(** A leg of a full hour at the average speed. *)
Definition full_leg (p : period) : Prop := leg_miles p = AVG_SPEED_MPH.

(** The invariant of the loop for the legs: all legs but the last are
    full, and so is the last while miles remain. *)
Definition legs_inv (s : state) : Prop :=
  Forall leg_within_speed (sched s) /\
  Forall full_leg (removelast (legs (sched s))) /\
  (Forall full_leg (legs (sched s)) \/ remaining_miles s <= 0).

(** *** The miles between fuel stops

    The miles from the pickup to the first fuel stop and from each fuel
    stop to the next, from the annotations of these periods. *)
Definition gap_step (acc : Q * list Q) (p : period) : Q * list Q :=
  match period_note p with
  | NPickup => (miles_since_start p, snd acc)
  | NFuelStop =>
    (miles_since_start p, snd acc ++ [miles_since_start p - fst acc])
  | _ => acc
  end.

Definition fuel_gaps_from (l : list period) : Q * list Q :=
  fold_left gap_step l (0, []).

Definition fuel_gaps (l : list period) : list Q := snd (fuel_gaps_from l).

Definition fuel_gap_ok (g : Q) : Prop :=
  FUEL_RANGE_MILES <= g /\ g < FUEL_RANGE_MILES + AVG_SPEED_MPH.

Definition gap_inv (s : state) : Prop :=
  Forall fuel_gap_ok (fuel_gaps (sched s)) /\
  miles_until_fuel s ==
    FUEL_RANGE_MILES - (miles_driven s - fst (fuel_gaps_from (sched s))) /\
  (0 < miles_until_fuel s \/ remaining_miles s <= 0).

(** *** The driving of a day

    The driving time since the last daily rest, at the end of a schedule:
    nothing is counted before the first daily rest; a daily rest starts
    the count again; a Driving period adds its duration; every other
    period, the mandatory break and the 34 hour restart among them, lets
    the count run. *)
Definition day_step (acc : option Z) (p : period) : option Z :=
  if is_daily_rest p then Some 0%Z
  else if is_driving p then option_map (fun w => w + duration_us p)%Z acc
  else acc.

Definition driving_of_day (l : list period) : option Z :=
  fold_left day_step l None.

(** Eleven hours, in microseconds. *)
Definition MAX_DRIVE_US : Z := timedelta_hours MAX_DRIVE_HRS.

Definition bounded_days (l : list period) : Prop :=
  forall l1 l2 w,
    l = l1 ++ l2 -> driving_of_day l1 = Some w -> (0 <= w <= MAX_DRIVE_US)%Z.

(** The invariant of the loop for the driving of a day: it is a whole
    number [n <= 11] of hours that [driving_today] has reached, or no leg
    can follow before the next daily rest. *)
Definition day_inv (s : state) : Prop :=
  bounded_days (sched s) /\
  forall w, driving_of_day (sched s) = Some w ->
    (exists n : Z, (0 <= n <= 11)%Z /\ w = (n * US_PER_HOUR)%Z /\
                   inject_Z n <= driving_today s) \/
    ((0 <= w <= MAX_DRIVE_US)%Z /\ blocked s).

(** *** The durations of the periods

    The duration the code gives to the periods of each kind: fixed for
    most; the time of the miles at the average speed for the drive to the
    pickup; at most that time for a leg, whose hours are capped by what is
    left of the day; at most three hours for the split rest. *)
Definition fixed_duration (n : note) : option Z :=
  match n with
  | NPreTrip | NBreak => Some (timedelta_minutes 30)
  | NPickup => Some (timedelta_minutes PICKUP_MIN)
  | NUnload => Some (timedelta_minutes DROPOFF_MIN)
  | NFuelStop => Some (timedelta_minutes FUEL_STOP_MIN)
  | NSplitCompletion => Some (3 * US_PER_HOUR)%Z
  | NDailyReset | NPostTripRest => Some (10 * US_PER_HOUR)%Z
  | NRestart => Some (34 * US_PER_HOUR)%Z
  | NDriveToPickup _ | NSleeper | NDrive _ => None
  end.

Definition has_duration (p : period) : Prop :=
  match period_note p with
  | NDriveToPickup mi => duration_us p = timedelta_hours (mi / AVG_SPEED_MPH)
  | NDrive mi => (0 <= duration_us p <= timedelta_hours (mi / AVG_SPEED_MPH))%Z
  | NSleeper => (duration_us p <= 3 * US_PER_HOUR)%Z
  | n => fixed_duration n = Some (duration_us p)
  end.

(** The time on duty of the day includes the driving of the day. *)
Definition durations_inv (s : state) : Prop :=
  Forall has_duration (sched s) /\ driving_today s <= on_duty_today s.

(** *** Example inputs *)

(** A 1000 mile leg to the pickup, which is the dropoff as well. *)
Definition pickup_only : route_geojson := route_of [mkSegment (1609340 # 1) 65000].

(** [cross_country] with other durations. *)
Definition cross_country_slow : route_geojson :=
  route_of [mkSegment (160934 # 10) 1200; mkSegment (1931208 # 1) 100000].

Definition berlin : location := mkLocation (Some (1340 # 100)) (Some (5252 # 100)).
Definition hamburg : location := mkLocation (Some (999 # 100)) (Some (5355 # 100)).
Definition bremen : location := mkLocation (Some (880 # 100)) (Some (5308 # 100)).

(** A complete request and one without the pickup location. *)
Definition full_request : trip_data :=
  mkTripData (Some berlin) (Some hamburg) (Some bremen) (Some 3).

Definition no_pickup_request : trip_data :=
  mkTripData (Some berlin) None (Some bremen) None.

(** A routing service that answers every request with [short_trip], and
    one that is down. *)
Definition ors_short_trip : ors_service :=
  fun _ _ => PostReturned 200 "{...}" (JsonBody short_trip).

Definition ors_down : ors_service :=
  fun _ _ => PostRaised "Connection refused".

(** The results of the example inputs. *)
Definition pickup_only_result : result :=
  Eval vm_compute in result_of (compute_schedule_for_route 0 0 pickup_only 0).

(** [cross_country] with 60 hours of the cycle used: a 34 hour restart is
    period 13. *)
Definition cross_country_late_result : result :=
  Eval vm_compute in result_of (compute_schedule_for_route 40 0 cross_country 60).

Definition answer_of (r : option (response * list printed))
  : response * list printed :=
  match r with
  | Some a => a
  | None => (mkResponse (ErrorData "" None) 500, [])
  end.

Definition full_request_answer : response * list printed :=
  Eval vm_compute in
    answer_of (plan_trip 10 0 (Some "key"%string) ors_short_trip full_request).

(** ** Proof infrastructure *)

#[local] Arguments timedelta_hours : simpl never.
#[local] Arguments timedelta_minutes : simpl never.
#[local] Arguments min2 : simpl never.
#[local] Arguments min3 : simpl never.
#[local] Arguments Qplus : simpl never.
#[local] Arguments Qminus : simpl never.
#[local] Arguments Qdiv : simpl never.
#[local] Arguments Qmult : simpl never.

Lemma Qltb_true (x y : Q) : Qltb x y = true <-> x < y.
Proof.
  unfold Qltb. rewrite negb_true_iff.
  split; intro H.
  - apply Qnot_le_lt. intro C. apply Qle_bool_iff in C. congruence.
  - destruct (Qle_bool y x) eqn:E; [|reflexivity].
    apply Qle_bool_iff in E. exfalso. exact (Qlt_not_le _ _ H E).
Qed.

Lemma Qltb_false (x y : Q) : Qltb x y = false <-> y <= x.
Proof.
  unfold Qltb. rewrite negb_false_iff. apply Qle_bool_iff.
Qed.

Lemma Qle_bool_false (x y : Q) : Qle_bool x y = false <-> y < x.
Proof.
  rewrite <- Qltb_true. unfold Qltb. now rewrite negb_true_iff.
Qed.

(** The loop rule for invariants: a property kept by every iteration that
    starts with miles remaining holds when the loop is left, and then no
    miles remain. *)
Lemma while_loop_invariant (P : state -> Prop) :
  (forall s, P s -> 0 < remaining_miles s -> P (loop_body s)) ->
  forall fuel s s',
    P s -> while_loop fuel s = Some s' ->
    P s' /\ remaining_miles s' <= 0.
Proof.
  intros Hbody fuel. induction fuel as [|fuel IH]; intros s s' HP Hrun; simpl in Hrun.
  - destruct (Qltb 0 (remaining_miles s)) eqn:E; [discriminate|].
    injection Hrun as <-. split; [assumption|]. now apply Qltb_false.
  - destruct (Qltb 0 (remaining_miles s)) eqn:E.
    + apply (IH (loop_body s)); [|assumption].
      apply Hbody; [assumption|]. now apply Qltb_true.
    + injection Hrun as <-. split; [assumption|]. now apply Qltb_false.
Qed.

(** More iterations never change a result already reached. *)
Lemma while_loop_more_fuel (fuel fuel' : nat) (s s' : state) :
  (fuel <= fuel')%nat -> while_loop fuel s = Some s' -> while_loop fuel' s = Some s'.
Proof.
  revert fuel' s. induction fuel as [|fuel IH]; intros fuel' s Hle Hrun; simpl in Hrun.
  - destruct (Qltb 0 (remaining_miles s)) eqn:E; [discriminate|].
    destruct fuel'; simpl; rewrite E; assumption.
  - destruct fuel' as [|fuel']; [lia|]. simpl.
    destruct (Qltb 0 (remaining_miles s)) eqn:E; [|assumption].
    apply IH; [lia|assumption].
Qed.

(** What a returned result is made of. *)
Lemma compute_schedule_for_route_some fuel now route cycle res :
  compute_schedule_for_route fuel now route cycle = Some res ->
  (get_or_empty (features_key route) = [] /\ res = empty_result) \/
  exists feature0 rest s,
    get_or_empty (features_key route) = feature0 :: rest /\
    while_loop fuel
      (before_loop now (get_or_empty (segments_key (feature_properties feature0))) cycle)
      = Some s /\
    schedule res = sched (dropoff_and_post_trip s).
Proof.
  unfold compute_schedule_for_route.
  destruct (get_or_empty (features_key route)) as [|f0 rest].
  - intros [= <-]. left. split; reflexivity.
  - destruct (while_loop _ _) as [s|] eqn:E; [|discriminate].
    intros [= <-]. right. exists f0, rest, s.
    split; [reflexivity | split; [exact E | reflexivity]].
Qed.

(** ** The steps as equations

    Each step of the function, as the state it returns. *)

Lemma pre_trip_eq s :
  pre_trip s =
  mkState (t s + timedelta_minutes 30)
          (sched s ++ [mkPeriod "OnDutyNotDriving" (t s) (t s + timedelta_minutes 30)
                                NPreTrip (miles_driven s)])
          (miles_driven s) (driving_today s) (on_duty_today s + (1 # 2))
          (driving_since_break s) (cycle_used s + (1 # 2))
          (miles_until_fuel s) (remaining_miles s).
Proof. reflexivity. Qed.

Lemma drive_to_pickup_nil s : drive_to_pickup [] s = s.
Proof. reflexivity. Qed.

Lemma drive_to_pickup_cons seg0 rest s :
  drive_to_pickup (seg0 :: rest) s =
  mkState (t s + timedelta_hours (hours_to_pickup seg0))
          (sched s ++ [mkPeriod "Driving" (t s)
                                (t s + timedelta_hours (hours_to_pickup seg0))
                                (NDriveToPickup (first_leg_distance_mi seg0))
                                (miles_driven s)])
          (miles_driven s + first_leg_distance_mi seg0)
          (driving_today s + hours_to_pickup seg0)
          (on_duty_today s + hours_to_pickup seg0)
          (driving_since_break s + hours_to_pickup seg0)
          (cycle_used s + hours_to_pickup seg0)
          (miles_until_fuel s) (remaining_miles s).
Proof. reflexivity. Qed.

Lemma pickup_eq s :
  pickup s =
  mkState (t s + timedelta_minutes PICKUP_MIN)
          (sched s ++ [mkPeriod "OnDutyNotDriving" (t s)
                                (t s + timedelta_minutes PICKUP_MIN)
                                NPickup (miles_driven s)])
          (miles_driven s) (driving_today s)
          (on_duty_today s + inject_Z PICKUP_MIN / 60)
          (driving_since_break s)
          (cycle_used s + inject_Z PICKUP_MIN / 60)
          (miles_until_fuel s) (remaining_miles s).
Proof. reflexivity. Qed.

Lemma mandatory_break_eq s :
  mandatory_break s =
  mkState (t s + timedelta_minutes 30)
          (sched s ++ [mkPeriod "OffDuty" (t s) (t s + timedelta_minutes 30)
                                NBreak (miles_driven s)])
          (miles_driven s) (driving_today s) (on_duty_today s) 0
          (cycle_used s) (miles_until_fuel s) (remaining_miles s).
Proof. reflexivity. Qed.

Lemma daily_limit_eq s :
  daily_limit s =
  if Qltb 50 (remaining_miles s) then
    if Qltb 100 (remaining_miles s) then
      mkState (t s + timedelta_hours (sleeper_hours s)
               + timedelta_hours (min2 3 OFF_DUTY_RESET_HRS))
              ((sched s ++ [mkPeriod "Sleeper" (t s)
                                     (t s + timedelta_hours (sleeper_hours s))
                                     NSleeper (miles_driven s)])
                 ++ [mkPeriod "OffDuty" (t s + timedelta_hours (sleeper_hours s))
                              (t s + timedelta_hours (sleeper_hours s)
                               + timedelta_hours (min2 3 OFF_DUTY_RESET_HRS))
                              NSplitCompletion (miles_driven s)])
              (miles_driven s) 0 0 0
              (cycle_used s + sleeper_hours s + min2 3 OFF_DUTY_RESET_HRS)
              (miles_until_fuel s) (remaining_miles s)
    else
      mkState (t s + timedelta_hours (sleeper_hours s))
              (sched s ++ [mkPeriod "Sleeper" (t s)
                                    (t s + timedelta_hours (sleeper_hours s))
                                    NSleeper (miles_driven s)])
              (miles_driven s) 0 0 0
              (cycle_used s + sleeper_hours s)
              (miles_until_fuel s) (remaining_miles s)
  else
    mkState (t s + timedelta_hours OFF_DUTY_RESET_HRS)
            (sched s ++ [mkPeriod "OffDuty" (t s)
                                  (t s + timedelta_hours OFF_DUTY_RESET_HRS)
                                  NDailyReset (miles_driven s)])
            (miles_driven s) 0 0 0
            (cycle_used s + OFF_DUTY_RESET_HRS)
            (miles_until_fuel s) (remaining_miles s).
Proof.
  unfold daily_limit.
  destruct (Qltb 50 (remaining_miles s)); [|reflexivity].
  cbv zeta.
  change (remaining_miles
            (set_cycle_used _ (reset_daily (set_t _ (append _ _ _ _ s)))))
    with (remaining_miles s).
  destruct (Qltb 100 (remaining_miles s)); reflexivity.
Qed.

Lemma cycle_restart_eq s :
  cycle_restart s =
  mkState (t s + timedelta_hours RESTART_OFF_DUTY_HRS)
          (sched s ++ [mkPeriod "OffDuty" (t s)
                                (t s + timedelta_hours RESTART_OFF_DUTY_HRS)
                                NRestart (miles_driven s)])
          (miles_driven s) (driving_today s) (on_duty_today s)
          (driving_since_break s) 0 (miles_until_fuel s) (remaining_miles s).
Proof. reflexivity. Qed.

Lemma driving_leg_eq s :
  driving_leg s =
  mkState (t s + timedelta_hours (hours_this_leg s))
          (sched s ++ [mkPeriod "Driving" (t s)
                                (t s + timedelta_hours (hours_this_leg s))
                                (NDrive (miles_this_leg s)) (miles_driven s)])
          (miles_driven s + miles_this_leg s)
          (driving_today s + hours_this_leg s)
          (on_duty_today s + hours_this_leg s)
          (driving_since_break s + hours_this_leg s)
          (cycle_used s + hours_this_leg s)
          (miles_until_fuel s - miles_this_leg s)
          (remaining_miles s - miles_this_leg s).
Proof. reflexivity. Qed.

Lemma fuel_check_eq s :
  fuel_check s =
  if Qle_bool (miles_until_fuel s) 0 && Qltb 0 (remaining_miles s) then
    mkState (t s + timedelta_minutes FUEL_STOP_MIN)
            (sched s ++ [mkPeriod "OnDutyNotDriving" (t s)
                                  (t s + timedelta_minutes FUEL_STOP_MIN)
                                  NFuelStop (miles_driven s)])
            (miles_driven s) (driving_today s)
            (on_duty_today s + inject_Z FUEL_STOP_MIN / 60)
            (driving_since_break s)
            (cycle_used s + inject_Z FUEL_STOP_MIN / 60)
            FUEL_RANGE_MILES (remaining_miles s)
  else s.
Proof. unfold fuel_check. destruct (_ && _); reflexivity. Qed.

Lemma dropoff_and_post_trip_eq s :
  dropoff_and_post_trip s =
  mkState (t s + timedelta_minutes DROPOFF_MIN)
          ((sched s ++ [mkPeriod "OnDutyNotDriving" (t s)
                                 (t s + timedelta_minutes DROPOFF_MIN)
                                 NUnload (miles_driven s)])
             ++ [mkPeriod "OffDuty" (t s + timedelta_minutes DROPOFF_MIN)
                          (t s + timedelta_minutes DROPOFF_MIN
                           + timedelta_hours OFF_DUTY_RESET_HRS)
                          NPostTripRest (miles_driven s)])
          (miles_driven s) (driving_today s) (on_duty_today s)
          (driving_since_break s) (cycle_used s) (miles_until_fuel s)
          (remaining_miles s).
Proof. reflexivity. Qed.

Lemma set_remaining_miles_eq v s :
  set_remaining_miles v s =
  mkState (t s) (sched s) (miles_driven s) (driving_today s) (on_duty_today s)
          (driving_since_break s) (cycle_used s) (miles_until_fuel s) v.
Proof. reflexivity. Qed.

Lemma loop_body_eq s :
  loop_body s =
  match rule_of s with
  | RBreak => mandatory_break s
  | RDaily => daily_limit s
  | RCycle => cycle_restart s
  | RDrive => fuel_check (driving_leg s)
  end.
Proof. reflexivity. Qed.

Lemma before_loop_eq now segments cycle :
  before_loop now segments cycle =
  set_remaining_miles (sum_of distance (tl segments) / METERS_PER_MILE)
    (pickup (drive_to_pickup segments (pre_trip (initial_state now cycle)))).
Proof. reflexivity. Qed.

#[local] Arguments pre_trip : simpl never.
#[local] Arguments drive_to_pickup : simpl never.
#[local] Arguments pickup : simpl never.
#[local] Arguments mandatory_break : simpl never.
#[local] Arguments daily_limit : simpl never.
#[local] Arguments cycle_restart : simpl never.
#[local] Arguments fuel_check : simpl never.
#[local] Arguments driving_leg : simpl never.
#[local] Arguments loop_body : simpl never.
#[local] Arguments dropoff_and_post_trip : simpl never.
#[local] Arguments before_loop : simpl never.
#[local] Arguments set_remaining_miles : simpl never.
#[local] Arguments sleeper_hours : simpl never.
#[local] Arguments miles_this_leg : simpl never.
#[local] Arguments hours_this_leg : simpl never.
#[local] Arguments hours_to_pickup : simpl never.
#[local] Arguments first_leg_distance_mi : simpl never.

(** An invariant of the whole run: it holds before the loop, every step
    keeps it, so it holds of the state whose schedule is returned. *)
Lemma run_invariant (P : state -> Prop) now segments cycle fuel s :
  P (initial_state now cycle) ->
  (forall s, P s -> P (pre_trip s)) ->
  (forall s, P s -> P (drive_to_pickup segments s)) ->
  (forall s, P s -> P (pickup s)) ->
  (forall v s, P s -> P (set_remaining_miles v s)) ->
  (forall s, P s -> 0 < remaining_miles s -> P (loop_body s)) ->
  while_loop fuel (before_loop now segments cycle) = Some s ->
  P s /\ remaining_miles s <= 0.
Proof.
  intros H0 H1 H2 H3 H4 H5 Hrun.
  apply (while_loop_invariant P H5 _ _ _ (H4 _ _ (H3 _ (H2 _ (H1 _ H0)))) Hrun).
Qed.

(** ** Rounding to microseconds *)

(** The three cases of [round_half_even], as facts about the fraction. *)
Lemma round_half_even_cases (q : Q) :
  let f := Qfloor q in
  (q - inject_Z f < 1 # 2 /\ round_half_even q = f) \/
  (q - inject_Z f == 1 # 2 /\ (round_half_even q = f \/ round_half_even q = (f + 1)%Z)) \/
  (1 # 2 < q - inject_Z f /\ round_half_even q = (f + 1)%Z).
Proof.
  intro f. unfold round_half_even. fold f.
  destruct (Qcompare (q - inject_Z f) (1 # 2)) eqn:E.
  - right; left. split; [now apply Qeq_alt|].
    destruct (Z.even f); [left|right]; reflexivity.
  - left. split; [now apply Qlt_alt|reflexivity].
  - right; right. split; [now apply Qgt_alt in E|reflexivity].
Qed.

Lemma round_half_even_comp (q q' : Q) :
  q == q' -> round_half_even q = round_half_even q'.
Proof.
  intro H. unfold round_half_even.
  rewrite (Qfloor_comp _ _ H).
  assert (E : q - inject_Z (Qfloor q') == q' - inject_Z (Qfloor q'))
    by (rewrite H; reflexivity).
  now rewrite (Qcompare_comp _ _ E (1 # 2) (1 # 2) (Qeq_refl _)).
Qed.

Lemma round_half_even_Z (n : Z) : round_half_even (inject_Z n) = n.
Proof.
  destruct (round_half_even_cases (inject_Z n)) as [[_ H]|[[H _]|[H _]]];
    rewrite Qfloor_Z in *; [assumption| |]; exfalso; lra.
Qed.

Lemma round_half_even_mono (q1 q2 : Q) :
  q1 <= q2 -> (round_half_even q1 <= round_half_even q2)%Z.
Proof.
  intro Hle.
  pose proof (Qfloor_resp_le _ _ Hle) as Hf.
  pose proof (Qfloor_le q2) as Hlo2. pose proof (Qlt_floor q1) as Hhi1.
  destruct (Z.eq_dec (Qfloor q1) (Qfloor q2)) as [E|NE].
  - destruct (round_half_even_cases q1) as [[F1 H1]|[[F1 H1]|[F1 H1]]];
      destruct (round_half_even_cases q2) as [[F2 H2]|[[F2 H2]|[F2 H2]]];
      rewrite E in *.
    + lia.
    + destruct H2; lia.
    + lia.
    + exfalso; lra.
    + unfold round_half_even. rewrite E.
      assert (Q12 : q1 - inject_Z (Qfloor q2) == q2 - inject_Z (Qfloor q2))
        by (rewrite F1, F2; reflexivity).
      rewrite (Qcompare_comp _ _ Q12 (1 # 2) (1 # 2) (Qeq_refl _)). lia.
    + destruct H1; lia.
    + exfalso; lra.
    + exfalso; lra.
    + lia.
  - assert (Hlt : (Qfloor q1 + 1 <= Qfloor q2)%Z) by lia.
    destruct (round_half_even_cases q1) as [[_ H1]|[[_ [H1|H1]]|[_ H1]]];
      destruct (round_half_even_cases q2) as [[_ H2]|[[_ [H2|H2]]|[_ H2]]];
      rewrite H1, H2; lia.
Qed.

Lemma round_half_even_pos (q : Q) : 1 <= q -> (0 < round_half_even q)%Z.
Proof.
  intro H. pose proof (round_half_even_mono _ _ H) as M.
  change 1 with (inject_Z 1) in M. rewrite round_half_even_Z in M. lia.
Qed.

Lemma round_half_even_nonneg (q : Q) : 0 <= q -> (0 <= round_half_even q)%Z.
Proof.
  intro H. pose proof (round_half_even_mono _ _ H) as M.
  change 0 with (inject_Z 0) in M. now rewrite round_half_even_Z in M.
Qed.

Lemma timedelta_hours_comp (h h' : Q) :
  h == h' -> timedelta_hours h = timedelta_hours h'.
Proof.
  intro H. unfold timedelta_hours. apply round_half_even_comp. now rewrite H.
Qed.

Lemma timedelta_hours_mono (h h' : Q) :
  h <= h' -> (timedelta_hours h <= timedelta_hours h')%Z.
Proof.
  intro H. unfold timedelta_hours. apply round_half_even_mono.
  apply Qmult_le_compat_r; [assumption|discriminate].
Qed.

Lemma timedelta_hours_Z (n : Z) :
  timedelta_hours (inject_Z n) = (n * US_PER_HOUR)%Z.
Proof.
  unfold timedelta_hours. rewrite <- inject_Z_mult. apply round_half_even_Z.
Qed.

Lemma timedelta_hours_one (h : Q) : h == 1 -> timedelta_hours h = US_PER_HOUR.
Proof.
  intro H. rewrite (timedelta_hours_comp _ _ H).
  change 1 with (inject_Z 1). rewrite timedelta_hours_Z. reflexivity.
Qed.

(** A duration of at least one microsecond is not rounded away. *)
Lemma timedelta_hours_pos (h : Q) :
  1 <= h * inject_Z US_PER_HOUR -> (0 < timedelta_hours h)%Z.
Proof. apply round_half_even_pos. Qed.

Lemma timedelta_hours_nonneg (h : Q) : 0 <= h -> (0 <= timedelta_hours h)%Z.
Proof.
  intro H. apply round_half_even_nonneg.
  apply Qmult_le_0_compat; [assumption|discriminate].
Qed.

(** ** [min] *)

Lemma min2_spec (a b : Q) :
  (b < a /\ min2 a b = b) \/ (a <= b /\ min2 a b = a).
Proof.
  unfold min2. destruct (Qltb b a) eqn:E.
  - left. split; [now apply Qltb_true|reflexivity].
  - right. split; [now apply Qltb_false|reflexivity].
Qed.

Lemma min2_le_l (a b : Q) : min2 a b <= a.
Proof. destruct (min2_spec a b) as [[H ->]|[H ->]]; lra. Qed.

Lemma min2_le_r (a b : Q) : min2 a b <= b.
Proof. destruct (min2_spec a b) as [[H ->]|[H ->]]; lra. Qed.

Lemma min2_pos (a b : Q) : 0 < a -> 0 < b -> 0 < min2 a b.
Proof. intros. destruct (min2_spec a b) as [[H1 ->]|[H1 ->]]; assumption. Qed.

Lemma min3_spec (a b c : Q) :
  (min3 a b c = a /\ a <= b /\ a <= c) \/
  (min3 a b c = b /\ b < a /\ b <= c) \/
  (min3 a b c = c /\ c < a /\ c < b).
Proof.
  unfold min3.
  destruct (min2_spec a b) as [[H1 E1]|[H1 E1]]; rewrite E1;
    destruct (min2_spec a c) as [[H2 E2]|[H2 E2]];
    destruct (min2_spec b c) as [[H3 E3]|[H3 E3]];
    try rewrite E2; try rewrite E3; try (left; split; [reflexivity|lra]);
    try (right; left; split; [reflexivity|lra]);
    try (right; right; split; [reflexivity|lra]); exfalso; lra.
Qed.

(** ** No gaps, no overlaps *)

Lemma chain_adjacent a l b :
  chain a l b ->
  forall i p q, nth_error l i = Some p -> nth_error l (S i) = Some q ->
                end_ p = start q.
Proof.
  induction 1 as [|l b p Hc IH Hs]; intros i p0 q Hp Hq.
  - destruct i; discriminate.
  - assert (Hlen : (S i < List.length (l ++ [p]))%nat)
      by (apply nth_error_Some; congruence).
    rewrite length_app in Hlen. simpl in Hlen.
    destruct (Nat.eq_dec (S i) (List.length l)) as [E|NE].
    + rewrite nth_error_app1 in Hp by lia.
      rewrite nth_error_app2 in Hq by lia.
      rewrite E, Nat.sub_diag in Hq. simpl in Hq. injection Hq as <-.
      rewrite Hs. clear IH.
      inversion Hc as [Hl|l0 b0 p1 Hc0 Hs0 Hl]; subst.
      * discriminate.
      * rewrite length_app in E. simpl in E.
        rewrite nth_error_app2 in Hp by lia.
        replace (i - List.length l0)%nat with 0%nat in Hp by lia.
        simpl in Hp. now injection Hp as <-.
    + rewrite nth_error_app1 in Hp by lia.
      rewrite nth_error_app1 in Hq by lia.
      exact (IH _ _ _ Hp Hq).
Qed.

(** Emitting a period that starts at the current time and moving the
    clock to its end keeps the schedule chained. *)
Ltac chain_tac :=
  repeat (first [eassumption | eapply chain_snoc; [|reflexivity]]).

Lemma chained_pre_trip now s : chained now s -> chained now (pre_trip s).
Proof. unfold chained. intro H. rewrite pre_trip_eq. simpl. chain_tac. Qed.

Lemma chained_drive_to_pickup now segments s :
  chained now s -> chained now (drive_to_pickup segments s).
Proof.
  unfold chained. intro H. destruct segments as [|seg0 rest].
  - now rewrite drive_to_pickup_nil.
  - rewrite drive_to_pickup_cons. simpl. chain_tac.
Qed.

Lemma chained_pickup now s : chained now s -> chained now (pickup s).
Proof. unfold chained. intro H. rewrite pickup_eq. simpl. chain_tac. Qed.

Lemma chained_set_remaining_miles now v s :
  chained now s -> chained now (set_remaining_miles v s).
Proof. unfold chained. intro H. rewrite set_remaining_miles_eq. exact H. Qed.

Lemma chained_fuel_check now s : chained now s -> chained now (fuel_check s).
Proof.
  unfold chained. intro H. rewrite fuel_check_eq.
  destruct (_ && _); simpl; chain_tac.
Qed.

Lemma chained_loop_body now s : chained now s -> chained now (loop_body s).
Proof.
  intro H. rewrite loop_body_eq. destruct (rule_of s).
  - unfold chained in *. rewrite mandatory_break_eq. simpl. chain_tac.
  - unfold chained in *. rewrite daily_limit_eq.
    destruct (Qltb 50 (remaining_miles s));
      [destruct (Qltb 100 (remaining_miles s))|]; simpl; chain_tac.
  - unfold chained in *. rewrite cycle_restart_eq. simpl. chain_tac.
  - apply chained_fuel_check.
    unfold chained in *. rewrite driving_leg_eq. simpl. chain_tac.
Qed.

Lemma chained_dropoff now s :
  chained now s ->
  exists b, chain now (sched (dropoff_and_post_trip s)) b.
Proof.
  unfold chained. intro H. rewrite dropoff_and_post_trip_eq. simpl.
  eexists. chain_tac.
Qed.

(** C1.  Whenever [compute_schedule_for_route] returns, every two adjacent
    periods of the schedule meet: the end of the first is the start of the
    second, so the schedule has no gap and no overlap. *)
Theorem no_gap_no_overlap fuel now route cycle res :
  compute_schedule_for_route fuel now route cycle = Some res ->
  forall i p q,
    nth_error (schedule res) i = Some p ->
    nth_error (schedule res) (S i) = Some q ->
    end_ p = start q.
Proof.
  intros Hres i p q Hp Hq.
  destruct (compute_schedule_for_route_some _ _ _ _ _ Hres)
    as [[_ ->]|(f0 & rest & s & _ & Hloop & Hs)].
  - destruct i; discriminate.
  - rewrite Hs in Hp, Hq.
    destruct (run_invariant (chained now) _ _ _ _ _
                (chain_nil now)
                (chained_pre_trip now)
                (chained_drive_to_pickup now _)
                (chained_pickup now)
                (chained_set_remaining_miles now)
                (fun s H _ => chained_loop_body now s H) Hloop) as [Hc _].
    destruct (chained_dropoff now s Hc) as [b Hb].
    exact (chain_adjacent _ _ _ Hb i p q Hp Hq).
Qed.

(** ** The rules of the loop *)

Lemma rule_of_spec (s : state) :
  match rule_of s with
  | RBreak => BREAK_AFTER_HRS <= driving_since_break s
  | RDaily => driving_since_break s < BREAK_AFTER_HRS /\
              (MAX_DRIVE_HRS <= driving_today s \/ MAX_ON_DUTY_HRS <= on_duty_today s)
  | RCycle => driving_since_break s < BREAK_AFTER_HRS /\
              driving_today s < MAX_DRIVE_HRS /\
              on_duty_today s < MAX_ON_DUTY_HRS /\
              CYCLE_LIMIT_HRS <= cycle_used s
  | RDrive => driving_since_break s < BREAK_AFTER_HRS /\
              driving_today s < MAX_DRIVE_HRS /\
              on_duty_today s < MAX_ON_DUTY_HRS /\
              cycle_used s < CYCLE_LIMIT_HRS
  end.
Proof.
  unfold rule_of.
  destruct (Qle_bool BREAK_AFTER_HRS (driving_since_break s)) eqn:E1.
  { now apply Qle_bool_iff. }
  apply Qle_bool_false in E1.
  destruct (Qle_bool MAX_DRIVE_HRS (driving_today s)) eqn:E2.
  { simpl. split; [assumption|]. left. now apply Qle_bool_iff. }
  apply Qle_bool_false in E2.
  destruct (Qle_bool MAX_ON_DUTY_HRS (on_duty_today s)) eqn:E3.
  { simpl. split; [assumption|]. right. now apply Qle_bool_iff. }
  apply Qle_bool_false in E3. simpl.
  destruct (Qle_bool CYCLE_LIMIT_HRS (cycle_used s)) eqn:E4.
  { repeat split; try assumption. now apply Qle_bool_iff. }
  apply Qle_bool_false in E4. repeat split; assumption.
Qed.

Lemma rule_of_drive_intro (s : state) :
  driving_since_break s < BREAK_AFTER_HRS ->
  driving_today s < MAX_DRIVE_HRS ->
  on_duty_today s < MAX_ON_DUTY_HRS ->
  cycle_used s < CYCLE_LIMIT_HRS ->
  rule_of s = RDrive.
Proof.
  intros H1 H2 H3 H4. pose proof (rule_of_spec s) as R.
  destruct (rule_of s); [| | |reflexivity]; exfalso.
  - lra.
  - destruct R as [_ [R|R]]; lra.
  - lra.
Qed.

(** The fields a step leaves alone or sets. *)
Lemma remaining_fuel_check s : remaining_miles (fuel_check s) = remaining_miles s.
Proof. rewrite fuel_check_eq. destruct (_ && _); reflexivity. Qed.

Lemma remaining_driving_leg s :
  remaining_miles (driving_leg s) =
  remaining_miles s - min2 (remaining_miles s) AVG_SPEED_MPH.
Proof. rewrite driving_leg_eq. reflexivity. Qed.

Lemma remaining_mandatory_break s :
  remaining_miles (mandatory_break s) = remaining_miles s.
Proof. rewrite mandatory_break_eq. reflexivity. Qed.

Lemma remaining_daily_limit s : remaining_miles (daily_limit s) = remaining_miles s.
Proof.
  rewrite daily_limit_eq.
  destruct (Qltb 50 (remaining_miles s));
    [destruct (Qltb 100 (remaining_miles s))|]; reflexivity.
Qed.

Lemma remaining_cycle_restart s : remaining_miles (cycle_restart s) = remaining_miles s.
Proof. rewrite cycle_restart_eq. reflexivity. Qed.

Lemma counters_daily_limit s :
  driving_today (daily_limit s) = 0 /\
  on_duty_today (daily_limit s) = 0 /\
  driving_since_break (daily_limit s) = 0.
Proof.
  rewrite daily_limit_eq.
  destruct (Qltb 50 (remaining_miles s));
    [destruct (Qltb 100 (remaining_miles s))|]; repeat split.
Qed.

(** ** Termination *)

Lemma legs_left_pos s : 0 < remaining_miles s -> (0 < legs_left s)%nat.
Proof.
  intro H. unfold legs_left, AVG_SPEED_MPH.
  pose proof (Qle_ceiling (remaining_miles s / 55)) as C.
  assert (P : 0 < remaining_miles s / 55)
    by (apply Qlt_shift_div_l; [reflexivity|lra]).
  assert (Z0 : (0 < Qceiling (remaining_miles s / 55))%Z).
  { apply Qlt_not_le in P. apply Z.nle_gt. intro L. apply P.
    eapply Qle_trans; [exact C|]. change 0 with (inject_Z 0).
    now rewrite <- Zle_Qle. }
  lia.
Qed.

Lemma legs_left_driving_leg s :
  0 < remaining_miles s ->
  (legs_left (fuel_check (driving_leg s)) < legs_left s)%nat.
Proof.
  intro H. pose proof (legs_left_pos s H) as P.
  unfold legs_left in *. rewrite remaining_fuel_check, remaining_driving_leg.
  set (r := remaining_miles s) in *.
  unfold AVG_SPEED_MPH in *.
  destruct (min2_spec r 55) as [[Hlt ->]|[Hle ->]].
  - pose proof (Qceiling_lt ((r - 55) / 55)) as A.
    pose proof (Qle_ceiling (r / 55)) as B.
    assert (E : (r - 55) / 55 == r / 55 - 1) by (field).
    assert (L : inject_Z (Qceiling ((r - 55) / 55) - 1) < inject_Z (Qceiling (r / 55) - 1)).
    { eapply Qlt_le_trans; [exact A|]. rewrite E.
      unfold Z.sub. rewrite inject_Z_plus.
      change (inject_Z (- (1))) with (- (1)).
      generalize dependent (inject_Z (Qceiling (r / 55))).
      generalize (r / 55). intros; lra. }
    rewrite <- Zlt_Qlt in L. lia.
  - assert (E : (r - r) / 55 == inject_Z 0) by (field).
    rewrite (Qceiling_comp _ _ E), Qceiling_Z. simpl. exact P.
Qed.

Lemma loop_step fuel s :
  0 < remaining_miles s -> while_loop (S fuel) s = while_loop fuel (loop_body s).
Proof. intro H. simpl. apply Qltb_true in H. now rewrite H. Qed.

Lemma loop_done fuel s : remaining_miles s <= 0 -> while_loop fuel s = Some s.
Proof. intro H. apply Qltb_false in H. destruct fuel; simpl; now rewrite H. Qed.

Lemma drives_within_now s : rule_of s = RDrive -> drives_within 0 s.
Proof. intro R. exists 0%nat, s. repeat split; [lia|assumption]. Qed.

Lemma drives_within_step k s :
  0 < remaining_miles s ->
  remaining_miles (loop_body s) = remaining_miles s ->
  drives_within k (loop_body s) -> drives_within (S k) s.
Proof.
  intros Hpos Hrem (j & sd & Hj & Hrun & Hrule & Hsd).
  exists (S j), sd. repeat split; [lia| |assumption|congruence].
  intro fuel. simpl plus. rewrite loop_step by assumption. apply Hrun.
Qed.

Lemma drives_within_weaken k k' s :
  (k <= k')%nat -> drives_within k s -> drives_within k' s.
Proof.
  intros Hle (j & sd & Hj & H). exists j, sd. split; [lia|exact H].
Qed.

(** After the 34 hour restart the next iteration drives. *)
Lemma drives_after_cycle s :
  0 < remaining_miles s -> rule_of s = RCycle -> drives_within 1 s.
Proof.
  intros Hpos R. pose proof (rule_of_spec s) as Sp. rewrite R in Sp.
  destruct Sp as (H1 & H2 & H3 & _).
  apply drives_within_step; [assumption|rewrite loop_body_eq; now rewrite R|].
  apply drives_within_now. rewrite loop_body_eq, R, cycle_restart_eq.
  apply rule_of_drive_intro; try assumption. reflexivity.
Qed.

(** After the daily rest the loop drives at once or after a restart. *)
Lemma drives_after_daily s :
  0 < remaining_miles s -> rule_of s = RDaily -> drives_within 2 s.
Proof.
  intros Hpos R.
  assert (Hb : loop_body s = daily_limit s) by (rewrite loop_body_eq; now rewrite R).
  destruct (counters_daily_limit s) as (D1 & D2 & D3).
  pose proof (remaining_daily_limit s) as Hrem.
  apply drives_within_step; [assumption|now rewrite Hb|].
  rewrite Hb.
  pose proof (rule_of_spec (daily_limit s)) as Sp.
  destruct (rule_of (daily_limit s)) eqn:R'.
  - exfalso. rewrite D3 in Sp. unfold BREAK_AFTER_HRS in Sp. lra.
  - exfalso. rewrite D1, D2 in Sp.
    unfold MAX_DRIVE_HRS, MAX_ON_DUTY_HRS in Sp. destruct Sp as [_ [Sp|Sp]]; lra.
  - apply drives_after_cycle; [now rewrite Hrem|assumption].
  - apply (drives_within_weaken 0); [lia|]. now apply drives_within_now.
Qed.

(** At most three iterations separate a state from a driving leg. *)
Lemma drives_within_three s : 0 < remaining_miles s -> drives_within 3 s.
Proof.
  intro Hpos. destruct (rule_of s) eqn:R.
  - assert (Hb : loop_body s = mandatory_break s) by (rewrite loop_body_eq; now rewrite R).
    apply drives_within_step; [assumption|now rewrite Hb|].
    rewrite Hb.
    pose proof (rule_of_spec (mandatory_break s)) as Sp.
    destruct (rule_of (mandatory_break s)) eqn:R'.
    + exfalso. rewrite mandatory_break_eq in Sp. simpl in Sp.
      unfold BREAK_AFTER_HRS in Sp. lra.
    + now apply drives_after_daily.
    + apply (drives_within_weaken 1); [lia|]. now apply drives_after_cycle.
    + apply (drives_within_weaken 0); [lia|]. now apply drives_within_now.
  - apply (drives_within_weaken 2); [lia|]. now apply drives_after_daily.
  - apply (drives_within_weaken 1); [lia|]. now apply drives_after_cycle.
  - apply (drives_within_weaken 0); [lia|]. now apply drives_within_now.
Qed.

Lemma legs_left_eq s1 s2 :
  remaining_miles s1 = remaining_miles s2 -> legs_left s1 = legs_left s2.
Proof. unfold legs_left. now intros ->. Qed.

(** With miles remaining, at most four iterations bring one leg less. *)
Lemma one_leg_less s :
  0 < remaining_miles s ->
  exists j s1,
    (j <= 4)%nat /\
    (forall fuel, while_loop (j + fuel) s = while_loop fuel s1) /\
    (legs_left s1 < legs_left s)%nat.
Proof.
  intro Hpos.
  destruct (drives_within_three s Hpos) as (j & sd & Hj & Hrun & Hrule & Hsd).
  assert (Hposd : 0 < remaining_miles sd) by (now rewrite Hsd).
  exists (S j), (fuel_check (driving_leg sd)). split; [lia|]. split.
  - intro fuel. replace (S j + fuel)%nat with (j + S fuel)%nat by lia.
    rewrite Hrun, loop_step by assumption.
    rewrite loop_body_eq. now rewrite Hrule.
  - rewrite <- (legs_left_eq _ _ Hsd). now apply legs_left_driving_leg.
Qed.

(** Four iterations for each leg are enough. *)
Lemma while_loop_terminates_from (n : nat) :
  forall s, (legs_left s <= n)%nat -> exists s', while_loop (4 * n) s = Some s'.
Proof.
  induction n as [|n IH]; intros s Hn.
  - exists s. apply loop_done.
    apply Qnot_lt_le. intro Hpos. pose proof (legs_left_pos s Hpos). lia.
  - destruct (Qlt_le_dec 0 (remaining_miles s)) as [Hpos|Hle].
    + destruct (one_leg_less s Hpos) as (j & s1 & Hj & Hrun & Hlegs).
      destruct (IH s1 ltac:(lia)) as [s' Hs'].
      exists s'.
      apply (while_loop_more_fuel (j + 4 * n)); [lia|].
      now rewrite Hrun.
    + exists s. now apply loop_done.
Qed.

(** The loop is left from every state. *)
Lemma while_loop_terminates (s : state) :
  exists s', while_loop (4 * legs_left s) s = Some s'.
Proof. apply while_loop_terminates_from. lia. Qed.

(** The function returns on every input. *)
Lemma compute_schedule_for_route_returns now route cycle :
  exists fuel res, compute_schedule_for_route fuel now route cycle = Some res.
Proof.
  unfold compute_schedule_for_route.
  destruct (get_or_empty (features_key route)) as [|f0 rest].
  - exists 0%nat, empty_result. reflexivity.
  - set (s0 := before_loop _ _ _).
    destruct (while_loop_terminates s0) as [s' Hs'].
    exists (4 * legs_left s0)%nat. rewrite Hs'. eexists. reflexivity.
Qed.

(** ** Status tags *)

Lemma status_of_note_tag (n : note) : In (status_of_note n) status_tags.
Proof. destruct n; simpl; tauto. Qed.

Ltac snoc_forall :=
  repeat (apply Forall_app; split);
  [ assumption | repeat constructor .. ].

Lemma tagged_pre_trip s :
  Forall well_tagged (sched s) -> Forall well_tagged (sched (pre_trip s)).
Proof. intro H. rewrite pre_trip_eq. simpl. snoc_forall. Qed.

Lemma tagged_drive_to_pickup segments s :
  Forall well_tagged (sched s) ->
  Forall well_tagged (sched (drive_to_pickup segments s)).
Proof.
  intro H. destruct segments as [|seg0 rest].
  - now rewrite drive_to_pickup_nil.
  - rewrite drive_to_pickup_cons. simpl. snoc_forall.
Qed.

Lemma tagged_pickup s :
  Forall well_tagged (sched s) -> Forall well_tagged (sched (pickup s)).
Proof. intro H. rewrite pickup_eq. simpl. snoc_forall. Qed.

Lemma tagged_fuel_check s :
  Forall well_tagged (sched s) -> Forall well_tagged (sched (fuel_check s)).
Proof.
  intro H. rewrite fuel_check_eq. destruct (_ && _); simpl; [|assumption].
  snoc_forall.
Qed.

Lemma tagged_loop_body s :
  Forall well_tagged (sched s) -> Forall well_tagged (sched (loop_body s)).
Proof.
  intro H. rewrite loop_body_eq. destruct (rule_of s).
  - rewrite mandatory_break_eq. simpl. snoc_forall.
  - rewrite daily_limit_eq.
    destruct (Qltb 50 (remaining_miles s));
      [destruct (Qltb 100 (remaining_miles s))|]; simpl; snoc_forall.
  - rewrite cycle_restart_eq. simpl. snoc_forall.
  - apply tagged_fuel_check. rewrite driving_leg_eq. simpl. snoc_forall.
Qed.

Lemma tagged_dropoff s :
  Forall well_tagged (sched s) ->
  Forall well_tagged (sched (dropoff_and_post_trip s)).
Proof. intro H. rewrite dropoff_and_post_trip_eq. simpl. snoc_forall. Qed.

(** Every period of a returned schedule carries the tag of its note. *)
Lemma schedule_well_tagged fuel now route cycle res :
  compute_schedule_for_route fuel now route cycle = Some res ->
  Forall well_tagged (schedule res).
Proof.
  intro Hres.
  destruct (compute_schedule_for_route_some _ _ _ _ _ Hres)
    as [[_ ->]|(f0 & rest & s & _ & Hloop & ->)].
  - constructor.
  - apply tagged_dropoff.
    exact (proj1 (run_invariant (fun s => Forall well_tagged (sched s)) _ _ _ _ _
                    (Forall_nil _) tagged_pre_trip (tagged_drive_to_pickup _)
                    tagged_pickup (fun _ _ H => H)
                    (fun s H _ => tagged_loop_body s H) Hloop)).
Qed.

(** C6, as the code has it.  Every period of a returned schedule carries
    one of the four tags Driving, OnDutyNotDriving, OffDuty and Sleeper;
    the split-rest period, emitted when the daily limit is reached with
    more than 50 miles remaining, is the first period of that iteration
    and has the tag Sleeper, as has every period with the split-rest note;
    and all four tags occur in the schedule of [long_trip]. *)
Theorem status_tags_of_schedule :
  (forall fuel now route cycle res,
      compute_schedule_for_route fuel now route cycle = Some res ->
      forall p, In p (schedule res) ->
                In (status p) status_tags /\
                (period_note p = NSleeper -> status p = "Sleeper"%string)) /\
  (forall s, rule_of s = RDaily -> 50 < remaining_miles s ->
             exists p,
               nth_error (sched (loop_body s)) (List.length (sched s)) = Some p /\
               period_note p = NSleeper /\ status p = "Sleeper"%string) /\
  (exists res,
      compute_schedule_for_route 20 0 long_trip 0 = Some res /\
      forall tag, In tag status_tags ->
                  exists p, In p (schedule res) /\ status p = tag).
Proof.
  split; [|split].
  - intros fuel now route cycle res Hres p Hin.
    pose proof (schedule_well_tagged _ _ _ _ _ Hres) as T.
    rewrite Forall_forall in T. specialize (T p Hin). unfold well_tagged in T.
    split.
    + rewrite T. apply status_of_note_tag.
    + intro N. now rewrite T, N.
  - intros s R Hrem. rewrite loop_body_eq, R, daily_limit_eq.
    apply Qltb_true in Hrem. rewrite Hrem.
    exists (mkPeriod "Sleeper" (t s) (t s + timedelta_hours (sleeper_hours s))
                     NSleeper (miles_driven s)).
    split; [|split; reflexivity].
    destruct (Qltb 100 (remaining_miles s)); simpl;
      repeat rewrite <- app_assoc;
      rewrite nth_error_app2, Nat.sub_diag by apply Nat.le_refl; reflexivity.
  - eexists. split; [vm_compute; reflexivity|].
    intros tag [<-|[<-|[<-|[<-|[]]]]].
    + eexists; split; [eapply (nth_error_In _ 1); reflexivity|reflexivity].
    + eexists; split; [eapply (nth_error_In _ 0); reflexivity|reflexivity].
    + eexists; split; [eapply (nth_error_In _ 11); reflexivity|reflexivity].
    + eexists; split; [eapply (nth_error_In _ 15); reflexivity|reflexivity].
Qed.

(** C6, as stated, fails: the schedule of [long_trip] has a period whose
    tag is none of Driving, OnDutyNotDriving, OffDuty, SleeperBerth; it is
    the split-rest period, tagged Sleeper. *)
Lemma sleeper_tag_counterexample :
  exists res p,
    compute_schedule_for_route 20 0 long_trip 0 = Some res /\
    nth_error (schedule res) 15 = Some p /\
    period_note p = NSleeper /\
    status p = "Sleeper"%string /\
    ~ In (status p)
         ["Driving"; "OnDutyNotDriving"; "OffDuty"; "SleeperBerth"]%string.
Proof.
  eexists. eexists. split; [vm_compute; reflexivity|].
  split; [reflexivity|]. split; [reflexivity|]. split; [reflexivity|].
  simpl. intros [H|[H|[H|[H|[]]]]]; discriminate.
Qed.

(** ** The route without segments *)

(** C5, as the code has it.  A route without features (the list is empty
    or the key is missing) gives the empty result: no period and both
    totals 0.  A route whose first feature has no segments is not treated
    as empty: the function returns the four fixed periods (inspection,
    pickup, unload, rest) with both totals 0.  In both cases it returns
    whatever the iteration bound. *)
Theorem empty_route_result fuel now route cycle :
  (get_or_empty (features_key route) = [] ->
   compute_schedule_for_route fuel now route cycle = Some empty_result) /\
  (forall feature0 rest,
      get_or_empty (features_key route) = feature0 :: rest ->
      get_or_empty (segments_key (feature_properties feature0)) = [] ->
      exists res,
        compute_schedule_for_route fuel now route cycle = Some res /\
        schedule res = fixed_periods now /\
        total_miles res == 0 /\ estimated_drive_hours res == 0).
Proof.
  split.
  - intro H. unfold compute_schedule_for_route. now rewrite H.
  - intros f0 rest Hf Hs. unfold compute_schedule_for_route.
    rewrite Hf, Hs.
    rewrite loop_done by (vm_compute; discriminate).
    eexists. split; [reflexivity|]. split; [reflexivity|].
    split; vm_compute; reflexivity.
Qed.

(** C5, as stated, fails: the route [no_segments] has zero segments and
    the returned schedule is not empty, it has the four fixed periods. *)
Lemma zero_segments_counterexample :
  segments_of no_segments = [] /\
  option_map (fun res => map period_note (schedule res))
             (compute_schedule_for_route 0 0 no_segments 0)
  = Some [NPreTrip; NPickup; NUnload; NPostTripRest] /\
  option_map schedule (compute_schedule_for_route 0 0 no_segments 0)
  <> Some [].
Proof.
  split; [reflexivity|]. split; [vm_compute; reflexivity|].
  vm_compute. discriminate.
Qed.

(** ** The clock *)

Ltac fields_eq :=
  repeat first
    [ reflexivity
    | match goal with |- @eq Z _ _ => lia end
    | progress f_equal ].

Lemma sleeper_hours_shift d s : sleeper_hours (shift_state d s) = sleeper_hours s.
Proof. reflexivity. Qed.

Lemma miles_this_leg_shift d s : miles_this_leg (shift_state d s) = miles_this_leg s.
Proof. reflexivity. Qed.

Lemma hours_this_leg_shift d s : hours_this_leg (shift_state d s) = hours_this_leg s.
Proof. reflexivity. Qed.

Ltac shift_tac :=
  rewrite ?sleeper_hours_shift, ?miles_this_leg_shift, ?hours_this_leg_shift;
  unfold shift_state; simpl; rewrite ?map_app; simpl;
  unfold shift_period; simpl; fields_eq.

Lemma shift_pre_trip d s : pre_trip (shift_state d s) = shift_state d (pre_trip s).
Proof. rewrite !pre_trip_eq. shift_tac. Qed.

Lemma shift_drive_to_pickup d segments s :
  drive_to_pickup segments (shift_state d s)
  = shift_state d (drive_to_pickup segments s).
Proof.
  destruct segments as [|seg0 rest].
  - now rewrite !drive_to_pickup_nil.
  - rewrite !drive_to_pickup_cons. shift_tac.
Qed.

Lemma shift_pickup d s : pickup (shift_state d s) = shift_state d (pickup s).
Proof. rewrite !pickup_eq. shift_tac. Qed.

Lemma shift_set_remaining_miles d v s :
  set_remaining_miles v (shift_state d s) = shift_state d (set_remaining_miles v s).
Proof. rewrite !set_remaining_miles_eq. reflexivity. Qed.

Lemma shift_before_loop d now segments cycle :
  before_loop (now + d) segments cycle
  = shift_state d (before_loop now segments cycle).
Proof.
  rewrite !before_loop_eq.
  change (initial_state (now + d) cycle) with (shift_state d (initial_state now cycle)).
  now rewrite shift_pre_trip, shift_drive_to_pickup, shift_pickup,
    shift_set_remaining_miles.
Qed.

Lemma shift_fuel_check d s :
  fuel_check (shift_state d s) = shift_state d (fuel_check s).
Proof.
  rewrite !fuel_check_eq.
  change (miles_until_fuel (shift_state d s)) with (miles_until_fuel s).
  change (remaining_miles (shift_state d s)) with (remaining_miles s).
  destruct (_ && _); [|reflexivity]. shift_tac.
Qed.

Lemma shift_loop_body d s :
  loop_body (shift_state d s) = shift_state d (loop_body s).
Proof.
  rewrite !loop_body_eq.
  change (rule_of (shift_state d s)) with (rule_of s).
  destruct (rule_of s).
  - rewrite !mandatory_break_eq. shift_tac.
  - rewrite !daily_limit_eq.
    change (remaining_miles (shift_state d s)) with (remaining_miles s).
    destruct (Qltb 50 (remaining_miles s));
      [destruct (Qltb 100 (remaining_miles s))|]; shift_tac.
  - rewrite !cycle_restart_eq. shift_tac.
  - rewrite <- shift_fuel_check. f_equal. rewrite !driving_leg_eq. shift_tac.
Qed.

Lemma shift_while_loop d fuel :
  forall s, while_loop fuel (shift_state d s)
            = option_map (shift_state d) (while_loop fuel s).
Proof.
  induction fuel as [|fuel IH]; intro s; simpl;
    change (remaining_miles (shift_state d s)) with (remaining_miles s);
    destruct (Qltb 0 (remaining_miles s)); try reflexivity.
  now rewrite shift_loop_body, IH.
Qed.

Lemma shift_dropoff d s :
  sched (dropoff_and_post_trip (shift_state d s))
  = map (shift_period d) (sched (dropoff_and_post_trip s)).
Proof.
  rewrite !dropoff_and_post_trip_eq. simpl. rewrite !map_app. simpl.
  unfold shift_period; simpl. fields_eq.
Qed.

(** C8, as the code has it.  The result is a function of the route, the
    cycle hours and the clock reading.  Two calls with the same route and
    cycle hours whose clock readings differ by [d] return the same result
    up to a shift of every start and end timestamp by [d]: statuses,
    notes, mileage, durations and totals are identical. *)
Theorem deterministic_up_to_clock fuel now d route cycle :
  compute_schedule_for_route fuel (now + d) route cycle
  = option_map (shift_result d) (compute_schedule_for_route fuel now route cycle).
Proof.
  unfold compute_schedule_for_route.
  destruct (get_or_empty (features_key route)) as [|f0 rest]; [reflexivity|].
  rewrite shift_before_loop, shift_while_loop.
  destruct (while_loop fuel _) as [s|]; [|reflexivity].
  cbn [option_map]. cbv zeta. unfold shift_result. cbn [schedule total_miles estimated_drive_hours].
  now rewrite shift_dropoff.
Qed.

(** C8, as stated, fails: the same route and cycle hours at two clock
    readings give two different results. *)
Lemma clock_counterexample :
  compute_schedule_for_route 10 0 short_trip 0
  <> compute_schedule_for_route 10 1 short_trip 0.
Proof. intro H. vm_compute in H. discriminate H. Qed.

(** ** The limits of the day *)

(** A driving leg of the loop stays within the limits: after it,
    [driving_today] is at most 11 and [on_duty_today] at most 14. *)
Lemma driving_leg_within_limits (s : state) :
  rule_of s = RDrive ->
  driving_today (driving_leg s) <= MAX_DRIVE_HRS /\
  on_duty_today (driving_leg s) <= MAX_ON_DUTY_HRS.
Proof.
  intro R. pose proof (rule_of_spec s) as Sp. rewrite R in Sp.
  destruct Sp as (_ & H2 & H3 & _).
  rewrite driving_leg_eq. simpl. unfold hours_this_leg.
  destruct (min3_spec (miles_this_leg s / AVG_SPEED_MPH)
                      (MAX_DRIVE_HRS - driving_today s)
                      (MAX_ON_DUTY_HRS - on_duty_today s))
    as [(-> & A & B)|[(-> & A & B)|(-> & A & B)]]; split; lra.
Qed.

(** C2 at the input [far_pickup].  The leg to the pickup is emitted as one
    Driving period of more than 14 hours; after it [driving_today] exceeds
    11 and [on_duty_today] exceeds 14. *)
Lemma pickup_leg_exceeds_limits :
  let s := drive_to_pickup far_pickup_segments (pre_trip (initial_state 0 0)) in
  nonneg_segments far_pickup_segments /\
  MAX_DRIVE_HRS < driving_today s /\
  MAX_ON_DUTY_HRS < on_duty_today s /\
  exists res p,
    compute_schedule_for_route 20 0 far_pickup 0 = Some res /\
    nth_error (schedule res) 1 = Some p /\
    status p = "Driving"%string /\
    (timedelta_hours MAX_ON_DUTY_HRS < end_ p - start p)%Z.
Proof.
  split; [repeat constructor; discriminate|].
  split; [vm_compute; reflexivity|]. split; [vm_compute; reflexivity|].
  eexists. eexists. split; [vm_compute; reflexivity|].
  split; [reflexivity|]. split; [reflexivity|]. vm_compute. reflexivity.
Qed.

(** C4 at the input [far_pickup].  The split-rest period ends before it
    starts: its duration is [min(7, 14 - on_duty_today)] with
    [on_duty_today] above 14. *)
Lemma sleeper_negative_duration :
  nonneg_segments far_pickup_segments /\
  exists res p,
    compute_schedule_for_route 20 0 far_pickup 0 = Some res /\
    nth_error (schedule res) 4 = Some p /\
    status p = "Sleeper"%string /\
    (end_ p < start p)%Z.
Proof.
  split; [repeat constructor; discriminate|].
  eexists. eexists. split; [vm_compute; reflexivity|].
  split; [reflexivity|]. split; [reflexivity|]. vm_compute. reflexivity.
Qed.

(** ** Progress of the loop *)

Lemma timedelta_minutes_30 : timedelta_minutes 30 = 1800000000%Z.
Proof. reflexivity. Qed.

Lemma timedelta_hours_reset : timedelta_hours OFF_DUTY_RESET_HRS = 36000000000%Z.
Proof. vm_compute. reflexivity. Qed.

Lemma timedelta_hours_restart : timedelta_hours RESTART_OFF_DUTY_HRS = 122400000000%Z.
Proof. vm_compute. reflexivity. Qed.

Lemma timedelta_hours_completion :
  timedelta_hours (min2 3 OFF_DUTY_RESET_HRS) = 10800000000%Z.
Proof. vm_compute. reflexivity. Qed.

(** The split-rest period has a positive duration unless [on_duty_today]
    is within a microsecond of 14 hours, or above. *)
Lemma sleeper_duration_pos (s : state) :
  1 / inject_Z US_PER_HOUR <= MAX_ON_DUTY_HRS - on_duty_today s ->
  (0 < timedelta_hours (sleeper_hours s))%Z.
Proof.
  intro H. apply timedelta_hours_pos. unfold sleeper_hours.
  assert (U : 0 < inject_Z US_PER_HOUR) by reflexivity.
  destruct (min2_spec 7 (MAX_ON_DUTY_HRS - on_duty_today s)) as [[_ ->]|[_ ->]].
  - apply (Qmult_le_compat_r _ _ (inject_Z US_PER_HOUR)) in H; [|now apply Qlt_le_weak].
    setoid_replace (1 / inject_Z US_PER_HOUR * inject_Z US_PER_HOUR) with 1 in H
      by (field; discriminate).
    assumption.
  - discriminate.
Qed.

(** What one iteration does: it emits at least one period, and it either
    drives (the remaining miles go down) or emits a period of positive
    duration, except when the daily limit is reached with between 50 and
    100 miles remaining and [on_duty_today] within a microsecond of 14
    hours or above: that iteration emits the split-rest period alone. *)
Lemma iteration_progress (s : state) :
  0 < remaining_miles s ->
  exists new,
    sched (loop_body s) = sched s ++ new /\
    new <> [] /\
    (remaining_miles (loop_body s) < remaining_miles s \/
     Exists positive_duration new \/
     (rule_of s = RDaily /\
      50 < remaining_miles s /\ remaining_miles s <= 100 /\
      MAX_ON_DUTY_HRS - on_duty_today s < 1 / inject_Z US_PER_HOUR)).
Proof.
  intro Hpos. rewrite loop_body_eq. destruct (rule_of s) eqn:R.
  - rewrite mandatory_break_eq. simpl.
    eexists. split; [reflexivity|]. split; [discriminate|].
    right; left. constructor. unfold positive_duration; simpl.
    rewrite timedelta_minutes_30. lia.
  - rewrite daily_limit_eq.
    destruct (Qltb 50 (remaining_miles s)) eqn:E50.
    + apply Qltb_true in E50.
      destruct (Qltb 100 (remaining_miles s)) eqn:E100; simpl.
      * rewrite <- app_assoc. eexists. split; [reflexivity|]. split; [discriminate|].
        right; left. apply Exists_cons_tl. constructor.
        unfold positive_duration; simpl.
        rewrite timedelta_hours_completion. lia.
      * apply Qltb_false in E100.
        eexists. split; [reflexivity|]. split; [discriminate|].
        destruct (Qlt_le_dec (MAX_ON_DUTY_HRS - on_duty_today s)
                             (1 / inject_Z US_PER_HOUR)) as [Hlt|Hge].
        -- right; right. repeat split; assumption.
        -- right; left. constructor. unfold positive_duration; simpl.
           pose proof (sleeper_duration_pos _ Hge). lia.
    + simpl. eexists. split; [reflexivity|]. split; [discriminate|].
      right; left. constructor. unfold positive_duration; simpl.
      rewrite timedelta_hours_reset. lia.
  - rewrite cycle_restart_eq. simpl.
    eexists. split; [reflexivity|]. split; [discriminate|].
    right; left. constructor. unfold positive_duration; simpl.
    rewrite timedelta_hours_restart. lia.
  - assert (Hdec : remaining_miles (fuel_check (driving_leg s)) < remaining_miles s).
    { rewrite remaining_fuel_check, remaining_driving_leg.
      assert (0 < min2 (remaining_miles s) AVG_SPEED_MPH)
        by (apply min2_pos; [assumption|reflexivity]).
      lra. }
    rewrite fuel_check_eq in *.
    destruct (_ && _); rewrite driving_leg_eq in *; simpl in *.
    + rewrite <- app_assoc. eexists. split; [reflexivity|]. split; [discriminate|].
      left. exact Hdec.
    + eexists. split; [reflexivity|]. split; [discriminate|].
      left. exact Hdec.
Qed.

(** Termination, as the code has it.  The function returns on every
    input, with an iteration bound of four per leg of 55 miles.  An iteration of the loop
    emits at least one period; it strictly decreases [remaining_miles] or
    emits a period of strictly positive duration, unless the daily limit
    is reached with 50 < remaining_miles <= 100 and [on_duty_today] within
    a microsecond of 14 hours or above; and from every state with miles
    remaining, a driving leg is done within four iterations, after which
    fewer legs are left. *)
Theorem terminates_with_progress :
  (forall now route cycle,
      exists fuel res, compute_schedule_for_route fuel now route cycle = Some res) /\
  (forall s, exists s', while_loop (4 * legs_left s) s = Some s') /\
  (forall s, 0 < remaining_miles s ->
     exists new,
       sched (loop_body s) = sched s ++ new /\
       new <> [] /\
       (remaining_miles (loop_body s) < remaining_miles s \/
        Exists positive_duration new \/
        (rule_of s = RDaily /\
         50 < remaining_miles s /\ remaining_miles s <= 100 /\
         MAX_ON_DUTY_HRS - on_duty_today s < 1 / inject_Z US_PER_HOUR))) /\
  (forall s, 0 < remaining_miles s ->
     exists j s1,
       (j <= 4)%nat /\
       (forall fuel, while_loop (j + fuel) s = while_loop fuel s1) /\
       (legs_left s1 < legs_left s)%nat).
Proof.
  split; [exact compute_schedule_for_route_returns|].
  split; [exact while_loop_terminates|].
  split; [exact iteration_progress|exact one_leg_less].
Qed.

(** C7.  The progress that the claim states for every iteration fails on
    [far_pickup], a route with no negative distance or duration, run with
    no hours of the cycle used: the drive to the pickup is not capped, so
    the loop is entered with more than 14 hours on duty; after the break,
    the second iteration starts with 80 miles remaining, leaves them
    unchanged and emits one period only, the split rest, whose end is
    before its start; that period is period 4 of the returned schedule. *)
Lemma no_progress_counterexample :
  let s := loop_body (before_loop 0 far_pickup_segments 0) in
  nonneg_segments far_pickup_segments /\
  0 < remaining_miles s /\
  ~ remaining_miles (loop_body s) < remaining_miles s /\
  exists p,
    sched (loop_body s) = sched s ++ [p] /\
    ~ positive_duration p /\ (end_ p < start p)%Z /\
    MAX_ON_DUTY_HRS < on_duty_today s /\
    exists res,
      compute_schedule_for_route 20 0 far_pickup 0 = Some res /\
      nth_error (schedule res) 4 = Some p.
Proof.
  split; [repeat constructor; discriminate|].
  split; [vm_compute; reflexivity|].
  split; [vm_compute; discriminate|].
  eexists. split; [vm_compute; reflexivity|].
  split; [vm_compute; discriminate|].
  split; [vm_compute; reflexivity|].
  split; [vm_compute; reflexivity|].
  eexists. split; vm_compute; reflexivity.
Qed.

(** ** The break after eight hours *)

Lemma BREAK_AFTER_US_eq : BREAK_AFTER_US = (8 * US_PER_HOUR)%Z.
Proof. vm_compute. reflexivity. Qed.

Lemma continuous_driving_snoc l p :
  continuous_driving (l ++ [p]) = window_step (continuous_driving l) p.
Proof. unfold continuous_driving. now rewrite fold_left_app. Qed.

Lemma bounded_windows_nil : bounded_windows [].
Proof.
  intros l1 l2 w E. symmetry in E. apply app_eq_nil in E. destruct E as [-> _].
  discriminate.
Qed.

Lemma bounded_windows_snoc l p :
  bounded_windows l ->
  (forall w, continuous_driving (l ++ [p]) = Some w -> (0 <= w <= BREAK_AFTER_US)%Z) ->
  bounded_windows (l ++ [p]).
Proof.
  intros Hl Hp l1 l2 w E Hw.
  destruct l2 as [|a l2'] using rev_ind.
  - rewrite app_nil_r in E. subst l1. now apply Hp.
  - rewrite app_assoc in E. apply app_inj_tail in E. destruct E as [E _].
    exact (Hl _ _ _ E Hw).
Qed.

Lemma rest_not_driving p : is_rest p = true -> is_driving p = false.
Proof.
  unfold is_rest, is_driving. intro H. apply orb_true_iff in H.
  destruct H as [H|H]; apply String.eqb_eq in H; rewrite H; reflexivity.
Qed.

(** In a window without break or daily rest, the count grows by the
    driving time of the window. *)
Lemma continuous_driving_window window :
  (forall q, In q window -> is_rest q = true -> is_restart q = true) ->
  forall w0,
    fold_left window_step window (Some w0) = Some (w0 + driving_time window)%Z.
Proof.
  induction window as [|q window IH]; intros Hw w0; simpl.
  - f_equal. lia.
  - assert (Hw' : forall q', In q' window -> is_rest q' = true -> is_restart q' = true)
      by (intros q' Hin; apply Hw; now right).
    unfold window_step at 2.
    destruct (is_rest q) eqn:Er.
    + rewrite (Hw q (or_introl eq_refl) Er), (rest_not_driving q Er).
      now apply IH.
    + destruct (is_driving q); simpl; rewrite (IH Hw'); f_equal; lia.
Qed.

Lemma window_step_rest acc p : is_rest p = true -> exists w, window_step acc p = Some w.
Proof.
  intro H. unfold window_step. rewrite H.
  destruct (is_restart p); [destruct acc|]; eexists; reflexivity.
Qed.

(** The statement about windows, from the bound at every point. *)
Lemma bounded_window l l1 p window l2 :
  bounded_windows l ->
  l = l1 ++ p :: window ++ l2 ->
  is_rest p = true ->
  (forall q, In q window -> is_rest q = true -> is_restart q = true) ->
  (driving_time window <= BREAK_AFTER_US)%Z.
Proof.
  intros Hb E Hp Hw.
  destruct (window_step_rest (continuous_driving l1) p Hp) as [w0 H0].
  rewrite <- continuous_driving_snoc in H0.
  assert (E0 : l = (l1 ++ [p]) ++ (window ++ l2))
    by (rewrite E, <- app_assoc; reflexivity).
  pose proof (Hb _ _ _ E0 H0) as B0.
  assert (E1 : l = ((l1 ++ [p]) ++ window) ++ l2)
    by (rewrite E, <- !app_assoc; reflexivity).
  assert (H1 : continuous_driving ((l1 ++ [p]) ++ window)
               = Some (w0 + driving_time window)%Z).
  { unfold continuous_driving in *. rewrite fold_left_app, H0.
    now apply continuous_driving_window. }
  pose proof (Hb _ _ _ E1 H1) as B1. lia.
Qed.

Lemma window_inv_bounds s w :
  window_inv s -> continuous_driving (sched s) = Some w ->
  (0 <= w <= BREAK_AFTER_US)%Z.
Proof.
  intros (_ & _ & H) Hw. rewrite BREAK_AFTER_US_eq in *.
  destruct (H w Hw) as [(n & Hn & -> & _)|[B _]]; [|assumption].
  unfold US_PER_HOUR. lia.
Qed.

(** Emitting one period: the new count has to satisfy the invariant. *)
Lemma window_inv_emit s s' p :
  window_inv s ->
  sched s' = sched s ++ [p] ->
  0 <= driving_since_break s' ->
  (forall w, window_step (continuous_driving (sched s)) p = Some w ->
     (exists n : Z, (0 <= n <= 8)%Z /\ w = (n * US_PER_HOUR)%Z /\
                    inject_Z n <= driving_since_break s') \/
     ((0 <= w <= BREAK_AFTER_US)%Z /\ blocked s')) ->
  window_inv s'.
Proof.
  intros (Hd & Hb & Hw) Es Hd' Hw'.
  split; [assumption|]. rewrite Es. split.
  - apply bounded_windows_snoc; [assumption|].
    intros w E. rewrite continuous_driving_snoc in E.
    destruct (Hw' w E) as [(n & Hn & -> & _)|[B _]]; [|assumption].
    rewrite BREAK_AFTER_US_eq. unfold US_PER_HOUR. lia.
  - intros w E. rewrite continuous_driving_snoc in E. now apply Hw'.
Qed.

Lemma zero_hours s' :
  0 <= driving_since_break s' ->
  (exists n : Z, (0 <= n <= 8)%Z /\ 0%Z = (n * US_PER_HOUR)%Z /\
                 inject_Z n <= driving_since_break s') \/
  ((0 <= 0 <= BREAK_AFTER_US)%Z /\ blocked s').
Proof. intro H. left. exists 0%Z. repeat split; [lia|lia|exact H]. Qed.

(** The hours of a driving leg: positive, at most one, and a whole hour
    unless the leg ends the day or the trip. *)
Lemma hours_this_leg_facts (s : state) :
  rule_of s = RDrive -> 0 < remaining_miles s ->
  0 < hours_this_leg s /\ hours_this_leg s <= 1 /\
  (hours_this_leg s == 1 \/ blocked (driving_leg s)).
Proof.
  intros R Hpos. pose proof (rule_of_spec s) as Sp. rewrite R in Sp.
  destruct Sp as (_ & H2 & H3 & _).
  unfold MAX_DRIVE_HRS, MAX_ON_DUTY_HRS in *.
  assert (Hm : 0 < miles_this_leg s /\ miles_this_leg s <= 55 /\
               (miles_this_leg s == 55 \/ remaining_miles s - miles_this_leg s <= 0)).
  { unfold miles_this_leg, AVG_SPEED_MPH.
    destruct (min2_spec (remaining_miles s) 55) as [[A ->]|[A ->]].
    - split; [reflexivity|]. split; [apply Qle_refl|]. left. reflexivity.
    - split; [assumption|]. split; [assumption|]. right. lra. }
  destruct Hm as (M0 & M1 & M2).
  assert (Hq : 0 < miles_this_leg s / AVG_SPEED_MPH /\
               miles_this_leg s / AVG_SPEED_MPH <= 1 /\
               (miles_this_leg s == 55 -> miles_this_leg s / AVG_SPEED_MPH == 1)).
  { unfold AVG_SPEED_MPH. split; [|split].
    - apply Qlt_shift_div_l; [reflexivity|lra].
    - apply Qle_shift_div_r; [reflexivity|lra].
    - intros ->. reflexivity. }
  destruct Hq as (Q0 & Q1 & Q2).
  unfold blocked. rewrite driving_leg_eq.
  cbn [driving_today on_duty_today remaining_miles].
  unfold hours_this_leg, MAX_DRIVE_HRS, MAX_ON_DUTY_HRS.
  set (h0 := miles_this_leg s / AVG_SPEED_MPH) in *.
  destruct (min3_spec h0 (11 - driving_today s) (14 - on_duty_today s))
    as [(-> & A & B)|[(-> & A & B)|(-> & A & B)]].
  - split; [assumption|]. split; [assumption|].
    destruct M2 as [M2|M2]; [left; now apply Q2|right; right; right; exact M2].
  - split; [lra|]. split; [lra|]. right; left. lra.
  - split; [lra|]. split; [lra|]. right; right; left. lra.
Qed.

Lemma timedelta_hours_leg (h : Q) :
  0 < h -> h <= 1 -> (0 <= timedelta_hours h <= US_PER_HOUR)%Z.
Proof.
  intros H0 H1. split.
  - apply timedelta_hours_nonneg. now apply Qlt_le_weak.
  - rewrite <- (timedelta_hours_one 1) by reflexivity.
    now apply timedelta_hours_mono.
Qed.

(** A driving leg keeps the invariant. *)
Lemma window_inv_driving_leg (s : state) :
  rule_of s = RDrive -> 0 < remaining_miles s ->
  window_inv s -> window_inv (driving_leg s).
Proof.
  intros R Hpos Inv.
  destruct (hours_this_leg_facts s R Hpos) as (H0 & H1 & Hcase).
  destruct (timedelta_hours_leg _ H0 H1) as [T0 T1].
  pose proof (rule_of_spec s) as Sp. rewrite R in Sp.
  destruct Sp as (S1 & S2 & S3 & _).
  unfold BREAK_AFTER_HRS, MAX_DRIVE_HRS, MAX_ON_DUTY_HRS in *.
  pose proof Inv as (Hd & _ & Hw).
  assert (Es : sched (driving_leg s) = sched s ++
            [mkPeriod "Driving" (t s) (t s + timedelta_hours (hours_this_leg s))
                      (NDrive (miles_this_leg s)) (miles_driven s)])
    by (rewrite driving_leg_eq; reflexivity).
  assert (Ed : driving_since_break (driving_leg s)
               = driving_since_break s + hours_this_leg s)
    by (rewrite driving_leg_eq; reflexivity).
  apply (window_inv_emit s _ _ Inv Es).
  - rewrite Ed. lra.
  - intros w' E. unfold window_step in E. cbn in E.
    destruct (continuous_driving (sched s)) as [w|] eqn:Ec; [|discriminate].
    cbn in E. injection E as <-.
    unfold duration_us. cbn [start end_].
    replace (t s + timedelta_hours (hours_this_leg s) - t s)%Z
      with (timedelta_hours (hours_this_leg s)) by lia.
    destruct (Hw w eq_refl) as [(n & Hn & -> & Hle)|[_ Hb]].
    + assert (Hn7 : (n < 8)%Z).
      { rewrite Zlt_Qlt.
        apply Qle_lt_trans with (driving_since_break s); [exact Hle|exact S1]. }
      destruct Hcase as [Hone|Hblk].
      * left. exists (n + 1)%Z. repeat split; try lia.
        -- rewrite (timedelta_hours_one _ Hone). lia.
        -- rewrite Ed, inject_Z_plus. change (inject_Z 1) with 1. lra.
      * right. split; [|exact Hblk].
        rewrite BREAK_AFTER_US_eq. unfold US_PER_HOUR in *. lia.
    + exfalso. destruct Hb as [Hb|[Hb|Hb]];
        unfold MAX_DRIVE_HRS, MAX_ON_DUTY_HRS in Hb; lra.
Qed.

(** The fuel stop is on duty: it keeps the count and a blocked state
    stays blocked. *)
Lemma window_inv_fuel_check (s : state) : window_inv s -> window_inv (fuel_check s).
Proof.
  intro Inv. rewrite fuel_check_eq. destruct (_ && _); [|assumption].
  pose proof Inv as (Hd & _ & Hw).
  eapply (window_inv_emit s _ _ Inv); [reflexivity|exact Hd|].
  intros w E. unfold window_step in E. cbn in E.
  destruct (Hw w E) as [H|[B Hb]]; [left; exact H|right].
  split; [exact B|].
  unfold blocked in *. cbn [driving_today on_duty_today remaining_miles].
  destruct Hb as [Hb|[Hb|Hb]]; [left; exact Hb| |right; right; exact Hb].
  right; left. unfold FUEL_STOP_MIN. 
  assert (0 <= inject_Z 45 / 60) by (vm_compute; discriminate).
  lra.
Qed.

(** The mandatory break starts the count again. *)
Lemma window_inv_mandatory_break (s : state) :
  window_inv s -> window_inv (mandatory_break s).
Proof.
  intro Inv. rewrite mandatory_break_eq.
  eapply (window_inv_emit s _ _ Inv); [reflexivity|apply Qle_refl|].
  intros w E. unfold window_step in E. cbn in E. injection E as <-.
  apply zero_hours. apply Qle_refl.
Qed.

(** So does the daily rest, in each of its three forms. *)
Lemma window_inv_daily_limit (s : state) :
  window_inv s -> window_inv (daily_limit s).
Proof.
  intro Inv. rewrite daily_limit_eq.
  destruct (Qltb 50 (remaining_miles s));
    [destruct (Qltb 100 (remaining_miles s))|].
  - set (sleeper := mkPeriod "Sleeper" (t s) (t s + timedelta_hours (sleeper_hours s))
                             NSleeper (miles_driven s)).
    assert (Inv1 : window_inv
                     (mkState (t s) (sched s ++ [sleeper]) (miles_driven s) 0 0 0
                              (cycle_used s) (miles_until_fuel s) (remaining_miles s))).
    { eapply (window_inv_emit s _ _ Inv); [reflexivity|apply Qle_refl|].
      intros w E. unfold window_step in E. cbn in E. injection E as <-.
      apply zero_hours. apply Qle_refl. }
    eapply (window_inv_emit _ _ _ Inv1); [reflexivity|apply Qle_refl|].
    intros w E. unfold window_step in E. cbn in E. injection E as <-.
    apply zero_hours. apply Qle_refl.
  - eapply (window_inv_emit s _ _ Inv); [reflexivity|apply Qle_refl|].
    intros w E. unfold window_step in E. cbn in E. injection E as <-.
    apply zero_hours. apply Qle_refl.
  - eapply (window_inv_emit s _ _ Inv); [reflexivity|apply Qle_refl|].
    intros w E. unfold window_step in E. cbn in E. injection E as <-.
    apply zero_hours. apply Qle_refl.
Qed.

(** The 34 hour restart starts a count when none runs and lets a running
    count run: [driving_since_break] is not reset. *)
Lemma window_inv_cycle_restart (s : state) :
  window_inv s -> window_inv (cycle_restart s).
Proof.
  intro Inv. rewrite cycle_restart_eq.
  pose proof Inv as (Hd & _ & Hw).
  eapply (window_inv_emit s _ _ Inv); [reflexivity|exact Hd|].
  intros w E. unfold window_step in E. cbn in E.
  destruct (continuous_driving (sched s)) as [w0|] eqn:Ec.
  - injection E as <-.
    destruct (Hw w0 eq_refl) as [H|[B Hb]]; [left; exact H|right].
    split; [exact B|exact Hb].
  - injection E as <-. apply zero_hours. exact Hd.
Qed.

Lemma window_inv_loop_body (s : state) :
  window_inv s -> 0 < remaining_miles s -> window_inv (loop_body s).
Proof.
  intros Inv Hpos. rewrite loop_body_eq. destruct (rule_of s) eqn:R.
  - now apply window_inv_mandatory_break.
  - now apply window_inv_daily_limit.
  - now apply window_inv_cycle_restart.
  - now apply window_inv_fuel_check, window_inv_driving_leg.
Qed.

(** Before the loop no rest period is emitted. *)
Lemma pre_window_emit s s' p :
  pre_window s ->
  sched s' = sched s ++ [p] ->
  0 <= driving_since_break s' ->
  is_rest p = false ->
  pre_window s'.
Proof.
  intros (Hd & Hb & Hn) Es Hd' Hp.
  assert (E : continuous_driving (sched s ++ [p]) = None).
  { rewrite continuous_driving_snoc, Hn. unfold window_step. rewrite Hp.
    destruct (is_driving p); reflexivity. }
  split; [assumption|]. rewrite Es. split; [|exact E].
  apply bounded_windows_snoc; [assumption|].
  intros w Hw. rewrite E in Hw. discriminate.
Qed.

Lemma pre_window_set_remaining_miles v s :
  pre_window s -> pre_window (set_remaining_miles v s).
Proof. intro H. rewrite set_remaining_miles_eq. exact H. Qed.

Lemma pre_window_before_loop now segments cycle :
  nonneg_segments segments ->
  pre_window (before_loop now segments cycle).
Proof.
  intro W. rewrite before_loop_eq.
  assert (P0 : pre_window (initial_state now cycle)).
  { split; [apply Qle_refl|]. split; [apply bounded_windows_nil|reflexivity]. }
  assert (P1 : pre_window (pre_trip (initial_state now cycle))).
  { eapply (pre_window_emit _ _ _ P0); rewrite ?pre_trip_eq;
      [reflexivity|apply Qle_refl|reflexivity]. }
  assert (P2 : pre_window (drive_to_pickup segments (pre_trip (initial_state now cycle)))).
  { destruct segments as [|seg0 rest]; [now rewrite drive_to_pickup_nil|].
    inversion W as [|? ? [Hdist _] _]; subst.
    destruct P1 as (Hd & Hb & Hn).
    eapply (pre_window_emit _ _ _ (conj Hd (conj Hb Hn)));
      rewrite ?drive_to_pickup_cons; [reflexivity| |reflexivity].
    cbn [driving_since_break].
    assert (0 <= hours_to_pickup seg0).
    { unfold hours_to_pickup, first_leg_distance_mi.
      apply Qle_shift_div_l; [reflexivity|].
      apply Qle_shift_div_l; [reflexivity|]. lra. }
    lra. }
  assert (P3 : pre_window (pickup (drive_to_pickup segments
                                     (pre_trip (initial_state now cycle))))).
  { destruct P2 as (Hd & Hb & Hn).
    eapply (pre_window_emit _ _ _ (conj Hd (conj Hb Hn))); rewrite ?pickup_eq;
      [reflexivity|exact Hd|reflexivity]. }
  apply pre_window_set_remaining_miles. exact P3.
Qed.

Lemma pre_window_inv s : pre_window s -> window_inv s.
Proof.
  intros (Hd & Hb & Hn). split; [assumption|]. split; [assumption|].
  intros w Hw. rewrite Hn in Hw. discriminate.
Qed.

Lemma bounded_dropoff s :
  window_inv s -> bounded_windows (sched (dropoff_and_post_trip s)).
Proof.
  intro Inv. rewrite dropoff_and_post_trip_eq. cbn [sched].
  destruct Inv as (Hd & Hb & Hw).
  apply bounded_windows_snoc; [apply bounded_windows_snoc; [assumption|]|].
  - intros w E. rewrite continuous_driving_snoc in E.
    unfold window_step in E. cbn in E.
    exact (window_inv_bounds s w (conj Hd (conj Hb Hw)) E).
  - intros w E. rewrite continuous_driving_snoc in E.
    unfold window_step in E. cbn in E. injection E as <-.
    rewrite BREAK_AFTER_US_eq. unfold US_PER_HOUR. lia.
Qed.

(** ** Durations *)

Lemma ends_one (p : period) : (start p <= end_ p)%Z -> Forall ends_after_start [p].
Proof. intro H. constructor; [right; exact H|constructor]. Qed.

Lemma ends_sleeper (p : period) : period_note p = NSleeper -> Forall ends_after_start [p].
Proof. intro H. constructor; [left; exact H|constructor]. Qed.

Ltac ends_tac :=
  apply Forall_app; split; [assumption|];
  apply ends_one; cbn [start end_];
  rewrite ?timedelta_minutes_30, ?timedelta_hours_reset, ?timedelta_hours_restart,
    ?timedelta_hours_completion;
  try (unfold timedelta_minutes, PICKUP_MIN, DROPOFF_MIN, FUEL_STOP_MIN,
         US_PER_MINUTE); lia.

Lemma ends_pre_trip s :
  Forall ends_after_start (sched s) -> Forall ends_after_start (sched (pre_trip s)).
Proof. intro H. rewrite pre_trip_eq. cbn [sched]. ends_tac. Qed.

Lemma ends_drive_to_pickup segments s :
  nonneg_segments segments ->
  Forall ends_after_start (sched s) ->
  Forall ends_after_start (sched (drive_to_pickup segments s)).
Proof.
  intros W H. destruct segments as [|seg0 rest]; [now rewrite drive_to_pickup_nil|].
  rewrite drive_to_pickup_cons. cbn [sched].
  inversion W as [|? ? [Hd _] _]; subst.
  apply Forall_app; split; [assumption|]. apply ends_one. cbn [start end_].
  assert (0 <= timedelta_hours (hours_to_pickup seg0))%Z; [|lia].
  apply timedelta_hours_nonneg. unfold hours_to_pickup, first_leg_distance_mi.
  apply Qle_shift_div_l; [reflexivity|].
  apply Qle_shift_div_l; [reflexivity|]. lra.
Qed.

Lemma ends_pickup s :
  Forall ends_after_start (sched s) -> Forall ends_after_start (sched (pickup s)).
Proof. intro H. rewrite pickup_eq. cbn [sched]. ends_tac. Qed.

Lemma ends_fuel_check s :
  Forall ends_after_start (sched s) -> Forall ends_after_start (sched (fuel_check s)).
Proof.
  intro H. rewrite fuel_check_eq. destruct (_ && _); [|assumption].
  cbn [sched]. ends_tac.
Qed.

Lemma ends_loop_body s :
  Forall ends_after_start (sched s) -> 0 < remaining_miles s ->
  Forall ends_after_start (sched (loop_body s)).
Proof.
  intros H Hpos. rewrite loop_body_eq. destruct (rule_of s) eqn:R.
  - rewrite mandatory_break_eq. cbn [sched]. ends_tac.
  - rewrite daily_limit_eq.
    destruct (Qltb 50 (remaining_miles s));
      [destruct (Qltb 100 (remaining_miles s))|]; cbn [sched].
    + apply Forall_app; split; [apply Forall_app; split; [assumption|]|].
      * now apply ends_sleeper.
      * apply ends_one. cbn [start end_].
        rewrite timedelta_hours_completion. lia.
    + apply Forall_app; split; [assumption|]. now apply ends_sleeper.
    + ends_tac.
  - rewrite cycle_restart_eq. cbn [sched]. ends_tac.
  - apply ends_fuel_check. rewrite driving_leg_eq. cbn [sched].
    apply Forall_app; split; [assumption|]. apply ends_one. cbn [start end_].
    destruct (hours_this_leg_facts s R Hpos) as (H0 & H1 & _).
    destruct (timedelta_hours_leg _ H0 H1) as [T0 _]. lia.
Qed.

Lemma ends_dropoff s :
  Forall ends_after_start (sched s) ->
  Forall ends_after_start (sched (dropoff_and_post_trip s)).
Proof.
  intro H. rewrite dropoff_and_post_trip_eq. cbn [sched].
  apply Forall_app; split; [ends_tac|].
  apply ends_one. cbn [start end_]. rewrite timedelta_hours_reset. lia.
Qed.

(** With no negative distance in the route, the split rest is the only
    period of a returned schedule that can end before it starts. *)
Lemma durations_nonneg_except_sleeper fuel now route cycle res :
  nonneg_segments (segments_of route) ->
  compute_schedule_for_route fuel now route cycle = Some res ->
  forall p, In p (schedule res) -> period_note p <> NSleeper ->
            (start p <= end_ p)%Z.
Proof.
  unfold segments_of. intros W Hres p Hin Hn.
  destruct (compute_schedule_for_route_some _ _ _ _ _ Hres)
    as [[_ ->]|(f0 & rest & s & Hf & Hloop & Hs)]; [destruct Hin|].
  rewrite Hf in W. rewrite Hs in Hin.
  destruct (run_invariant (fun s => Forall ends_after_start (sched s)) _ _ _ _ _
              (Forall_nil _) ends_pre_trip (fun s => ends_drive_to_pickup _ s W)
              ends_pickup (fun _ _ H => H) ends_loop_body Hloop) as [Hn' _].
  apply ends_dropoff in Hn'. rewrite Forall_forall in Hn'.
  destruct (Hn' p Hin) as [E|E]; [contradiction|exact E].
Qed.

(** ** The mileage annotation *)

Lemma firstn_snoc_nth {A : Type} (l : list A) (i : nat) (x : A) :
  nth_error l i = Some x -> firstn (S i) l = firstn i l ++ [x].
Proof.
  revert i. induction l as [|a l IH]; intros [|i] H; try discriminate.
  - injection H as <-. reflexivity.
  - simpl in H. simpl. f_equal. now apply IH.
Qed.

Lemma annotated_spec l m :
  annotated l m ->
  m = miles_covered l /\
  forall i p, nth_error l i = Some p ->
              miles_since_start p = miles_covered (firstn i l).
Proof.
  induction 1 as [|l m p Ha [IHm IHn] Hp].
  - split; [reflexivity|]. intros [|i] p H; discriminate.
  - split.
    + unfold miles_covered. rewrite fold_left_app. simpl.
      fold (miles_covered l). now rewrite <- IHm.
    + intros i q Hq.
      assert (Hlen : (i < List.length (l ++ [p]))%nat)
        by (apply nth_error_Some; congruence).
      rewrite length_app in Hlen. simpl in Hlen.
      rewrite firstn_app.
      destruct (Nat.eq_dec i (List.length l)) as [->|NE].
      * rewrite nth_error_app2, Nat.sub_diag in Hq by lia.
        injection Hq as <-.
        rewrite firstn_all, Nat.sub_diag. simpl. rewrite app_nil_r. congruence.
      * rewrite nth_error_app1 in Hq by lia.
        replace (i - List.length l)%nat with 0%nat by lia.
        simpl. rewrite app_nil_r. now apply IHn.
Qed.

Lemma add_leg_ge m p : nonneg_leg p -> m <= add_leg m p.
Proof.
  unfold nonneg_leg, leg_miles, add_leg.
  destruct (period_note p); intro H; lra.
Qed.

Lemma annotated_sorted l m :
  annotated l m -> Forall nonneg_leg l ->
  (forall p, In p l -> miles_since_start p <= m) /\
  (forall i j p q, (i <= j)%nat ->
                   nth_error l i = Some p -> nth_error l j = Some q ->
                   miles_since_start p <= miles_since_start q).
Proof.
  induction 1 as [|l m p Ha IH Hp]; intro HF.
  - split; [intros p []|]. intros [|i] j p q _ H; discriminate.
  - apply Forall_app in HF. destruct HF as [HFl HFp].
    inversion HFp as [|? ? Hnn _]; subst.
    destruct (IH HFl) as [IHin IHs].
    pose proof (add_leg_ge (miles_since_start p) p Hnn) as Hge.
    assert (Hin : forall p0, In p0 (l ++ [p]) ->
                             miles_since_start p0 <= miles_since_start p).
    { intros p0 Hp0. apply in_app_or in Hp0. destruct Hp0 as [H0|[<-|[]]].
      - now apply IHin.
      - apply Qle_refl. }
    split.
    + intros p0 Hp0. eapply Qle_trans; [now apply Hin|assumption].
    + intros i j p0 q Hij Hi Hj.
      assert (Hlen : (j < List.length (l ++ [p]))%nat)
        by (apply nth_error_Some; congruence).
      rewrite length_app in Hlen. simpl in Hlen.
      destruct (Nat.eq_dec j (List.length l)) as [->|NE].
      * rewrite nth_error_app2, Nat.sub_diag in Hj by lia.
        injection Hj as <-. apply Hin. eapply nth_error_In; eassumption.
      * rewrite nth_error_app1 in Hj by lia.
        rewrite nth_error_app1 in Hi by lia.
        exact (IHs _ _ _ _ Hij Hi Hj).
Qed.

Ltac annotated_tac :=
  repeat first
    [ eassumption
    | apply annotated_nil
    | refine (annotated_snoc _ _ _ _ eq_refl) ].

Lemma annotated_pre_trip s : annotated_state s -> annotated_state (pre_trip s).
Proof. unfold annotated_state. intro H. rewrite pre_trip_eq. simpl. annotated_tac. Qed.

Lemma annotated_drive_to_pickup segments s :
  annotated_state s -> annotated_state (drive_to_pickup segments s).
Proof.
  unfold annotated_state. intro H. destruct segments as [|seg0 rest].
  - now rewrite drive_to_pickup_nil.
  - rewrite drive_to_pickup_cons. simpl.
    exact (annotated_snoc _ _ (mkPeriod _ _ _ (NDriveToPickup _) _) H eq_refl).
Qed.

Lemma annotated_pickup s : annotated_state s -> annotated_state (pickup s).
Proof. unfold annotated_state. intro H. rewrite pickup_eq. simpl. annotated_tac. Qed.

Lemma annotated_fuel_check s : annotated_state s -> annotated_state (fuel_check s).
Proof.
  unfold annotated_state. intro H. rewrite fuel_check_eq.
  destruct (_ && _); simpl; annotated_tac.
Qed.

Lemma annotated_loop_body s : annotated_state s -> annotated_state (loop_body s).
Proof.
  intro H. rewrite loop_body_eq. destruct (rule_of s).
  - unfold annotated_state in *. rewrite mandatory_break_eq. simpl. annotated_tac.
  - unfold annotated_state in *. rewrite daily_limit_eq.
    destruct (Qltb 50 (remaining_miles s));
      [destruct (Qltb 100 (remaining_miles s))|]; simpl.
    + exact (annotated_snoc _ _ (mkPeriod _ _ _ NSplitCompletion _)
               (annotated_snoc _ _ (mkPeriod _ _ _ NSleeper _) H eq_refl) eq_refl).
    + annotated_tac.
    + annotated_tac.
  - unfold annotated_state in *. rewrite cycle_restart_eq. simpl. annotated_tac.
  - apply annotated_fuel_check.
    unfold annotated_state in *. rewrite driving_leg_eq. simpl.
    exact (annotated_snoc _ _ (mkPeriod _ _ _ (NDrive _) _) H eq_refl).
Qed.

Lemma annotated_dropoff s :
  annotated_state s ->
  annotated (sched (dropoff_and_post_trip s)) (miles_driven s).
Proof.
  unfold annotated_state. intro H. rewrite dropoff_and_post_trip_eq. simpl.
  exact (annotated_snoc _ _ (mkPeriod _ _ _ NPostTripRest _)
           (annotated_snoc _ _ (mkPeriod _ _ _ NUnload _) H eq_refl) eq_refl).
Qed.

Ltac nonneg_tac :=
  repeat (apply Forall_app; split); try assumption;
  repeat constructor; try apply Qle_refl.

Lemma nonneg_pre_trip s :
  Forall nonneg_leg (sched s) -> Forall nonneg_leg (sched (pre_trip s)).
Proof. intro H. rewrite pre_trip_eq. simpl. nonneg_tac. Qed.

Lemma nonneg_drive_to_pickup segments s :
  nonneg_segments segments ->
  Forall nonneg_leg (sched s) -> Forall nonneg_leg (sched (drive_to_pickup segments s)).
Proof.
  intros W H. destruct segments as [|seg0 rest].
  - now rewrite drive_to_pickup_nil.
  - rewrite drive_to_pickup_cons. simpl.
    inversion W as [|? ? [Hd _] _]; subst.
    apply Forall_app; split; [assumption|]. repeat constructor.
    unfold nonneg_leg, leg_miles, first_leg_distance_mi; simpl.
    apply Qle_shift_div_l; [reflexivity|]. lra.
Qed.

Lemma nonneg_pickup s :
  Forall nonneg_leg (sched s) -> Forall nonneg_leg (sched (pickup s)).
Proof. intro H. rewrite pickup_eq. simpl. nonneg_tac. Qed.

Lemma nonneg_fuel_check s :
  Forall nonneg_leg (sched s) -> Forall nonneg_leg (sched (fuel_check s)).
Proof.
  intro H. rewrite fuel_check_eq. destruct (_ && _); [|assumption].
  simpl. nonneg_tac.
Qed.

Lemma nonneg_loop_body s :
  Forall nonneg_leg (sched s) -> 0 < remaining_miles s ->
  Forall nonneg_leg (sched (loop_body s)).
Proof.
  intros H Hpos. rewrite loop_body_eq. destruct (rule_of s).
  - rewrite mandatory_break_eq. simpl. nonneg_tac.
  - rewrite daily_limit_eq.
    destruct (Qltb 50 (remaining_miles s));
      [destruct (Qltb 100 (remaining_miles s))|]; simpl; nonneg_tac.
  - rewrite cycle_restart_eq. simpl. nonneg_tac.
  - apply nonneg_fuel_check. rewrite driving_leg_eq. simpl.
    apply Forall_app; split; [assumption|]. repeat constructor.
    unfold nonneg_leg, leg_miles, miles_this_leg; simpl.
    apply Qlt_le_weak, min2_pos; [assumption|reflexivity].
Qed.

Lemma nonneg_dropoff s :
  Forall nonneg_leg (sched s) -> Forall nonneg_leg (sched (dropoff_and_post_trip s)).
Proof. intro H. rewrite dropoff_and_post_trip_eq. simpl. nonneg_tac. Qed.

Lemma driving_note (p : period) :
  well_tagged p -> status p = "Driving"%string ->
  exists mi, (period_note p = NDriveToPickup mi \/ period_note p = NDrive mi) /\
             leg_miles p = mi /\ forall m, add_leg m p = m + mi.
Proof.
  unfold well_tagged, leg_miles, add_leg. intros T D. rewrite D in T.
  destruct (period_note p) as [|mi| | | | | | |mi| | |]; try discriminate T;
    exists mi; (split; [tauto|split; reflexivity]).
Qed.

Lemma last_is_post_trip_rest s :
  exists l, sched (dropoff_and_post_trip s) = l ++
    [mkPeriod "OffDuty" (t s + timedelta_minutes DROPOFF_MIN)
              (t s + timedelta_minutes DROPOFF_MIN + timedelta_hours OFF_DUTY_RESET_HRS)
              NPostTripRest (miles_driven s)].
Proof. eexists. rewrite dropoff_and_post_trip_eq. reflexivity. Qed.

(** C10.  In a returned schedule, every period is annotated with the miles
    covered by the periods before it.  So a Driving period, whose note
    carries the miles [mi] of its leg, is annotated with the miles driven
    before the leg, its own miles excluded: it is never the last period,
    and the next period is annotated with [mi] more.  With no negative
    distance in the route, the annotations never decrease along the
    schedule. *)
Theorem annotation_excludes_own_leg fuel now route cycle res :
  compute_schedule_for_route fuel now route cycle = Some res ->
  (forall i p,
      nth_error (schedule res) i = Some p ->
      miles_since_start p = miles_covered (firstn i (schedule res))) /\
  (forall i p,
      nth_error (schedule res) i = Some p -> status p = "Driving"%string ->
      exists mi q,
        (period_note p = NDriveToPickup mi \/ period_note p = NDrive mi) /\
        miles_covered (firstn (S i) (schedule res)) = miles_since_start p + mi /\
        nth_error (schedule res) (S i) = Some q /\
        miles_since_start q = miles_since_start p + mi) /\
  (nonneg_segments (segments_of route) ->
   forall i j p q,
     (i <= j)%nat ->
     nth_error (schedule res) i = Some p ->
     nth_error (schedule res) j = Some q ->
     miles_since_start p <= miles_since_start q).
Proof.
  intro Hres.
  pose proof (schedule_well_tagged _ _ _ _ _ Hres) as Tagged.
  unfold segments_of.
  destruct (compute_schedule_for_route_some _ _ _ _ _ Hres)
    as [[_ ->]|(f0 & rest & s & Hf & Hloop & Hs)].
  - simpl. split; [|split].
    + intros [|i] p H; discriminate.
    + intros [|i] p H; discriminate.
    + intros _ [|i] j p q _ H; discriminate.
  - rewrite Hf. rewrite Hs in *. clear Hs.
    destruct (run_invariant annotated_state _ _ _ _ _
                annotated_nil annotated_pre_trip (annotated_drive_to_pickup _)
                annotated_pickup (fun _ _ H => H)
                (fun s H _ => annotated_loop_body s H) Hloop) as [Ha _].
    apply annotated_dropoff in Ha.
    destruct (annotated_spec _ _ Ha) as [_ Hann].
    split; [exact Hann|]. split.
    + intros i p Hp Hd.
      rewrite Forall_forall in Tagged.
      destruct (driving_note p (Tagged p (nth_error_In _ _ Hp)) Hd)
        as (mi & Hnote & _ & Hadd).
      assert (Hcov : miles_covered (firstn (S i) (sched (dropoff_and_post_trip s)))
                     = miles_since_start p + mi).
      { rewrite (firstn_snoc_nth _ _ _ Hp).
        rewrite (Hann i p Hp), <- Hadd. unfold miles_covered.
        rewrite fold_left_app. reflexivity. }
      destruct (last_is_post_trip_rest s) as [l Hl].
      assert (Hlen : (S i < List.length (sched (dropoff_and_post_trip s)))%nat).
      { assert (Hi : (i < List.length (sched (dropoff_and_post_trip s)))%nat)
          by (apply nth_error_Some; congruence).
        rewrite Hl in *. rewrite length_app in *. simpl in *.
        destruct (Nat.eq_dec i (List.length l)) as [->|NE]; [|lia].
        rewrite nth_error_app2, Nat.sub_diag in Hp by lia.
        injection Hp as <-. discriminate Hd. }
      destruct (nth_error (sched (dropoff_and_post_trip s)) (S i)) as [q|] eqn:Hq;
        [|apply nth_error_None in Hq; lia].
      exists mi, q. repeat split; try assumption.
      now rewrite (Hann _ _ Hq).
    + intros W i j p q Hij Hp Hq.
      destruct (run_invariant (fun s => Forall nonneg_leg (sched s)) _ _ _ _ _
                  (Forall_nil _) nonneg_pre_trip (fun s => nonneg_drive_to_pickup _ s W)
                  nonneg_pickup (fun _ _ H => H) nonneg_loop_body Hloop) as [Hn _].
      apply nonneg_dropoff in Hn.
      exact (proj2 (annotated_sorted _ _ Ha Hn) _ _ _ _ Hij Hp Hq).
Qed.

(** ** The fuel counter *)

Lemma count_fuel_stops_app l l' :
  count_fuel_stops (l ++ l') = (count_fuel_stops l + count_fuel_stops l')%nat.
Proof. unfold count_fuel_stops. now rewrite filter_app, length_app. Qed.

Lemma fuel_run_deterministic rem muf k :
  fuel_run rem muf k -> forall k', fuel_run rem muf k' -> k = k'.
Proof.
  induction 1 as [rem muf Hle|rem muf k Hpos Hrun IH]; intros k' H'.
  - inversion H' as [|? ? ? Hpos' _]; subst; [reflexivity|]. exfalso; lra.
  - inversion H' as [? ? Hle'|? ? k0 _ Hrun']; subst; [exfalso; lra|].
    f_equal. now apply IH.
Qed.

(** The fuel check, seen from the fuel counter. *)
Lemma fuel_view_fuel_check s :
  remaining_miles (fuel_check s) = remaining_miles s /\
  miles_until_fuel (fuel_check s)
  = (if Qle_bool (miles_until_fuel s) 0 && Qltb 0 (remaining_miles s)
     then FUEL_RANGE_MILES else miles_until_fuel s) /\
  count_fuel_stops (sched (fuel_check s))
  = (count_fuel_stops (sched s)
     + (if Qle_bool (miles_until_fuel s) 0 && Qltb 0 (remaining_miles s)
        then 1 else 0))%nat.
Proof.
  rewrite fuel_check_eq.
  destruct (_ && _); cbn [miles_until_fuel remaining_miles sched].
  - rewrite count_fuel_stops_app. repeat split.
  - repeat split. lia.
Qed.

Lemma fields_driving_leg s :
  remaining_miles (driving_leg s)
  = remaining_miles s - min2 (remaining_miles s) AVG_SPEED_MPH /\
  miles_until_fuel (driving_leg s)
  = miles_until_fuel s - min2 (remaining_miles s) AVG_SPEED_MPH /\
  count_fuel_stops (sched (driving_leg s)) = count_fuel_stops (sched s).
Proof.
  rewrite driving_leg_eq. cbn [miles_until_fuel remaining_miles sched].
  rewrite count_fuel_stops_app. repeat split.
  change (count_fuel_stops [_]) with 0%nat. lia.
Qed.

(** A driving leg and its fuel check, seen from the fuel counter. *)
Lemma fuel_view_driving_leg s :
  remaining_miles (fuel_check (driving_leg s))
  = remaining_miles s - min2 (remaining_miles s) AVG_SPEED_MPH /\
  miles_until_fuel (fuel_check (driving_leg s))
  = (if stops_for_fuel (remaining_miles s) (miles_until_fuel s)
     then FUEL_RANGE_MILES
     else miles_until_fuel s - min2 (remaining_miles s) AVG_SPEED_MPH) /\
  count_fuel_stops (sched (fuel_check (driving_leg s)))
  = (count_fuel_stops (sched s)
     + (if stops_for_fuel (remaining_miles s) (miles_until_fuel s) then 1 else 0))%nat.
Proof.
  destruct (fuel_view_fuel_check (driving_leg s)) as (F1 & F2 & F3).
  destruct (fields_driving_leg s) as (D1 & D2 & D3).
  rewrite F1, F2, F3, D1, D2, D3. unfold stops_for_fuel. cbv zeta.
  repeat split.
Qed.

(** The rules that do not drive leave the miles and the fuel counter
    alone and emit no fuel stop. *)
Lemma fuel_view_rest s :
  rule_of s <> RDrive ->
  remaining_miles (loop_body s) = remaining_miles s /\
  miles_until_fuel (loop_body s) = miles_until_fuel s /\
  count_fuel_stops (sched (loop_body s)) = count_fuel_stops (sched s).
Proof.
  intro R. rewrite loop_body_eq. destruct (rule_of s); [| | |congruence].
  - rewrite mandatory_break_eq. cbn [miles_until_fuel remaining_miles sched].
    rewrite count_fuel_stops_app. repeat split.
    change (count_fuel_stops [_]) with 0%nat. lia.
  - rewrite daily_limit_eq.
    destruct (Qltb 50 (remaining_miles s));
      [destruct (Qltb 100 (remaining_miles s))|];
      cbn [miles_until_fuel remaining_miles sched];
      rewrite ?count_fuel_stops_app; repeat split;
      repeat change (count_fuel_stops [_]) with 0%nat; lia.
  - rewrite cycle_restart_eq. cbn [miles_until_fuel remaining_miles sched].
    rewrite count_fuel_stops_app. repeat split.
    change (count_fuel_stops [_]) with 0%nat. lia.
Qed.

Lemma while_loop_fuel_run fuel :
  forall s s',
    while_loop fuel s = Some s' ->
    exists k,
      fuel_run (remaining_miles s) (miles_until_fuel s) k /\
      count_fuel_stops (sched s') = (count_fuel_stops (sched s) + k)%nat.
Proof.
  induction fuel as [|fuel IH]; intros s s' Hrun; simpl in Hrun;
    destruct (Qltb 0 (remaining_miles s)) eqn:E; try discriminate;
    try (injection Hrun as <-; exists 0%nat; split;
         [apply fuel_run_done; now apply Qltb_false|lia]).
  apply Qltb_true in E.
  destruct (IH _ _ Hrun) as (k & Hk & Hc).
  destruct (rule_of s) eqn:R.
  1-3: destruct (fuel_view_rest s ltac:(congruence)) as (H1 & H2 & H3);
    rewrite H1, H2 in Hk; rewrite H3 in Hc;
    exists k; split; [exact Hk|exact Hc].
  rewrite loop_body_eq, R in Hk, Hc.
  destruct (fuel_view_driving_leg s) as (H1 & H2 & H3).
  rewrite H1, H2 in Hk. rewrite H3 in Hc.
  eexists. split; [apply fuel_run_leg; eassumption|]. lia.
Qed.

Lemma fuel_view_pre_trip s :
  miles_until_fuel (pre_trip s) = miles_until_fuel s /\
  count_fuel_stops (sched (pre_trip s)) = count_fuel_stops (sched s).
Proof.
  rewrite pre_trip_eq. cbn [miles_until_fuel sched].
  rewrite count_fuel_stops_app. split; [reflexivity|].
  change (count_fuel_stops [_]) with 0%nat. lia.
Qed.

Lemma fuel_view_drive_to_pickup segments s :
  miles_until_fuel (drive_to_pickup segments s) = miles_until_fuel s /\
  count_fuel_stops (sched (drive_to_pickup segments s)) = count_fuel_stops (sched s).
Proof.
  destruct segments as [|seg0 rest].
  - rewrite drive_to_pickup_nil. split; reflexivity.
  - rewrite drive_to_pickup_cons. cbn [miles_until_fuel sched].
    rewrite count_fuel_stops_app. split; [reflexivity|].
    change (count_fuel_stops [_]) with 0%nat. lia.
Qed.

Lemma fuel_view_pickup s :
  miles_until_fuel (pickup s) = miles_until_fuel s /\
  count_fuel_stops (sched (pickup s)) = count_fuel_stops (sched s).
Proof.
  rewrite pickup_eq. cbn [miles_until_fuel sched].
  rewrite count_fuel_stops_app. split; [reflexivity|].
  change (count_fuel_stops [_]) with 0%nat. lia.
Qed.

Lemma fuel_view_set_remaining_miles v s :
  miles_until_fuel (set_remaining_miles v s) = miles_until_fuel s /\
  count_fuel_stops (sched (set_remaining_miles v s)) = count_fuel_stops (sched s).
Proof. rewrite set_remaining_miles_eq. split; reflexivity. Qed.

Lemma miles_until_fuel_before_loop now segments cycle :
  miles_until_fuel (before_loop now segments cycle) = FUEL_RANGE_MILES.
Proof.
  rewrite before_loop_eq.
  rewrite (proj1 (fuel_view_set_remaining_miles _ _)), (proj1 (fuel_view_pickup _)),
    (proj1 (fuel_view_drive_to_pickup _ _)), (proj1 (fuel_view_pre_trip _)).
  reflexivity.
Qed.

Lemma no_fuel_stop_before_loop now segments cycle :
  count_fuel_stops (sched (before_loop now segments cycle)) = 0%nat.
Proof.
  rewrite before_loop_eq.
  rewrite (proj2 (fuel_view_set_remaining_miles _ _)), (proj2 (fuel_view_pickup _)),
    (proj2 (fuel_view_drive_to_pickup _ _)), (proj2 (fuel_view_pre_trip _)).
  reflexivity.
Qed.

Lemma count_fuel_stops_dropoff s :
  count_fuel_stops (sched (dropoff_and_post_trip s)) = count_fuel_stops (sched s).
Proof.
  rewrite dropoff_and_post_trip_eq. cbn [sched].
  rewrite !count_fuel_stops_app.
  repeat change (count_fuel_stops [_]) with 0%nat. lia.
Qed.

(** The fuel stops of a returned schedule are those of driving the miles
    after the pickup with a full range. *)
Lemma schedule_fuel_run fuel now route cycle res seg0 rest :
  segments_of route = seg0 :: rest ->
  compute_schedule_for_route fuel now route cycle = Some res ->
  fuel_run (sum_of distance rest / METERS_PER_MILE) FUEL_RANGE_MILES
           (count_fuel_stops (schedule res)).
Proof.
  unfold segments_of. intros Hsegs Hres.
  destruct (compute_schedule_for_route_some _ _ _ _ _ Hres)
    as [[Hf _]|(f0 & rest0 & s & Hf & Hloop & Hs)]; rewrite Hf in Hsegs;
    [discriminate|].
  rewrite Hsegs in Hloop.
  destruct (while_loop_fuel_run _ _ _ Hloop) as (k & Hk & Hc).
  rewrite miles_until_fuel_before_loop in Hk.
  rewrite no_fuel_stop_before_loop in Hc.
  rewrite Hs, count_fuel_stops_dropoff, Hc. exact Hk.
Qed.

(** C9.  The leg to the pickup leaves [miles_until_fuel] as it is, so the
    loop is entered with the full fuel range whatever the first segment;
    in the loop only a driving leg changes the counter.  Hence the number
    of fuel stops does not depend on the first segment: two routes that
    differ in it only (and any cycle hours and clock readings) give
    schedules with the same number of fuel stops. *)
Theorem pickup_leg_leaves_fuel_counter :
  (forall segments s,
      miles_until_fuel (drive_to_pickup segments s) = miles_until_fuel s) /\
  (forall now segments cycle,
      miles_until_fuel (before_loop now segments cycle) = FUEL_RANGE_MILES) /\
  (forall s, rule_of s <> RDrive ->
             miles_until_fuel (loop_body s) = miles_until_fuel s) /\
  (forall fuel fuel' now now' route route' cycle cycle' res res' seg0 seg0' rest,
      segments_of route = seg0 :: rest ->
      segments_of route' = seg0' :: rest ->
      compute_schedule_for_route fuel now route cycle = Some res ->
      compute_schedule_for_route fuel' now' route' cycle' = Some res' ->
      count_fuel_stops (schedule res) = count_fuel_stops (schedule res')).
Proof.
  split; [|split; [|split]].
  - intros segments s. exact (proj1 (fuel_view_drive_to_pickup segments s)).
  - exact miles_until_fuel_before_loop.
  - intros s R. exact (proj1 (proj2 (fuel_view_rest s R))).
  - intros fuel fuel' now now' route route' cycle cycle' res res' seg0 seg0' rest
           Hs Hs' Hres Hres'.
    exact (fuel_run_deterministic _ _ _
             (schedule_fuel_run _ _ _ _ _ _ _ Hs Hres) _
             (schedule_fuel_run _ _ _ _ _ _ _ Hs' Hres')).
Qed.

(** ** From a daily rest to the next break *)

Lemma driving_since_daily_rest_snoc l p :
  driving_since_daily_rest (l ++ [p])
  = daily_step (driving_since_daily_rest l) p.
Proof. unfold driving_since_daily_rest. now rewrite fold_left_app. Qed.

Lemma bounded_since_daily_rest_nil : bounded_since_daily_rest [].
Proof.
  intros l1 l2 w E. symmetry in E. apply app_eq_nil in E. destruct E as [-> _].
  discriminate.
Qed.

Lemma bounded_since_daily_rest_snoc l p :
  bounded_since_daily_rest l ->
  (forall w, driving_since_daily_rest (l ++ [p]) = Some w ->
             (0 <= w <= BREAK_AFTER_US)%Z) ->
  bounded_since_daily_rest (l ++ [p]).
Proof.
  intros Hl Hp l1 l2 w E Hw.
  destruct l2 as [|a l2'] using rev_ind.
  - rewrite app_nil_r in E. subst l1. now apply Hp.
  - rewrite app_assoc in E. apply app_inj_tail in E. destruct E as [E _].
    exact (Hl _ _ _ E Hw).
Qed.

(** In a window without mandatory break, a running count grows by the
    driving time of the window. *)
Lemma driving_since_daily_rest_window window :
  (forall q, In q window -> is_break q = false) ->
  forall w0,
    fold_left daily_step window (Some w0) = Some (w0 + driving_time window)%Z.
Proof.
  induction window as [|q window IH]; intros Hw w0; simpl.
  - f_equal. lia.
  - assert (Hw' : forall q', In q' window -> is_break q' = false)
      by (intros q' Hin; apply Hw; now right).
    unfold daily_step at 2.
    destruct (is_driving q); simpl.
    + rewrite (IH Hw'). f_equal. lia.
    + rewrite (Hw q (or_introl eq_refl)).
      destruct (is_daily_rest q); now apply IH.
Qed.

Lemma daily_step_daily_rest acc p :
  well_tagged p -> is_daily_rest p = true ->
  exists w, daily_step acc p = Some w /\ (acc = None -> w = 0%Z) /\
            (forall w0, acc = Some w0 -> w = w0).
Proof.
  unfold well_tagged. intros T D.
  unfold daily_step, is_driving, is_break, is_daily_rest in *.
  destruct (period_note p); try discriminate D; rewrite T; simpl;
    destruct acc as [w0|]; eexists; (split; [reflexivity|]);
    (split; [intro E|intros w1 E]); congruence.
Qed.

(** The statement about windows, from the bound at every point. *)
Lemma bounded_daily_window l l1 p window l2 :
  bounded_since_daily_rest l ->
  l = l1 ++ p :: window ++ l2 ->
  well_tagged p -> is_daily_rest p = true ->
  (forall q, In q window -> is_break q = false) ->
  (driving_time window <= BREAK_AFTER_US)%Z.
Proof.
  intros Hb E Tp Hp Hw.
  destruct (daily_step_daily_rest (driving_since_daily_rest l1) p Tp Hp)
    as (w0 & H0 & _).
  rewrite <- driving_since_daily_rest_snoc in H0.
  assert (E0 : l = (l1 ++ [p]) ++ (window ++ l2))
    by (rewrite E, <- app_assoc; reflexivity).
  pose proof (Hb _ _ _ E0 H0) as B0.
  assert (E1 : l = ((l1 ++ [p]) ++ window) ++ l2)
    by (rewrite E, <- !app_assoc; reflexivity).
  assert (H1 : driving_since_daily_rest ((l1 ++ [p]) ++ window)
               = Some (w0 + driving_time window)%Z).
  { unfold driving_since_daily_rest in *. rewrite fold_left_app, H0.
    now apply driving_since_daily_rest_window. }
  pose proof (Hb _ _ _ E1 H1) as B1. lia.
Qed.

Lemma daily_inv_bounds s w :
  daily_inv s -> driving_since_daily_rest (sched s) = Some w ->
  (0 <= w <= BREAK_AFTER_US)%Z.
Proof.
  intros (_ & H) Hw. rewrite BREAK_AFTER_US_eq in *.
  destruct (H w Hw) as [(n & Hn & -> & _)|[B _]]; [|assumption].
  unfold US_PER_HOUR. lia.
Qed.

(** Emitting one period: the new count has to satisfy the invariant. *)
Lemma daily_inv_emit s s' p :
  daily_inv s ->
  sched s' = sched s ++ [p] ->
  (forall w, daily_step (driving_since_daily_rest (sched s)) p = Some w ->
     (exists n : Z, (0 <= n <= 8)%Z /\ w = (n * US_PER_HOUR)%Z /\
                    driving_since_break s' == inject_Z n /\
                    driving_today s' == inject_Z n /\
                    on_duty_today s' <= (7 # 4) * driving_since_break s') \/
     ((0 <= w <= BREAK_AFTER_US)%Z /\ remaining_miles s' <= 0)) ->
  daily_inv s'.
Proof.
  intros (Hb & Hw) Es Hw'. unfold daily_inv. rewrite Es. split.
  - apply bounded_since_daily_rest_snoc; [assumption|].
    intros w E. rewrite driving_since_daily_rest_snoc in E.
    destruct (Hw' w E) as [(n & Hn & -> & _)|[B _]]; [|assumption].
    rewrite BREAK_AFTER_US_eq. unfold US_PER_HOUR. lia.
  - intros w E. rewrite driving_since_daily_rest_snoc in E. now apply Hw'.
Qed.

Lemma daily_zero s' :
  driving_since_break s' = 0 -> driving_today s' = 0 -> on_duty_today s' = 0 ->
  (exists n : Z, (0 <= n <= 8)%Z /\ 0%Z = (n * US_PER_HOUR)%Z /\
                 driving_since_break s' == inject_Z n /\
                 driving_today s' == inject_Z n /\
                 on_duty_today s' <= (7 # 4) * driving_since_break s') \/
  ((0 <= 0 <= BREAK_AFTER_US)%Z /\ remaining_miles s' <= 0).
Proof.
  intros -> -> ->. left. exists 0%Z.
  split; [lia|]. split; [lia|]. split; [reflexivity|]. split; [reflexivity|].
  discriminate.
Qed.

(** The mandatory break ends the count. *)
Lemma daily_inv_mandatory_break (s : state) :
  daily_inv s -> daily_inv (mandatory_break s).
Proof.
  intro Inv. rewrite mandatory_break_eq.
  eapply (daily_inv_emit s _ _ Inv); [reflexivity|].
  intros w E. unfold daily_step in E. cbn in E. discriminate.
Qed.

(** When the daily limit is reached no count runs: between a daily rest
    and the break after it the limits of the day are out of reach. *)
Lemma no_count_at_daily_limit (s : state) :
  rule_of s = RDaily -> 0 < remaining_miles s -> daily_inv s ->
  driving_since_daily_rest (sched s) = None.
Proof.
  intros R Hpos (_ & Hw). pose proof (rule_of_spec s) as Sp. rewrite R in Sp.
  destruct Sp as (S1 & S2).
  unfold BREAK_AFTER_HRS, MAX_DRIVE_HRS, MAX_ON_DUTY_HRS in *.
  destruct (driving_since_daily_rest (sched s)) as [w|] eqn:E; [|reflexivity].
  exfalso.
  destruct (Hw w eq_refl) as [(n & Hn & _ & Hd & Ht & Ho)|[_ Hr]]; [|lra].
  destruct S2 as [S2|S2]; lra.
Qed.

Lemma daily_inv_daily_limit (s : state) :
  rule_of s = RDaily -> 0 < remaining_miles s ->
  daily_inv s -> daily_inv (daily_limit s).
Proof.
  intros R Hpos Inv.
  pose proof (no_count_at_daily_limit s R Hpos Inv) as Hn.
  rewrite daily_limit_eq.
  destruct (Qltb 50 (remaining_miles s));
    [destruct (Qltb 100 (remaining_miles s))|].
  - set (sleeper := mkPeriod "Sleeper" (t s) (t s + timedelta_hours (sleeper_hours s))
                             NSleeper (miles_driven s)).
    assert (Inv1 : daily_inv
                     (mkState (t s) (sched s ++ [sleeper]) (miles_driven s) 0 0 0
                              (cycle_used s) (miles_until_fuel s) (remaining_miles s))).
    { eapply (daily_inv_emit s _ _ Inv); [reflexivity|].
      intros w E. rewrite Hn in E. unfold daily_step in E. cbn in E.
      injection E as <-. apply daily_zero; reflexivity. }
    eapply (daily_inv_emit _ _ _ Inv1); [reflexivity|].
    intros w E. cbn [sched] in E.
    rewrite driving_since_daily_rest_snoc, Hn in E.
    unfold daily_step in E. cbn in E. injection E as <-.
    apply daily_zero; reflexivity.
  - eapply (daily_inv_emit s _ _ Inv); [reflexivity|].
    intros w E. rewrite Hn in E. unfold daily_step in E. cbn in E.
    injection E as <-. apply daily_zero; reflexivity.
  - eapply (daily_inv_emit s _ _ Inv); [reflexivity|].
    intros w E. rewrite Hn in E. unfold daily_step in E. cbn in E.
    injection E as <-. apply daily_zero; reflexivity.
Qed.

(** The 34 hour restart leaves the count and the daily counters alone. *)
Lemma daily_inv_cycle_restart (s : state) :
  daily_inv s -> daily_inv (cycle_restart s).
Proof.
  intro Inv. rewrite cycle_restart_eq.
  pose proof Inv as (_ & Hw).
  eapply (daily_inv_emit s _ _ Inv); [reflexivity|].
  intros w E. unfold daily_step in E. cbn in E. exact (Hw w E).
Qed.

(** A driving leg while a count runs is a whole hour, or the last leg. *)
Lemma daily_inv_driving_leg (s : state) :
  rule_of s = RDrive -> 0 < remaining_miles s ->
  daily_inv s ->
  daily_inv (driving_leg s) /\
  (forall w, driving_since_daily_rest (sched (driving_leg s)) = Some w ->
             0 < remaining_miles (driving_leg s) ->
             on_duty_today (driving_leg s) + (3 # 4)
             <= (7 # 4) * driving_since_break (driving_leg s)).
Proof.
  intros R Hpos Inv.
  destruct (hours_this_leg_facts s R Hpos) as (H0 & H1 & Hcase).
  destruct (timedelta_hours_leg _ H0 H1) as [T0 T1].
  pose proof Inv as (_ & Hw).
  assert (Es : sched (driving_leg s) = sched s ++
            [mkPeriod "Driving" (t s) (t s + timedelta_hours (hours_this_leg s))
                      (NDrive (miles_this_leg s)) (miles_driven s)])
    by (rewrite driving_leg_eq; reflexivity).
  assert (Ef : driving_since_break (driving_leg s)
               = driving_since_break s + hours_this_leg s /\
               driving_today (driving_leg s) = driving_today s + hours_this_leg s /\
               on_duty_today (driving_leg s) = on_duty_today s + hours_this_leg s)
    by (rewrite driving_leg_eq; repeat split).
  destruct Ef as (Ed & Et & Eo).
  assert (Ec : driving_since_daily_rest (sched (driving_leg s))
               = option_map (fun w => w + timedelta_hours (hours_this_leg s))%Z
                            (driving_since_daily_rest (sched s))).
  { rewrite Es, driving_since_daily_rest_snoc. unfold daily_step. cbn.
    destruct (driving_since_daily_rest (sched s)); [|reflexivity].
    cbn. unfold duration_us. cbn [start end_]. f_equal. lia. }
  assert (Hblk : blocked (driving_leg s) ->
                 forall n : Z, (0 <= n < 8)%Z ->
                   driving_today s == inject_Z n ->
                   driving_since_break s == inject_Z n ->
                   on_duty_today s <= (7 # 4) * driving_since_break s ->
                   remaining_miles (driving_leg s) <= 0).
  { intros [B|[B|B]] n Hn Ht Hd Ho; [| |exact B]; exfalso;
      rewrite ?Et, ?Eo in B; unfold MAX_DRIVE_HRS, MAX_ON_DUTY_HRS in B;
      assert (Hn7 : inject_Z n <= 7)
        by (change 7 with (inject_Z 7); rewrite <- Zle_Qle; lia);
      lra. }
  split.
  - apply (daily_inv_emit s _ _ Inv Es).
    intros w' E. rewrite <- driving_since_daily_rest_snoc, <- Es, Ec in E.
    destruct (driving_since_daily_rest (sched s)) as [w|] eqn:Ew; [|discriminate].
    cbn in E. injection E as <-.
    destruct (Hw w eq_refl) as [(n & Hn & -> & Hd & Ht & Ho)|[_ Hr]]; [|exfalso; lra].
    pose proof (rule_of_spec s) as Sp. rewrite R in Sp. destruct Sp as (S1 & _).
    unfold BREAK_AFTER_HRS in S1.
    assert (Hn7 : (n < 8)%Z).
    { rewrite Zlt_Qlt. change (inject_Z 8) with 8. lra. }
    destruct Hcase as [Hone|Hb].
    + left. exists (n + 1)%Z.
      split; [lia|]. split; [rewrite (timedelta_hours_one _ Hone); lia|].
      rewrite Ed, Et, Eo, inject_Z_plus. change (inject_Z 1) with 1.
      split; [lra|]. split; lra.
    + right. split.
      * rewrite BREAK_AFTER_US_eq. unfold US_PER_HOUR in *. lia.
      * exact (Hblk Hb n ltac:(lia) Ht Hd Ho).
  - intros w' E Hrem. rewrite Ec in E.
    destruct (driving_since_daily_rest (sched s)) as [w|] eqn:Ew; [|discriminate].
    destruct (Hw w eq_refl) as [(n & Hn & _ & Hd & Ht & Ho)|[_ Hr]]; [|exfalso; lra].
    pose proof (rule_of_spec s) as Sp. rewrite R in Sp. destruct Sp as (S1 & _).
    unfold BREAK_AFTER_HRS in S1.
    assert (Hn7 : (n < 8)%Z).
    { rewrite Zlt_Qlt. change (inject_Z 8) with 8. lra. }
    destruct Hcase as [Hone|Hb].
    + rewrite Ed, Eo. lra.
    + exfalso. pose proof (Hblk Hb n ltac:(lia) Ht Hd Ho). lra.
Qed.

(** The fuel stop is on duty: one stop per leg fits the bound on
    [on_duty_today]. *)
Lemma daily_inv_fuel_check (s : state) :
  daily_inv s ->
  (forall w, driving_since_daily_rest (sched s) = Some w ->
             0 < remaining_miles s ->
             on_duty_today s + (3 # 4) <= (7 # 4) * driving_since_break s) ->
  daily_inv (fuel_check s).
Proof.
  intros Inv Hod. rewrite fuel_check_eq.
  destruct (Qle_bool (miles_until_fuel s) 0 && Qltb 0 (remaining_miles s)) eqn:Ef;
    [|assumption].
  apply andb_true_iff in Ef. destruct Ef as [_ Hrem]. apply Qltb_true in Hrem.
  pose proof Inv as (_ & Hw).
  eapply (daily_inv_emit s _ _ Inv); [reflexivity|].
  intros w E. unfold daily_step in E. cbn in E.
  destruct (Hw w E) as [(n & Hn & Ew & Hd & Ht & Ho)|[_ Hr]]; [|exfalso; lra].
  left. exists n. cbn [driving_since_break driving_today on_duty_today].
  split; [exact Hn|]. split; [exact Ew|]. split; [exact Hd|]. split; [exact Ht|].
  pose proof (Hod w E Hrem) as H. unfold FUEL_STOP_MIN.
  setoid_replace (inject_Z 45 / 60) with (3 # 4) by reflexivity. exact H.
Qed.

Lemma daily_inv_loop_body (s : state) :
  daily_inv s -> 0 < remaining_miles s -> daily_inv (loop_body s).
Proof.
  intros Inv Hpos. rewrite loop_body_eq. destruct (rule_of s) eqn:R.
  - now apply daily_inv_mandatory_break.
  - now apply daily_inv_daily_limit.
  - now apply daily_inv_cycle_restart.
  - destruct (daily_inv_driving_leg s R Hpos Inv) as [Inv1 Hod].
    now apply daily_inv_fuel_check.
Qed.

(** Before the loop no daily rest is emitted. *)
Lemma daily_inv_no_count s s' p :
  daily_inv s ->
  driving_since_daily_rest (sched s) = None ->
  sched s' = sched s ++ [p] ->
  is_daily_rest p = false ->
  daily_inv s' /\ driving_since_daily_rest (sched s') = None.
Proof.
  intros Inv Hn Es Hp.
  assert (E : daily_step (driving_since_daily_rest (sched s)) p = None).
  { rewrite Hn. unfold daily_step. rewrite Hp.
    destruct (is_driving p); [reflexivity|]. destruct (is_break p); reflexivity. }
  split.
  - apply (daily_inv_emit s _ _ Inv Es). intros w Hw. rewrite E in Hw. discriminate.
  - now rewrite Es, driving_since_daily_rest_snoc.
Qed.

Lemma daily_inv_set_remaining_miles v s :
  daily_inv s -> driving_since_daily_rest (sched s) = None ->
  daily_inv (set_remaining_miles v s).
Proof.
  intros (B & _) N. rewrite set_remaining_miles_eq. split; [exact B|].
  cbn [sched]. intros w E. congruence.
Qed.

Lemma daily_inv_before_loop now segments cycle :
  daily_inv (before_loop now segments cycle).
Proof.
  rewrite before_loop_eq.
  assert (P0 : daily_inv (initial_state now cycle) /\
               driving_since_daily_rest (sched (initial_state now cycle)) = None).
  { split; [|reflexivity]. split; [apply bounded_since_daily_rest_nil|].
    intros w E. discriminate. }
  assert (P1 : daily_inv (pre_trip (initial_state now cycle)) /\
               driving_since_daily_rest (sched (pre_trip (initial_state now cycle)))
               = None).
  { destruct P0 as [I0 N0].
    eapply (daily_inv_no_count _ _ _ I0 N0); rewrite ?pre_trip_eq; reflexivity. }
  assert (P2 : daily_inv (drive_to_pickup segments (pre_trip (initial_state now cycle))) /\
               driving_since_daily_rest
                 (sched (drive_to_pickup segments (pre_trip (initial_state now cycle))))
               = None).
  { destruct segments as [|seg0 rest]; [now rewrite drive_to_pickup_nil|].
    destruct P1 as [I1 N1].
    eapply (daily_inv_no_count _ _ _ I1 N1); rewrite ?drive_to_pickup_cons;
      reflexivity. }
  assert (P3 : daily_inv (pickup (drive_to_pickup segments
                                    (pre_trip (initial_state now cycle)))) /\
               driving_since_daily_rest
                 (sched (pickup (drive_to_pickup segments
                                   (pre_trip (initial_state now cycle))))) = None).
  { destruct P2 as [I2 N2].
    eapply (daily_inv_no_count _ _ _ I2 N2); rewrite ?pickup_eq; reflexivity. }
  destruct P3 as [I3 N3]. now apply daily_inv_set_remaining_miles.
Qed.

Lemma bounded_since_daily_rest_dropoff s :
  daily_inv s -> bounded_since_daily_rest (sched (dropoff_and_post_trip s)).
Proof.
  intro Inv. rewrite dropoff_and_post_trip_eq. cbn [sched].
  pose proof Inv as (Hb & Hw).
  apply bounded_since_daily_rest_snoc;
    [apply bounded_since_daily_rest_snoc; [assumption|]|].
  - intros w E. rewrite driving_since_daily_rest_snoc in E.
    unfold daily_step in E. cbn in E.
    exact (daily_inv_bounds s w Inv E).
  - intros w E. rewrite !driving_since_daily_rest_snoc in E.
    unfold daily_step in E. cbn in E.
    exact (daily_inv_bounds s w Inv E).
Qed.

(** C3.  With no negative distance in the route, the driving between a
    reset-type rest and the next mandatory break never exceeds 8 hours, in
    both readings of the window.  First: after any daily rest (the split
    Sleeper period, its OffDuty completion, the 10 hour OffDuty reset) and
    as long as no mandatory break follows, the Driving periods add up to
    at most 8 hours.  Second: after any OffDuty or Sleeper period
    whatever, as long as the driving is continuous (no mandatory break and
    no daily rest follows; a 34 hour restart may, it does not reset the
    driving since the break), the Driving periods add up to at most 8
    hours. *)
Theorem continuous_driving_at_most_8h fuel now route cycle res :
  nonneg_segments (segments_of route) ->
  compute_schedule_for_route fuel now route cycle = Some res ->
  (forall l1 p window l2,
      schedule res = l1 ++ p :: window ++ l2 ->
      is_daily_rest p = true ->
      (forall q, In q window -> is_break q = false) ->
      (driving_time window <= BREAK_AFTER_US)%Z) /\
  (forall l1 p window l2,
      schedule res = l1 ++ p :: window ++ l2 ->
      is_rest p = true ->
      (forall q, In q window -> is_rest q = true -> is_restart q = true) ->
      (driving_time window <= BREAK_AFTER_US)%Z).
Proof.
  unfold segments_of. intros W Hres.
  pose proof (schedule_well_tagged _ _ _ _ _ Hres) as Tagged.
  destruct (compute_schedule_for_route_some _ _ _ _ _ Hres)
    as [[_ ->]|(f0 & rest & s & Hf & Hloop & Hs)].
  - split; intros l1 p window l2 E; destruct l1; discriminate E.
  - rewrite Hf in W. rewrite Hs in *. split.
    + intros l1 p window l2 E Hp Hwin.
      destruct (while_loop_invariant daily_inv daily_inv_loop_body _ _ _
                  (daily_inv_before_loop now _ cycle) Hloop) as [Inv _].
      assert (Tp : well_tagged p).
      { rewrite Forall_forall in Tagged. apply Tagged. rewrite E.
        apply in_or_app. right. now left. }
      exact (bounded_daily_window _ _ _ _ _
               (bounded_since_daily_rest_dropoff s Inv) E Tp Hp Hwin).
    + intros l1 p window l2 E Hp Hwin.
      destruct (while_loop_invariant window_inv window_inv_loop_body _ _ _
                  (pre_window_inv _ (pre_window_before_loop now _ cycle W)) Hloop)
        as [Inv _].
      exact (bounded_window _ _ _ _ _ (bounded_dropoff s Inv) E Hp Hwin).
Qed.

(** ** The state before the loop *)

Lemma before_loop_fields now segments cycle :
  sched (before_loop now segments cycle) = opening_periods now segments /\
  t (before_loop now segments cycle) = pickup_end now segments /\
  miles_driven (before_loop now segments cycle) = miles_to_pickup segments /\
  remaining_miles (before_loop now segments cycle) = miles_after_pickup segments /\
  miles_until_fuel (before_loop now segments cycle) = FUEL_RANGE_MILES.
Proof. destruct segments; repeat split; reflexivity. Qed.

Lemma sched_dropoff s :
  sched (dropoff_and_post_trip s)
  = sched s ++ closing_periods (t s) (miles_driven s).
Proof. rewrite dropoff_and_post_trip_eq. cbn [sched]. now rewrite <- app_assoc. Qed.

(** What a returned result of a route with a feature is made of. *)
Lemma compute_schedule_for_route_run fuel now route cycle res :
  get_or_empty (features_key route) <> [] ->
  compute_schedule_for_route fuel now route cycle = Some res ->
  exists s,
    while_loop fuel (before_loop now (segments_of route) cycle) = Some s /\
    schedule res = sched s ++ closing_periods (t s) (miles_driven s) /\
    total_miles res = round2 (route_miles (segments_of route)).
Proof.
  unfold compute_schedule_for_route, segments_of, route_miles.
  destruct (get_or_empty (features_key route)) as [|f0 rest]; [congruence|].
  intros _. destruct (while_loop _ _) as [s|] eqn:E; [|discriminate].
  intros [= <-]. exists s. split; [reflexivity|]. split; [|reflexivity].
  cbn [schedule]. apply sched_dropoff.
Qed.

(** ** The shape of the schedule *)

(** An iteration of the loop appends periods of the loop. *)
Lemma loop_body_emits s :
  exists l, sched (loop_body s) = sched s ++ l /\ forallb is_loop_period l = true.
Proof.
  rewrite loop_body_eq. destruct (rule_of s).
  - rewrite mandatory_break_eq. eexists. split; reflexivity.
  - rewrite daily_limit_eq.
    destruct (Qltb 50 (remaining_miles s));
      [destruct (Qltb 100 (remaining_miles s))|]; cbn [sched].
    + rewrite <- app_assoc. eexists. split; reflexivity.
    + eexists. split; reflexivity.
    + eexists. split; reflexivity.
  - rewrite cycle_restart_eq. eexists. split; reflexivity.
  - rewrite fuel_check_eq, driving_leg_eq.
    cbn [sched miles_until_fuel remaining_miles].
    destruct (_ && _); cbn [sched].
    + rewrite <- app_assoc. eexists. split; reflexivity.
    + eexists. split; reflexivity.
Qed.

Lemma while_loop_emits fuel :
  forall s s', while_loop fuel s = Some s' ->
  exists l, sched s' = sched s ++ l /\ forallb is_loop_period l = true.
Proof.
  intros s s' Hrun.
  destruct (while_loop_invariant
              (fun s1 => exists l, sched s1 = sched s ++ l /\
                                   forallb is_loop_period l = true)) with
      (fuel := fuel) (s := s) (s' := s') as [H _]; try assumption.
  - intros s1 (l & E & F) _. destruct (loop_body_emits s1) as (l' & E' & F').
    exists (l ++ l'). split.
    + now rewrite E', E, app_assoc.
    + rewrite forallb_app, F, F'. reflexivity.
  - exists []. split; [now rewrite app_nil_r|reflexivity].
Qed.

(** ** The order of the periods *)

Lemma last_note_snoc l p : last_note (l ++ [p]) = Some (period_note p).
Proof. unfold last_note. now rewrite fold_left_app. Qed.

Lemma last_note_nth l i p :
  nth_error l i = Some p -> S i = List.length l ->
  last_note l = Some (period_note p).
Proof.
  destruct l as [|a l'] using rev_ind; [discriminate|]. clear IHl'.
  rewrite length_app. simpl. intros Hp Hi.
  rewrite nth_error_app2 in Hp by lia.
  replace (i - List.length l')%nat with 0%nat in Hp by lia.
  injection Hp as <-. apply last_note_snoc.
Qed.

Lemma in_order_nil : in_order [].
Proof. intros [|i] p q H; discriminate. Qed.

Lemma in_order_snoc l q :
  in_order l ->
  (forall n, last_note l = Some n -> may_follow n (period_note q) = true) ->
  in_order (l ++ [q]).
Proof.
  intros Hl Hq i p q' Hp Hq'.
  assert (Hlen : (S i < List.length (l ++ [q]))%nat)
    by (apply nth_error_Some; congruence).
  rewrite length_app in Hlen. simpl in Hlen.
  destruct (Nat.eq_dec (S i) (List.length l)) as [E|NE].
  - rewrite nth_error_app2 in Hq' by lia.
    replace (S i - List.length l)%nat with 0%nat in Hq' by lia.
    injection Hq' as <-.
    rewrite nth_error_app1 in Hp by lia.
    apply Hq. now apply (last_note_nth l i p).
  - rewrite nth_error_app1 in Hp by lia.
    rewrite nth_error_app1 in Hq' by lia.
    exact (Hl _ _ _ Hp Hq').
Qed.

(** Emitting one period after the last one. *)
Lemma order_inv_emit s s' q :
  order_inv s ->
  sched s' = sched s ++ [q] ->
  (forall n, last_note (sched s) = Some n -> after_note n s ->
             may_follow n (period_note q) = true) ->
  after_note (period_note q) s' ->
  order_inv s'.
Proof.
  intros (Ho & n & Hn & Ha) Es Hq Ha'. split.
  - rewrite Es. apply in_order_snoc; [assumption|].
    intros n' Hn'. apply Hq; [assumption|].
    rewrite Hn in Hn'. injection Hn' as <-. exact Ha.
  - exists (period_note q). split; [|exact Ha'].
    rewrite Es. apply last_note_snoc.
Qed.

Lemma order_inv_before_loop now segments cycle :
  order_inv (before_loop now segments cycle).
Proof.
  destruct (before_loop_fields now segments cycle) as (Es & _).
  unfold order_inv. rewrite Es. split.
  - destruct segments as [|seg0 rest].
    + intros [|[|i]] p q Hp Hq; try discriminate.
      injection Hp as <-. injection Hq as <-. reflexivity.
    + intros [|[|[|i]]] p q Hp Hq; try discriminate;
        injection Hp as <-; injection Hq as <-; reflexivity.
  - exists NPickup. split; [|exact I]. destruct segments; reflexivity.
Qed.

Ltac order_cases :=
  let n := fresh "n" in
  let Hl := fresh "Hl" in
  let Ha := fresh "Ha" in
  intros n Hl Ha; destruct n; try reflexivity;
  cbn [after_note] in Ha; exfalso;
  try contradiction.

Lemma order_inv_loop_body s :
  order_inv s -> 0 < remaining_miles s -> order_inv (loop_body s).
Proof.
  intros Inv Hpos. rewrite loop_body_eq.
  pose proof (rule_of_spec s) as Sp.
  destruct (rule_of s) eqn:R.
  - (* the break *)
    eapply (order_inv_emit s _ _ Inv);
      [rewrite mandatory_break_eq; reflexivity| |].
    + order_cases.
      * destruct Ha as [Ha _]. lra.
      * destruct Ha as [Ha _]. lra.
      * destruct Ha as [Ha _]. lra.
      * destruct Ha as [Ha _]. lra.
      * destruct Ha as [Ha _]. rewrite R in Ha. discriminate.
    + rewrite mandatory_break_eq.
      cbn [period_note after_note driving_since_break remaining_miles].
      split; [reflexivity|assumption].
  - (* the daily rest *)
    destruct Sp as [S1 S2].
    assert (Hrest : forall m, m = NSleeper \/ m = NDailyReset ->
              forall n, last_note (sched s) = Some n -> after_note n s ->
                        may_follow n m = true).
    { intros m Hm n Hl Ha.
      destruct n; cbn [after_note] in Ha; try contradiction;
        try (destruct Hm as [-> | ->]; reflexivity); exfalso.
      - destruct Ha as (_ & A2 & A3 & _). destruct S2; lra.
      - destruct Ha as (_ & A2 & A3 & _). destruct S2; lra.
      - destruct Ha as (_ & A2 & A3 & _). destruct S2; lra.
      - destruct Ha as [Ha _]. rewrite R in Ha. discriminate. }
    assert (Hzero : forall s', driving_since_break s' = 0 -> driving_today s' = 0 ->
                               on_duty_today s' = 0 ->
                               remaining_miles s' = remaining_miles s ->
                               driving_since_break s' < BREAK_AFTER_HRS /\
                               driving_today s' < MAX_DRIVE_HRS /\
                               on_duty_today s' < MAX_ON_DUTY_HRS /\
                               0 < remaining_miles s').
    { intros s' -> -> -> ->. repeat split; try reflexivity. assumption. }
    rewrite daily_limit_eq.
    destruct (Qltb 50 (remaining_miles s));
      [destruct (Qltb 100 (remaining_miles s))|].
    + set (sleeper := mkPeriod "Sleeper" (t s) (t s + timedelta_hours (sleeper_hours s))
                               NSleeper (miles_driven s)).
      assert (Inv1 : order_inv
                       (mkState (t s) (sched s ++ [sleeper]) (miles_driven s) 0 0 0
                                (cycle_used s) (miles_until_fuel s) (remaining_miles s))).
      { eapply (order_inv_emit s _ _ Inv); [reflexivity| |].
        - apply Hrest. now left.
        - apply Hzero; reflexivity. }
      eapply (order_inv_emit _ _ _ Inv1); [reflexivity| |].
      * intros n Hl _. cbn [sched] in Hl. rewrite last_note_snoc in Hl.
        injection Hl as <-. reflexivity.
      * apply Hzero; reflexivity.
    + eapply (order_inv_emit s _ _ Inv); [reflexivity| |].
      * apply Hrest. now left.
      * apply Hzero; reflexivity.
    + eapply (order_inv_emit s _ _ Inv); [reflexivity| |].
      * apply Hrest. now right.
      * apply Hzero; reflexivity.
  - (* the restart *)
    destruct Sp as (S1 & S2 & S3 & S4).
    eapply (order_inv_emit s _ _ Inv);
      [rewrite cycle_restart_eq; reflexivity| |].
    + order_cases.
      destruct Ha as [Ha _]. rewrite R in Ha. discriminate.
    + rewrite cycle_restart_eq. cbn [period_note after_note remaining_miles].
      split; [|assumption].
      apply rule_of_drive_intro; try assumption. reflexivity.
  - (* a leg, and the fuel stop *)
    assert (Inv1 : order_inv (driving_leg s)).
    { eapply (order_inv_emit s _ _ Inv);
        [rewrite driving_leg_eq; reflexivity| |].
      - order_cases.
      - rewrite driving_leg_eq. exact I. }
    rewrite fuel_check_eq.
    destruct (Qle_bool (miles_until_fuel (driving_leg s)) 0) eqn:E1;
      [|exact Inv1].
    destruct (Qltb 0 (remaining_miles (driving_leg s))) eqn:E2;
      [|exact Inv1].
    cbn [andb].
    eapply (order_inv_emit _ _ _ Inv1); [reflexivity| |].
    + intros n Hl _. rewrite driving_leg_eq in Hl. cbn [sched] in Hl.
      rewrite last_note_snoc in Hl. injection Hl as <-. reflexivity.
    + cbn [period_note after_note remaining_miles]. now apply Qltb_true.
Qed.

Lemma in_order_dropoff s :
  order_inv s -> remaining_miles s <= 0 ->
  in_order (sched s ++ closing_periods (t s) (miles_driven s)).
Proof.
  intros (Ho & n & Hn & Ha) Hrem.
  unfold closing_periods. cbv zeta.
  change (sched s ++ [?a; ?b]) with (sched s ++ [a] ++ [b]).
  rewrite app_assoc.
  apply in_order_snoc; [apply in_order_snoc; [assumption|]|].
  - intros n' Hn'. rewrite Hn in Hn'. injection Hn' as <-.
    destruct n; try reflexivity; cbn [after_note] in Ha; exfalso;
      try contradiction.
    + destruct Ha as [_ Ha]. lra.
    + destruct Ha as (_ & _ & _ & Ha). lra.
    + destruct Ha as (_ & _ & _ & Ha). lra.
    + destruct Ha as (_ & _ & _ & Ha). lra.
    + destruct Ha as [_ Ha]. lra.
    + lra.
  - intros n' Hn'. rewrite last_note_snoc in Hn'. injection Hn' as <-.
    reflexivity.
Qed.

(** The function on a route with a feature, through [segments_of]. *)
Lemma compute_schedule_for_route_eq fuel now route cycle :
  get_or_empty (features_key route) <> [] ->
  compute_schedule_for_route fuel now route cycle =
  match while_loop fuel (before_loop now (segments_of route) cycle) with
  | None => None
  | Some s =>
    Some (mkResult (sched (dropoff_and_post_trip s))
                   (round2 (route_miles (segments_of route)))
                   (round2 (sum_of duration (segments_of route) / 3600)))
  end.
Proof.
  unfold compute_schedule_for_route, segments_of, route_miles.
  destruct (get_or_empty (features_key route)) as [|f0 rest]; [congruence|].
  reflexivity.
Qed.

(** X1.  The schedule of a route with a feature starts with the periods
    before the loop (the 30 minute inspection at the clock reading, the
    drive to the pickup when the route has a segment, the 60 minute
    pickup), ends with the 60 minute unloading and the 10 hour rest that
    follows it, and has only periods of the loop in between: breaks, daily
    rests, restarts, legs and fuel stops. *)
Theorem schedule_shape fuel now route cycle res :
  get_or_empty (features_key route) <> [] ->
  compute_schedule_for_route fuel now route cycle = Some res ->
  exists middle t_end miles,
    schedule res = opening_periods now (segments_of route) ++ middle
                   ++ closing_periods t_end miles /\
    forallb is_loop_period middle = true.
Proof.
  intros Hf Hres.
  destruct (compute_schedule_for_route_run _ _ _ _ _ Hf Hres) as (s & Hloop & Hs & _).
  destruct (while_loop_emits _ _ _ Hloop) as (middle & Em & Fm).
  destruct (before_loop_fields now (segments_of route) cycle) as (Eb & _).
  exists middle, (t s), (miles_driven s). split; [|exact Fm].
  now rewrite Hs, Em, Eb, <- app_assoc.
Qed.

(** X2.  When no miles are left after the pickup (the route has one
    segment or none, or the segments after the first have no length), the
    loop is not entered: the function returns for every bound on the
    iterations, and the schedule is the periods before the loop followed
    by the unloading and the rest, however long the drive to the pickup
    is.  No break and no rest is scheduled on the way to the pickup. *)
Theorem direct_trip_has_no_loop_period fuel now route cycle :
  get_or_empty (features_key route) <> [] ->
  miles_after_pickup (segments_of route) <= 0 ->
  exists res,
    compute_schedule_for_route fuel now route cycle = Some res /\
    schedule res
    = opening_periods now (segments_of route)
      ++ closing_periods (pickup_end now (segments_of route))
                         (miles_to_pickup (segments_of route)).
Proof.
  intros Hf Hrem.
  destruct (before_loop_fields now (segments_of route) cycle)
    as (Eb & Et & Em & Er & _).
  rewrite (compute_schedule_for_route_eq _ _ _ _ Hf).
  rewrite loop_done by (rewrite Er; exact Hrem).
  eexists. split; [reflexivity|].
  cbn [schedule]. now rewrite sched_dropoff, Eb, Et, Em.
Qed.

(** X3.  In a returned schedule every period is one that the control flow
    lets follow the period before it ([may_follow]).  In particular a 34
    hour restart is always followed by a driving leg, a mandatory break is
    never followed by another break, a daily rest is followed by a restart
    or a leg, a fuel stop comes only after a leg, and the unloading comes
    after the pickup or after a leg. *)
Theorem schedule_in_order fuel now route cycle res :
  compute_schedule_for_route fuel now route cycle = Some res ->
  forall i p q,
    nth_error (schedule res) i = Some p ->
    nth_error (schedule res) (S i) = Some q ->
    may_follow (period_note p) (period_note q) = true.
Proof.
  intro Hres.
  destruct (get_or_empty (features_key route)) as [|f0 rest] eqn:Hf.
  - unfold compute_schedule_for_route in Hres. rewrite Hf in Hres.
    injection Hres as <-. intros [|i] p q H; discriminate.
  - assert (Hne : get_or_empty (features_key route) <> []) by congruence.
    destruct (compute_schedule_for_route_run _ _ _ _ _ Hne Hres)
      as (s & Hloop & Hs & _).
    destruct (while_loop_invariant order_inv order_inv_loop_body _ _ _
                (order_inv_before_loop now _ cycle) Hloop) as [Inv Hrem].
    rewrite Hs. exact (in_order_dropoff s Inv Hrem).
Qed.

(** ** The legs of the loop *)

Lemma miles_this_leg_facts s :
  0 < remaining_miles s ->
  0 < miles_this_leg s /\ miles_this_leg s <= AVG_SPEED_MPH /\
  miles_this_leg s <= remaining_miles s.
Proof.
  intro Hpos. unfold miles_this_leg. split; [|split].
  - apply min2_pos; [assumption|reflexivity].
  - apply min2_le_r.
  - apply min2_le_l.
Qed.

(** A leg is a full one, or it takes all the miles that remain. *)
Lemma miles_this_leg_cases s :
  miles_this_leg s = AVG_SPEED_MPH \/
  remaining_miles s - miles_this_leg s <= 0.
Proof.
  unfold miles_this_leg.
  destruct (min2_spec (remaining_miles s) AVG_SPEED_MPH) as [[_ ->]|[_ ->]].
  - left. reflexivity.
  - right. lra.
Qed.

Lemma legs_snoc l p :
  legs (l ++ [p]) = legs l ++ (if is_leg p then [p] else []).
Proof. unfold legs. rewrite filter_app. reflexivity. Qed.

(** Emitting a period that is not a leg, with the same miles remaining. *)
Lemma legs_inv_emit s s' p :
  legs_inv s ->
  sched s' = sched s ++ [p] ->
  is_leg p = false ->
  remaining_miles s' = remaining_miles s ->
  legs_inv s'.
Proof.
  intros (HF & Hl & Hr) Es Hp Er. unfold legs_inv.
  rewrite Es, legs_snoc, Hp, app_nil_r, Er. split; [|split; assumption].
  apply Forall_app. split; [assumption|].
  apply Forall_cons; [|apply Forall_nil]. intro C. congruence.
Qed.

Lemma legs_inv_fuel_check s : legs_inv s -> legs_inv (fuel_check s).
Proof.
  intro Inv. rewrite fuel_check_eq. destruct (_ && _); [|assumption].
  eapply (legs_inv_emit s _ _ Inv); reflexivity.
Qed.

Lemma legs_inv_driving_leg s :
  rule_of s = RDrive -> 0 < remaining_miles s ->
  legs_inv s -> legs_inv (driving_leg s).
Proof.
  intros R Hpos (HF & _ & Hr).
  destruct (miles_this_leg_facts s Hpos) as (M0 & M1 & _).
  destruct (hours_this_leg_facts s R Hpos) as (H0 & H1 & _).
  destruct (timedelta_hours_leg _ H0 H1) as [T0 T1].
  assert (Hfull : Forall full_leg (legs (sched s)))
    by (destruct Hr as [Hr|Hr]; [exact Hr|exfalso; lra]).
  rewrite driving_leg_eq. unfold legs_inv. cbn [sched remaining_miles].
  rewrite legs_snoc. cbn [is_leg period_note]. rewrite removelast_last.
  split; [|split; [exact Hfull|]].
  - apply Forall_app. split; [assumption|].
    apply Forall_cons; [|apply Forall_nil]. intros _.
    unfold leg_miles, duration_us. cbn [period_note start end_].
    split; [exact M0|]. split; [exact M1|]. lia.
  - destruct (miles_this_leg_cases s) as [E|E]; [left|right; exact E].
    apply Forall_app. split; [exact Hfull|].
    apply Forall_cons; [exact E|apply Forall_nil].
Qed.

Lemma legs_inv_loop_body s :
  legs_inv s -> 0 < remaining_miles s -> legs_inv (loop_body s).
Proof.
  intros Inv Hpos. rewrite loop_body_eq. destruct (rule_of s) eqn:R.
  - eapply (legs_inv_emit s _ _ Inv); rewrite ?mandatory_break_eq; reflexivity.
  - rewrite daily_limit_eq.
    destruct (Qltb 50 (remaining_miles s));
      [destruct (Qltb 100 (remaining_miles s))|].
    + set (sleeper := mkPeriod "Sleeper" (t s) (t s + timedelta_hours (sleeper_hours s))
                               NSleeper (miles_driven s)).
      assert (Inv1 : legs_inv
                       (mkState (t s) (sched s ++ [sleeper]) (miles_driven s) 0 0 0
                                (cycle_used s) (miles_until_fuel s) (remaining_miles s)))
        by (eapply (legs_inv_emit s _ _ Inv); reflexivity).
      eapply (legs_inv_emit _ _ _ Inv1); reflexivity.
    + eapply (legs_inv_emit s _ _ Inv); reflexivity.
    + eapply (legs_inv_emit s _ _ Inv); reflexivity.
  - eapply (legs_inv_emit s _ _ Inv); rewrite ?cycle_restart_eq; reflexivity.
  - now apply legs_inv_fuel_check, legs_inv_driving_leg.
Qed.

Lemma legs_inv_before_loop now segments cycle :
  legs_inv (before_loop now segments cycle).
Proof.
  destruct (before_loop_fields now segments cycle) as (Es & _).
  unfold legs_inv. rewrite Es.
  assert (E : legs (opening_periods now segments) = [])
    by (destruct segments; reflexivity).
  rewrite E. split; [|split; [apply Forall_nil|left; apply Forall_nil]].
  assert (N : forall p, is_leg p = false -> leg_within_speed p)
    by (intros p E' C; congruence).
  destruct segments; cbn [opening_periods]; cbv zeta;
    repeat (apply Forall_cons; [apply N; reflexivity|]); apply Forall_nil.
Qed.

(** X5.  The loop drives in legs of at most one hour at the average
    speed.  Every leg of a returned schedule covers more than 0 and at
    most 55 miles (the miles that its note formats) and lasts between 0
    and 1 hour; and every leg but the last one covers exactly 55 miles:
    a shorter leg takes all the miles that remain, and ends the loop. *)
Theorem legs_of_the_loop fuel now route cycle res :
  compute_schedule_for_route fuel now route cycle = Some res ->
  Forall leg_within_speed (schedule res) /\
  Forall full_leg (removelast (legs (schedule res))).
Proof.
  intro Hres.
  destruct (get_or_empty (features_key route)) as [|f0 rest] eqn:Hf.
  - unfold compute_schedule_for_route in Hres. rewrite Hf in Hres.
    injection Hres as <-. split; constructor.
  - assert (Hne : get_or_empty (features_key route) <> []) by congruence.
    destruct (compute_schedule_for_route_run _ _ _ _ _ Hne Hres)
      as (s & Hloop & Hs & _).
    destruct (while_loop_invariant legs_inv legs_inv_loop_body _ _ _
                (legs_inv_before_loop now _ cycle) Hloop) as [(HF & Hl & _) _].
    rewrite Hs. unfold closing_periods. cbv zeta. split.
    + apply Forall_app. split; [assumption|].
      repeat (apply Forall_cons; [intro C; discriminate C|]). apply Forall_nil.
    + unfold legs in *. rewrite filter_app. cbn [filter is_leg period_note].
      rewrite app_nil_r. exact Hl.
Qed.

(** ** The miles between fuel stops *)

Lemma fuel_gaps_from_snoc l p :
  fuel_gaps_from (l ++ [p]) = gap_step (fuel_gaps_from l) p.
Proof. unfold fuel_gaps_from. now rewrite fold_left_app. Qed.

Lemma fuel_gaps_length l :
  List.length (fuel_gaps l) = count_fuel_stops l.
Proof.
  unfold fuel_gaps, count_fuel_stops.
  induction l as [|p l IH] using rev_ind; [reflexivity|].
  rewrite fuel_gaps_from_snoc, filter_app, length_app. cbn [filter].
  unfold gap_step.
  replace (is_fuel_stop p)
    with (match period_note p with NFuelStop => true | _ => false end)
    by reflexivity.
  destruct (period_note p); cbn [snd List.length]; rewrite ?length_app;
    cbn [List.length]; lia.
Qed.

(** Emitting a period that is neither the pickup nor a fuel stop, with the
    miles and the fuel counter as they are. *)
Lemma gap_inv_emit s s' p :
  gap_inv s ->
  sched s' = sched s ++ [p] ->
  gap_step (fuel_gaps_from (sched s)) p = fuel_gaps_from (sched s) ->
  miles_until_fuel s' = miles_until_fuel s ->
  miles_driven s' = miles_driven s ->
  remaining_miles s' = remaining_miles s ->
  gap_inv s'.
Proof.
  intros (HF & Hm & Hp) Es Hg E1 E2 E3. unfold gap_inv, fuel_gaps in *.
  rewrite Es, fuel_gaps_from_snoc, Hg, E1, E2, E3.
  split; [assumption|]. split; assumption.
Qed.

Lemma gap_inv_loop_body s :
  gap_inv s -> 0 < remaining_miles s -> gap_inv (loop_body s).
Proof.
  intros Inv Hpos. rewrite loop_body_eq. destruct (rule_of s) eqn:R.
  - eapply (gap_inv_emit s _ _ Inv); rewrite ?mandatory_break_eq; reflexivity.
  - rewrite daily_limit_eq.
    destruct (Qltb 50 (remaining_miles s));
      [destruct (Qltb 100 (remaining_miles s))|].
    + set (sleeper := mkPeriod "Sleeper" (t s) (t s + timedelta_hours (sleeper_hours s))
                               NSleeper (miles_driven s)).
      assert (Inv1 : gap_inv
                       (mkState (t s) (sched s ++ [sleeper]) (miles_driven s) 0 0 0
                                (cycle_used s) (miles_until_fuel s) (remaining_miles s)))
        by (eapply (gap_inv_emit s _ _ Inv); reflexivity).
      eapply (gap_inv_emit _ _ _ Inv1); reflexivity.
    + eapply (gap_inv_emit s _ _ Inv); reflexivity.
    + eapply (gap_inv_emit s _ _ Inv); reflexivity.
  - eapply (gap_inv_emit s _ _ Inv); rewrite ?cycle_restart_eq; reflexivity.
  - destruct Inv as (HF & Hm & Hp).
    destruct (miles_this_leg_facts s Hpos) as (M0 & M1 & _).
    assert (Hmuf : 0 < miles_until_fuel s) by (destruct Hp; [assumption|lra]).
    unfold AVG_SPEED_MPH in M1.
    rewrite fuel_check_eq, driving_leg_eq.
    cbn [miles_until_fuel remaining_miles sched miles_driven t].
    destruct (Qle_bool (miles_until_fuel s - miles_this_leg s) 0) eqn:E1;
      [destruct (Qltb 0 (remaining_miles s - miles_this_leg s)) eqn:E2|];
      cbn [andb]; unfold gap_inv, fuel_gaps;
      cbn [sched miles_until_fuel miles_driven remaining_miles];
      rewrite !fuel_gaps_from_snoc; unfold gap_step;
      cbn [period_note miles_since_start fst snd].
    + apply Qle_bool_iff in E1. split; [|split].
      * apply Forall_app. split; [exact HF|].
        constructor; [|constructor].
        unfold fuel_gap_ok, FUEL_RANGE_MILES, AVG_SPEED_MPH in *.
        split; lra.
      * unfold FUEL_RANGE_MILES. ring.
      * left. reflexivity.
    + apply Qltb_false in E2. split; [exact HF|]. split; [|right; exact E2].
      rewrite Hm. ring.
    + apply Qle_bool_false in E1. split; [exact HF|]. split; [|left; exact E1].
      rewrite Hm. ring.
Qed.

Lemma gap_inv_before_loop now segments cycle :
  gap_inv (before_loop now segments cycle).
Proof.
  destruct (before_loop_fields now segments cycle) as (Es & _ & Em & _ & Ef).
  unfold gap_inv, fuel_gaps. rewrite Es, Em, Ef.
  assert (E : fuel_gaps_from (opening_periods now segments)
              = (miles_to_pickup segments, []))
    by (destruct segments; reflexivity).
  rewrite E. cbn [fst snd]. split; [constructor|]. split.
  - ring.
  - left. reflexivity.
Qed.

(** X6.  Fuel stops are spaced by the fuel range: from the pickup to the
    first fuel stop, and from each fuel stop to the next, at least 1000
    and less than 1055 miles are driven (the range, overrun by less than
    one leg).  The miles before the pickup do not count. *)
Theorem fuel_stops_are_spaced fuel now route cycle res :
  compute_schedule_for_route fuel now route cycle = Some res ->
  List.length (fuel_gaps (schedule res)) = count_fuel_stops (schedule res) /\
  Forall fuel_gap_ok (fuel_gaps (schedule res)).
Proof.
  intro Hres. split; [apply fuel_gaps_length|].
  destruct (get_or_empty (features_key route)) as [|f0 rest] eqn:Hf.
  - unfold compute_schedule_for_route in Hres. rewrite Hf in Hres.
    injection Hres as <-. constructor.
  - assert (Hne : get_or_empty (features_key route) <> []) by congruence.
    destruct (compute_schedule_for_route_run _ _ _ _ _ Hne Hres)
      as (s & Hloop & Hs & _).
    destruct (while_loop_invariant gap_inv gap_inv_loop_body _ _ _
                (gap_inv_before_loop now _ cycle) Hloop) as [(HF & _) _].
    rewrite Hs. unfold closing_periods. cbv zeta.
    change (sched s ++ [?a; ?b]) with (sched s ++ [a] ++ [b]).
    rewrite app_assoc. unfold fuel_gaps in *.
    rewrite !fuel_gaps_from_snoc. exact HF.
Qed.

(** ** The durations of the periods *)

Lemma duration_us_from (a d : Z) st n m :
  duration_us (mkPeriod st a (a + d) n m) = d.
Proof. unfold duration_us. cbn [start end_]. lia. Qed.

Lemma has_duration_fixed st a d n m :
  fixed_duration n = Some d ->
  has_duration (mkPeriod st a (a + d) n m).
Proof.
  intro H. unfold has_duration. rewrite duration_us_from. cbn [period_note].
  destruct n; try exact H; discriminate H.
Qed.

Lemma has_duration_sleeper s :
  rule_of s = RDaily -> driving_today s <= on_duty_today s ->
  has_duration (mkPeriod "Sleeper" (t s) (t s + timedelta_hours (sleeper_hours s))
                         NSleeper (miles_driven s)).
Proof.
  intros R Hd. pose proof (rule_of_spec s) as Sp. rewrite R in Sp.
  destruct Sp as [_ Sp]. unfold MAX_DRIVE_HRS, MAX_ON_DUTY_HRS in Sp.
  unfold has_duration. rewrite duration_us_from. cbn [period_note].
  rewrite <- (timedelta_hours_Z 3). apply timedelta_hours_mono.
  unfold sleeper_hours, MAX_ON_DUTY_HRS. change (inject_Z 3) with 3.
  eapply Qle_trans; [apply min2_le_r|]. destruct Sp; lra.
Qed.

Lemma has_duration_one l st a d n m :
  Forall has_duration l ->
  fixed_duration n = Some d ->
  Forall has_duration (l ++ [mkPeriod st a (a + d) n m]).
Proof.
  intros H E. apply Forall_app; split; [assumption|].
  apply Forall_cons; [|apply Forall_nil]. now apply has_duration_fixed.
Qed.

Ltac duration_tac :=
  apply has_duration_one; [assumption|];
  cbn [fixed_duration];
  rewrite ?timedelta_hours_reset, ?timedelta_hours_restart,
    ?timedelta_hours_completion;
  reflexivity.

Lemma durations_inv_pre_trip s : durations_inv s -> durations_inv (pre_trip s).
Proof.
  intros [H Hd]. rewrite pre_trip_eq. split.
  - cbn [sched]. duration_tac.
  - cbn [driving_today on_duty_today]. lra.
Qed.

Lemma durations_inv_drive_to_pickup segments s :
  durations_inv s -> durations_inv (drive_to_pickup segments s).
Proof.
  intros [H Hd]. destruct segments as [|seg0 rest];
    [rewrite drive_to_pickup_nil; now split|].
  rewrite drive_to_pickup_cons. split.
  - cbn [sched]. apply Forall_app; split; [assumption|].
    apply Forall_cons; [|apply Forall_nil].
    unfold has_duration. rewrite duration_us_from. reflexivity.
  - cbn [driving_today on_duty_today]. lra.
Qed.

Lemma durations_inv_pickup s : durations_inv s -> durations_inv (pickup s).
Proof.
  intros [H Hd]. rewrite pickup_eq. split.
  - cbn [sched]. duration_tac.
  - cbn [driving_today on_duty_today]. unfold PICKUP_MIN.
    assert (0 <= inject_Z 60 / 60) by (vm_compute; discriminate). lra.
Qed.

Lemma durations_inv_fuel_check s :
  durations_inv s -> durations_inv (fuel_check s).
Proof.
  intros [H Hd]. rewrite fuel_check_eq. destruct (_ && _); [|now split]. split.
  - cbn [sched]. duration_tac.
  - cbn [driving_today on_duty_today]. unfold FUEL_STOP_MIN.
    assert (0 <= inject_Z 45 / 60) by (vm_compute; discriminate). lra.
Qed.

Lemma durations_inv_loop_body s :
  durations_inv s -> 0 < remaining_miles s -> durations_inv (loop_body s).
Proof.
  intros [H Hd] Hpos. rewrite loop_body_eq. destruct (rule_of s) eqn:R.
  - rewrite mandatory_break_eq. split; [cbn [sched]; duration_tac|exact Hd].
  - pose proof (has_duration_sleeper s R Hd) as Hs.
    assert (H1 : Forall has_duration
                   (sched s ++ [mkPeriod "Sleeper" (t s)
                                         (t s + timedelta_hours (sleeper_hours s))
                                         NSleeper (miles_driven s)])).
    { apply Forall_app; split; [assumption|].
      apply Forall_cons; [exact Hs|apply Forall_nil]. }
    rewrite daily_limit_eq.
    destruct (Qltb 50 (remaining_miles s));
      [destruct (Qltb 100 (remaining_miles s))|];
      (split; [cbn [sched]|apply Qle_refl]).
    + clear H. duration_tac.
    + exact H1.
    + duration_tac.
  - rewrite cycle_restart_eq. split; [cbn [sched]; duration_tac|exact Hd].
  - apply durations_inv_fuel_check. rewrite driving_leg_eq. split.
    + cbn [sched]. apply Forall_app; split; [assumption|].
      apply Forall_cons; [|apply Forall_nil].
      unfold has_duration. rewrite duration_us_from. cbn [period_note].
      destruct (hours_this_leg_facts s R Hpos) as (H0 & H1 & _).
      split.
      * apply timedelta_hours_nonneg. now apply Qlt_le_weak.
      * apply timedelta_hours_mono. unfold hours_this_leg.
        destruct (min3_spec (miles_this_leg s / AVG_SPEED_MPH)
                            (MAX_DRIVE_HRS - driving_today s)
                            (MAX_ON_DUTY_HRS - on_duty_today s))
          as [(-> & _)|[(-> & A & _)|(-> & A & _)]];
          [apply Qle_refl|now apply Qlt_le_weak|now apply Qlt_le_weak].
    + cbn [driving_today on_duty_today]. lra.
Qed.

Lemma has_duration_dropoff s :
  Forall has_duration (sched s) ->
  Forall has_duration (sched (dropoff_and_post_trip s)).
Proof.
  intro H. rewrite dropoff_and_post_trip_eq. cbn [sched].
  assert (H1 : Forall has_duration
                 (sched s ++ [mkPeriod "OnDutyNotDriving" (t s)
                                       (t s + timedelta_minutes DROPOFF_MIN)
                                       NUnload (miles_driven s)]))
    by duration_tac.
  clear H. duration_tac.
Qed.

(** X7.  Every period of a returned schedule has the duration of its
    kind: 30 minutes for the inspection and for the mandatory break, 60
    minutes for the pickup and for the unloading, 45 minutes for a fuel
    stop, 3 hours for the completion of the split rest, 10 hours for the
    daily reset and for the rest after the trip, 34 hours for the restart;
    the drive to the pickup lasts as long as its miles take at 55 mph; a
    leg lasts at most as long as its miles take at 55 mph, and not a
    negative time; the split rest (the Sleeper period) lasts at most 3
    hours, not 7: the daily limit is reached with at least 11 hours on
    duty, so that [min(7, 14 - on_duty_today)] is at most 3. *)
Theorem period_durations fuel now route cycle res :
  compute_schedule_for_route fuel now route cycle = Some res ->
  Forall has_duration (schedule res).
Proof.
  intro Hres.
  destruct (compute_schedule_for_route_some _ _ _ _ _ Hres)
    as [[_ ->]|(f0 & rest & s & Hf & Hloop & Hs)]; [constructor|].
  rewrite Hs.
  destruct (run_invariant durations_inv _ _ _ _ _
              (conj (Forall_nil _) (Qle_refl 0)) durations_inv_pre_trip
              (durations_inv_drive_to_pickup _) durations_inv_pickup
              (fun _ _ H => H) durations_inv_loop_body Hloop)
    as [[H _] _].
  now apply has_duration_dropoff.
Qed.

(** ** The driving of a day *)

Lemma MAX_DRIVE_US_eq : MAX_DRIVE_US = (11 * US_PER_HOUR)%Z.
Proof. vm_compute. reflexivity. Qed.

Lemma driving_of_day_snoc l p :
  driving_of_day (l ++ [p]) = day_step (driving_of_day l) p.
Proof. unfold driving_of_day. now rewrite fold_left_app. Qed.

Lemma bounded_days_nil : bounded_days [].
Proof.
  intros l1 l2 w E. symmetry in E. apply app_eq_nil in E. destruct E as [-> _].
  discriminate.
Qed.

Lemma bounded_days_snoc l p :
  bounded_days l ->
  (forall w, driving_of_day (l ++ [p]) = Some w -> (0 <= w <= MAX_DRIVE_US)%Z) ->
  bounded_days (l ++ [p]).
Proof.
  intros Hl Hp l1 l2 w E Hw.
  destruct l2 as [|a l2'] using rev_ind.
  - rewrite app_nil_r in E. subst l1. now apply Hp.
  - rewrite app_assoc in E. apply app_inj_tail in E. destruct E as [E _].
    exact (Hl _ _ _ E Hw).
Qed.

(** In a window without daily rest, the count grows by the driving time
    of the window. *)
Lemma driving_of_day_window window :
  (forall q, In q window -> is_daily_rest q = false) ->
  forall w0,
    fold_left day_step window (Some w0) = Some (w0 + driving_time window)%Z.
Proof.
  induction window as [|q window IH]; intros Hw w0; simpl.
  - f_equal. lia.
  - assert (Hw' : forall q', In q' window -> is_daily_rest q' = false)
      by (intros q' Hin; apply Hw; now right).
    unfold day_step at 2. rewrite (Hw q (or_introl eq_refl)).
    destruct (is_driving q); simpl; rewrite (IH Hw'); f_equal; lia.
Qed.

(** The statement about days, from the bound at every point. *)
Lemma bounded_day l l1 p window l2 :
  bounded_days l ->
  l = l1 ++ p :: window ++ l2 ->
  is_daily_rest p = true ->
  (forall q, In q window -> is_daily_rest q = false) ->
  (0 <= driving_time window <= MAX_DRIVE_US)%Z.
Proof.
  intros Hb E Hp Hw.
  assert (H0 : driving_of_day (l1 ++ [p]) = Some 0%Z).
  { rewrite driving_of_day_snoc. unfold day_step. now rewrite Hp. }
  assert (E1 : l = ((l1 ++ [p]) ++ window) ++ l2)
    by (rewrite E, <- !app_assoc; reflexivity).
  assert (H1 : driving_of_day ((l1 ++ [p]) ++ window)
               = Some (0 + driving_time window)%Z).
  { unfold driving_of_day in *. rewrite fold_left_app, H0.
    now apply driving_of_day_window. }
  pose proof (Hb _ _ _ E1 H1) as B1. lia.
Qed.

Lemma day_inv_bounds s w :
  day_inv s -> driving_of_day (sched s) = Some w -> (0 <= w <= MAX_DRIVE_US)%Z.
Proof.
  intros (_ & H) Hw. rewrite MAX_DRIVE_US_eq in *.
  destruct (H w Hw) as [(n & Hn & -> & _)|[B _]]; [|assumption].
  unfold US_PER_HOUR. lia.
Qed.

(** Emitting one period: the new count has to satisfy the invariant. *)
Lemma day_inv_emit s s' p :
  day_inv s ->
  sched s' = sched s ++ [p] ->
  (forall w, day_step (driving_of_day (sched s)) p = Some w ->
     (exists n : Z, (0 <= n <= 11)%Z /\ w = (n * US_PER_HOUR)%Z /\
                    inject_Z n <= driving_today s') \/
     ((0 <= w <= MAX_DRIVE_US)%Z /\ blocked s')) ->
  day_inv s'.
Proof.
  intros (Hb & Hw) Es Hw'. unfold day_inv. rewrite Es. split.
  - apply bounded_days_snoc; [assumption|].
    intros w E. rewrite driving_of_day_snoc in E.
    destruct (Hw' w E) as [(n & Hn & -> & _)|[B _]]; [|assumption].
    rewrite MAX_DRIVE_US_eq. unfold US_PER_HOUR. lia.
  - intros w E. rewrite driving_of_day_snoc in E. now apply Hw'.
Qed.

(** Emitting a period that is neither a daily rest nor a Driving period,
    with [driving_today] as it is and a blocked state staying blocked. *)
Lemma day_inv_keep s s' p :
  day_inv s ->
  sched s' = sched s ++ [p] ->
  is_daily_rest p = false -> is_driving p = false ->
  driving_today s' = driving_today s ->
  (blocked s -> blocked s') ->
  day_inv s'.
Proof.
  intros Inv Es H1 H2 Ed Hblk. pose proof Inv as (_ & Hw).
  apply (day_inv_emit s s' p Inv Es).
  intros w E. unfold day_step in E. rewrite H1, H2 in E.
  destruct (Hw w E) as [H|[B Hb]]; [left|right].
  - now rewrite Ed.
  - split; [exact B|now apply Hblk].
Qed.

Lemma day_zero_hours s' :
  driving_today s' = 0 ->
  (exists n : Z, (0 <= n <= 11)%Z /\ 0%Z = (n * US_PER_HOUR)%Z /\
                 inject_Z n <= driving_today s') \/
  ((0 <= 0 <= MAX_DRIVE_US)%Z /\ blocked s').
Proof.
  intro H. left. exists 0%Z. rewrite H.
  split; [lia|]. split; [lia|apply Qle_refl].
Qed.

Lemma day_inv_driving_leg (s : state) :
  rule_of s = RDrive -> 0 < remaining_miles s ->
  day_inv s -> day_inv (driving_leg s).
Proof.
  intros R Hpos Inv.
  destruct (hours_this_leg_facts s R Hpos) as (H0 & H1 & Hcase).
  destruct (timedelta_hours_leg _ H0 H1) as [T0 T1].
  pose proof (rule_of_spec s) as Sp. rewrite R in Sp.
  destruct Sp as (S1 & S2 & S3 & _).
  unfold BREAK_AFTER_HRS, MAX_DRIVE_HRS, MAX_ON_DUTY_HRS in *.
  pose proof Inv as (_ & Hw).
  assert (Es : sched (driving_leg s) = sched s ++
            [mkPeriod "Driving" (t s) (t s + timedelta_hours (hours_this_leg s))
                      (NDrive (miles_this_leg s)) (miles_driven s)])
    by (rewrite driving_leg_eq; reflexivity).
  assert (Ed : driving_today (driving_leg s) = driving_today s + hours_this_leg s)
    by (rewrite driving_leg_eq; reflexivity).
  apply (day_inv_emit s _ _ Inv Es).
  intros w' E. unfold day_step in E. cbn in E.
  destruct (driving_of_day (sched s)) as [w|] eqn:Ec; [|discriminate].
  cbn in E. injection E as <-.
  rewrite duration_us_from.
  destruct (Hw w eq_refl) as [(n & Hn & -> & Hle)|[_ Hb]].
  - assert (Hn10 : (n < 11)%Z).
    { rewrite Zlt_Qlt.
      apply Qle_lt_trans with (driving_today s); [exact Hle|exact S2]. }
    destruct Hcase as [Hone|Hblk].
    + left. exists (n + 1)%Z. split; [lia|]. split.
      * rewrite (timedelta_hours_one _ Hone). lia.
      * rewrite Ed, inject_Z_plus. change (inject_Z 1) with 1. lra.
    + right. split; [|exact Hblk].
      rewrite MAX_DRIVE_US_eq. unfold US_PER_HOUR in *. lia.
  - exfalso. destruct Hb as [Hb|[Hb|Hb]];
      unfold MAX_DRIVE_HRS, MAX_ON_DUTY_HRS in Hb; lra.
Qed.

Lemma day_inv_fuel_check (s : state) : day_inv s -> day_inv (fuel_check s).
Proof.
  intro Inv. rewrite fuel_check_eq. destruct (_ && _); [|assumption].
  eapply (day_inv_keep s _ _ Inv); try reflexivity.
  unfold blocked. cbn [driving_today on_duty_today remaining_miles].
  intros [Hb|[Hb|Hb]]; [left; exact Hb| |right; right; exact Hb].
  right; left. unfold FUEL_STOP_MIN.
  assert (0 <= inject_Z 45 / 60) by (vm_compute; discriminate).
  lra.
Qed.

Lemma day_inv_loop_body (s : state) :
  day_inv s -> 0 < remaining_miles s -> day_inv (loop_body s).
Proof.
  intros Inv Hpos. rewrite loop_body_eq. destruct (rule_of s) eqn:R.
  - rewrite mandatory_break_eq.
    eapply (day_inv_keep s _ _ Inv); try reflexivity. exact (fun H => H).
  - rewrite daily_limit_eq.
    destruct (Qltb 50 (remaining_miles s));
      [destruct (Qltb 100 (remaining_miles s))|].
    + set (sleeper := mkPeriod "Sleeper" (t s) (t s + timedelta_hours (sleeper_hours s))
                               NSleeper (miles_driven s)).
      assert (Inv1 : day_inv
                       (mkState (t s) (sched s ++ [sleeper]) (miles_driven s) 0 0 0
                                (cycle_used s) (miles_until_fuel s) (remaining_miles s))).
      { eapply (day_inv_emit s _ _ Inv); [reflexivity|].
        intros w E. unfold day_step in E. cbn in E. injection E as <-.
        now apply day_zero_hours. }
      eapply (day_inv_emit _ _ _ Inv1); [reflexivity|].
      intros w E. unfold day_step in E. cbn in E. injection E as <-.
      now apply day_zero_hours.
    + eapply (day_inv_emit s _ _ Inv); [reflexivity|].
      intros w E. unfold day_step in E. cbn in E. injection E as <-.
      now apply day_zero_hours.
    + eapply (day_inv_emit s _ _ Inv); [reflexivity|].
      intros w E. unfold day_step in E. cbn in E. injection E as <-.
      now apply day_zero_hours.
  - rewrite cycle_restart_eq.
    eapply (day_inv_keep s _ _ Inv); try reflexivity. exact (fun H => H).
  - now apply day_inv_fuel_check, day_inv_driving_leg.
Qed.

Lemma day_inv_before_loop now segments cycle :
  day_inv (before_loop now segments cycle).
Proof.
  destruct (before_loop_fields now segments cycle) as (Es & _).
  unfold day_inv. rewrite Es.
  assert (N : forall l1 l2, opening_periods now segments = l1 ++ l2 ->
                            driving_of_day l1 = None).
  { intros l1 l2 E.
    destruct segments as [|seg0 rest]; cbn [opening_periods] in E; cbv zeta in E.
    - destruct l1 as [|a [|b [|c l1]]]; try reflexivity;
        simpl in E; injection E; intros; subst; try reflexivity.
      destruct l1; discriminate.
    - destruct l1 as [|a [|b [|c [|d l1]]]]; try reflexivity;
        simpl in E; injection E; intros; subst; try reflexivity.
      destruct l1; discriminate. }
  split.
  - intros l1 l2 w E Hw. rewrite (N l1 l2 E) in Hw. discriminate.
  - intros w Hw. rewrite (N _ [] (eq_sym (app_nil_r _))) in Hw. discriminate.
Qed.

Lemma bounded_days_dropoff s :
  day_inv s -> bounded_days (sched (dropoff_and_post_trip s)).
Proof.
  intro Inv. rewrite dropoff_and_post_trip_eq. cbn [sched].
  pose proof Inv as (Hb & Hw).
  apply bounded_days_snoc; [apply bounded_days_snoc; [assumption|]|].
  - intros w E. rewrite driving_of_day_snoc in E.
    unfold day_step in E. cbn in E.
    exact (day_inv_bounds s w Inv E).
  - intros w E. rewrite !driving_of_day_snoc in E.
    unfold day_step in E. cbn in E.
    exact (day_inv_bounds s w Inv E).
Qed.

(** X8.  From the first daily rest on, the driving of a day is at most 11
    hours: after any daily rest (the split Sleeper period, its OffDuty
    completion, the 10 hour OffDuty reset) and as long as no daily rest
    follows, the Driving periods add up to at most 11 hours, whatever
    breaks, fuel stops and restarts come in between.  Nothing is said of
    the driving before the first daily rest, which includes the drive to
    the pickup. *)
Theorem driving_of_a_day_at_most_11h fuel now route cycle res l1 p window l2 :
  compute_schedule_for_route fuel now route cycle = Some res ->
  schedule res = l1 ++ p :: window ++ l2 ->
  is_daily_rest p = true ->
  (forall q, In q window -> is_daily_rest q = false) ->
  (0 <= driving_time window <= 11 * US_PER_HOUR)%Z.
Proof.
  intros Hres E Hp Hwin. rewrite <- MAX_DRIVE_US_eq.
  destruct (compute_schedule_for_route_some _ _ _ _ _ Hres)
    as [[_ ->]|(f0 & rest & s & Hf & Hloop & Hs)].
  - destruct l1; discriminate E.
  - rewrite Hs in E.
    destruct (while_loop_invariant day_inv day_inv_loop_body _ _ _
                (day_inv_before_loop now _ cycle) Hloop) as [Inv _].
    exact (bounded_day _ _ _ _ _ (bounded_days_dropoff s Inv) E Hp Hwin).
Qed.

(** ** The durations of the segments *)

Lemma sum_of_map (f : segment -> Q) (l : list segment) :
  sum_of f l = fold_left Qplus (map f l) 0.
Proof.
  unfold sum_of. generalize 0. induction l as [|x l IH]; intro a; simpl.
  - reflexivity.
  - apply IH.
Qed.

Lemma before_loop_distances now segments segments' cycle :
  map distance segments = map distance segments' ->
  before_loop now segments cycle = before_loop now segments' cycle.
Proof.
  intro E. rewrite !before_loop_eq.
  assert (Et : sum_of distance (tl segments) = sum_of distance (tl segments')).
  { assert (T : forall l : list segment, map distance (tl l) = tl (map distance l))
      by (intros [|x l]; reflexivity).
    rewrite !sum_of_map, !T. now rewrite E. }
  rewrite Et. f_equal. f_equal.
  destruct segments as [|seg0 rest], segments' as [|seg0' rest'];
    try discriminate E; [reflexivity|].
  injection E as E0 _. rewrite !drive_to_pickup_cons.
  unfold hours_to_pickup, first_leg_distance_mi. now rewrite E0.
Qed.

(** X9.  The schedule does not depend on the durations of the segments:
    two routes whose segments have the same distances get the same
    schedule and the same [total_miles], whatever durations the routing
    service reports.  Only [estimated_drive_hours] reads them. *)
Theorem schedule_ignores_durations fuel now route route' cycle :
  get_or_empty (features_key route) <> [] ->
  get_or_empty (features_key route') <> [] ->
  map distance (segments_of route) = map distance (segments_of route') ->
  option_map schedule (compute_schedule_for_route fuel now route cycle)
  = option_map schedule (compute_schedule_for_route fuel now route' cycle) /\
  option_map total_miles (compute_schedule_for_route fuel now route cycle)
  = option_map total_miles (compute_schedule_for_route fuel now route' cycle).
Proof.
  intros Hf Hf' E.
  rewrite (compute_schedule_for_route_eq _ _ _ _ Hf).
  rewrite (compute_schedule_for_route_eq _ _ _ _ Hf').
  rewrite (before_loop_distances now _ _ cycle E).
  assert (Em : route_miles (segments_of route) = route_miles (segments_of route')).
  { unfold route_miles. rewrite !sum_of_map. now rewrite E. }
  destruct (while_loop _ _) as [s|]; [|split; reflexivity].
  cbn [option_map schedule total_miles]. rewrite Em. split; reflexivity.
Qed.

(** ** The view *)

Lemma no_key_false ors_api_key :
  no_key ors_api_key = false <->
  exists k, ors_api_key = Some k /\ k <> EmptyString.
Proof.
  split.
  - destruct ors_api_key as [[|c k]|]; try discriminate.
    intros _. eexists. split; [reflexivity|discriminate].
  - intros (k & -> & Hk). destruct k; [congruence|reflexivity].
Qed.

(** The response built from the route: it needs a first feature with a
    first segment. *)
Lemma trip_response_ok route res seg0 rest :
  segments_of route = seg0 :: rest ->
  trip_response route res
  = inr (mkResponse (TripData route (summary_of seg0) res) 200%Z, []).
Proof.
  unfold segments_of, trip_response, get_or_empty.
  destruct (features_key route) as [[|f0 fs]|];
    cbn [bind_exc getitem getitem0]; try discriminate.
  destruct (segments_key (feature_properties f0)) as [[|s0 ss]|];
    cbn [bind_exc getitem getitem0]; try discriminate.
  intros [= -> ->]. reflexivity.
Qed.

Lemma trip_response_raises route res :
  segments_of route = [] ->
  exists e, trip_response route res = inl e /\
            (e = KeyError "features" \/ e = KeyError "segments" \/ e = IndexError).
Proof.
  unfold segments_of, trip_response, get_or_empty.
  destruct (features_key route) as [[|f0 fs]|];
    cbn [bind_exc getitem getitem0].
  - intros _. eexists. split; [reflexivity|tauto].
  - destruct (segments_key (feature_properties f0)) as [[|s0 ss]|];
      cbn [bind_exc getitem getitem0];
      try discriminate; intros _; eexists; (split; [reflexivity|tauto]).
  - intros _. eexists. split; [reflexivity|tauto].
Qed.

(** A schedule computed for a route with a segment has the three periods
    before the loop and the two after it. *)
Lemma schedule_length fuel now route cycle res seg0 rest :
  segments_of route = seg0 :: rest ->
  compute_schedule_for_route fuel now route cycle = Some res ->
  (5 <= List.length (schedule res))%nat.
Proof.
  intros Hseg Hres.
  assert (Hf : get_or_empty (features_key route) <> []).
  { unfold segments_of in Hseg. intro E. rewrite E in Hseg. discriminate. }
  destruct (compute_schedule_for_route_run _ _ _ _ _ Hf Hres) as (s & Hloop & Hs & _).
  destruct (while_loop_emits _ _ _ Hloop) as (middle & Em & _).
  destruct (before_loop_fields now (segments_of route) cycle) as (Eb & _).
  rewrite Hs, Em, Eb, Hseg, !length_app. simpl. lia.
Qed.

(** Every answer of the view: an error with status 500, or the trip with
    status 200. *)
Lemma plan_trip_cases fuel now ors_api_key ors data resp out :
  plan_trip fuel now ors_api_key ors data = Some (resp, out) ->
  (http_status resp = 500%Z /\
   exists msg details, data_of resp = ErrorData msg details) \/
  (exists coords k text route seg0 rest res,
      coordinates data = inr coords /\
      ors_api_key = Some k /\ k <> EmptyString /\
      ors k coords = PostReturned 200 text (JsonBody route) /\
      segments_of route = seg0 :: rest /\
      compute_schedule_for_route fuel now route (cycle_hours_of data) = Some res /\
      resp = mkResponse (TripData route (summary_of seg0) res) 200 /\
      out = [PrintReceived data]).
Proof.
  unfold plan_trip, plan_trip_try.
  destruct (coordinates data) as [e|coords] eqn:Ec.
  { intros [= <- <-]. left. split; [reflexivity|]. eexists _, _. reflexivity. }
  destruct (no_key ors_api_key) eqn:Ek.
  { intros [= <- <-]. left. split; [reflexivity|]. eexists _, _. reflexivity. }
  apply no_key_false in Ek. destruct Ek as (k & -> & Hk).
  destruct (ors k coords) as [msg|status_code text json] eqn:Eo.
  { intros [= <- <-]. left. split; [reflexivity|]. eexists _, _. reflexivity. }
  destruct (status_code =? 200)%Z eqn:Es; cbn [negb].
  2:{ intros [= <- <-]. left. split; [reflexivity|]. eexists _, _. reflexivity. }
  apply Z.eqb_eq in Es. subst status_code.
  destruct json as [msg|route].
  { intros [= <- <-]. left. split; [reflexivity|]. eexists _, _. reflexivity. }
  fold (cycle_hours_of data).
  destruct (compute_schedule_for_route fuel now route (cycle_hours_of data))
    as [res|] eqn:Er; [|discriminate].
  destruct (segments_of route) as [|seg0 rest] eqn:Eseg.
  - destruct (trip_response_raises route res Eseg) as (e & -> & _).
    intros [= <- <-]. left. split; [reflexivity|]. eexists _, _. reflexivity.
  - rewrite (trip_response_ok route res seg0 rest Eseg).
    intros [= <- <-]. right.
    exists coords, k, text, route, seg0, rest, res.
    repeat split; assumption.
Qed.

(** X10.  Once line 13 has read the request data, the view answers:
    whatever the data, the key, the routing service and the clock, the
    function returns a response, with status 200 or 500, having printed
    the data first; the loop of the schedule ends, and an exception raised
    in the [try] block becomes a response.  Reading the data is before the
    [try]: when the body of the request cannot be parsed, the exception
    leaves the view, and nothing is printed. *)
Theorem plan_trip_answers_parsed_requests now ors_api_key ors req :
  exists fuel,
    match req with
    | Parsed data =>
      exists resp out,
        plan_trip_of_request fuel now ors_api_key ors req
        = Some (Returns resp (PrintReceived data :: out)) /\
        (http_status resp = 200%Z \/ http_status resp = 500%Z)
    | Unparsable detail =>
      plan_trip_of_request fuel now ors_api_key ors req
      = Some (Raises (LibraryError detail))
    end.
Proof.
  destruct req as [detail|data]; [exists 0%nat; reflexivity|].
  assert (H : exists fuel resp out,
             plan_trip fuel now ors_api_key ors data
             = Some (resp, PrintReceived data :: out)).
  { unfold plan_trip, plan_trip_try.
    destruct (coordinates data) as [e|coords];
      [exists 0%nat; eexists _, _; reflexivity|].
    destruct (no_key ors_api_key);
      [exists 0%nat; eexists _, _; reflexivity|].
    destruct (ors _ coords) as [msg|status_code text json];
      [exists 0%nat; eexists _, _; reflexivity|].
    destruct (negb (status_code =? 200)%Z);
      [exists 0%nat; eexists _, _; reflexivity|].
    destruct json as [msg|route];
      [exists 0%nat; eexists _, _; reflexivity|].
    fold (cycle_hours_of data).
    destruct (compute_schedule_for_route_returns now route (cycle_hours_of data))
      as (fuel & res & Hres).
    exists fuel. rewrite Hres.
    destruct (trip_response route res) as [e|[resp out]];
      eexists _, _; reflexivity. }
  destruct H as (fuel & resp & out & H).
  exists fuel, resp, out. cbn [plan_trip_of_request]. rewrite H.
  split; [reflexivity|].
  destruct (plan_trip_cases _ _ _ _ _ _ _ H)
    as [[H500 _]|(coords & k & text & route & seg0 & rest & res & _ & _ & _ & _ & _ & _ & E & _)];
    [right; exact H500|left; rewrite E; reflexivity].
Qed.

(** X11.  The view answers with status 200 only when the request has the
    three locations with both coordinates, the key is set and not empty,
    the routing service answers the key and the three coordinates with
    status 200 and a JSON body, and the first feature of that body has a
    segment.  Every other answer of the view has status 500, and carries
    an error instead of a trip. *)
Theorem plan_trip_ok_only_if fuel now ors_api_key ors data resp out :
  plan_trip fuel now ors_api_key ors data = Some (resp, out) ->
  (http_status resp = 200%Z ->
   exists coords k text route,
     coordinates data = inr coords /\
     ors_api_key = Some k /\ k <> EmptyString /\
     ors k coords = PostReturned 200 text (JsonBody route) /\
     segments_of route <> []) /\
  (http_status resp <> 200%Z ->
   http_status resp = 500%Z /\
   exists msg details, data_of resp = ErrorData msg details).
Proof.
  intro H. pose proof (plan_trip_cases _ _ _ _ _ _ _ H) as Cases. split.
  - intro H200.
    destruct Cases as [[H500 _]|(coords & k & text & route & seg0 & rest & res
                                 & Ec & Ek & Hk & Eo & Eseg & _)];
      [rewrite H500 in H200; discriminate|].
    exists coords, k, text, route.
    repeat split; try assumption. rewrite Eseg. discriminate.
  - intro Hn.
    destruct Cases as [C|(coords & k & text & route & seg0 & rest & res
                          & _ & _ & _ & _ & _ & _ & -> & _)];
      [exact C|]. exfalso. apply Hn. reflexivity.
Qed.

(** X12.  An answer with status 200 carries the route the routing service
    returned, the schedule computed for it with the cycle hours of the
    request (0 when the request has none), and a summary of the first
    segment alone, in kilometres and hours rounded to two places.  The
    schedule has at least five periods: the empty schedule of a route
    without features never reaches the client.  Nothing but the request
    is printed. *)
Theorem plan_trip_ok_response fuel now ors_api_key ors data resp out :
  plan_trip fuel now ors_api_key ors data = Some (resp, out) ->
  http_status resp = 200%Z ->
  exists coords k text route seg0 rest res,
    ors k coords = PostReturned 200 text (JsonBody route) /\
    segments_of route = seg0 :: rest /\
    compute_schedule_for_route fuel now route (cycle_hours_of data) = Some res /\
    data_of resp = TripData route (summary_of seg0) res /\
    (5 <= List.length (schedule res))%nat /\
    out = [PrintReceived data].
Proof.
  intros H H200.
  destruct (plan_trip_cases _ _ _ _ _ _ _ H)
    as [[H500 _]|(coords & k & text & route & seg0 & rest & res
                  & Ec & Ek & Hk & Eo & Eseg & Er & -> & ->)];
    [rewrite H500 in H200; discriminate|].
  exists coords, k, text, route, seg0, rest, res.
  split; [exact Eo|]. split; [exact Eseg|]. split; [exact Er|].
  split; [reflexivity|]. split; [|reflexivity].
  exact (schedule_length _ _ _ _ _ _ _ Eseg Er).
Qed.

(** X13.  The errors that come before the schedule.  A request without
    one of the coordinates is answered with the missing key as the error,
    whatever the key of the service is; with the coordinates and without
    the key, the answer is that the key was not found; when the service
    answers with another status than 200, its text is passed on as the
    details of the error, and printed.  In the three cases the status is
    500 and the answer depends neither on the clock nor on the bound of
    the loop, and in the first two not on the routing service. *)
Theorem plan_trip_early_errors ors_api_key data :
  (forall e,
      coordinates data = inl e ->
      forall fuel now ors,
        plan_trip fuel now ors_api_key ors data
        = Some (mkResponse (ErrorData (str_of_exception e) None) 500,
                [PrintReceived data; PrintError (str_of_exception e)])) /\
  (forall coords,
      coordinates data = inr coords -> no_key ors_api_key = true ->
      forall fuel now ors,
        plan_trip fuel now ors_api_key ors data
        = Some (mkResponse (ErrorData "ORS_API_KEY not found" None) 500,
                [PrintReceived data])) /\
  (forall coords k ors status_code text json,
      coordinates data = inr coords -> ors_api_key = Some k -> k <> EmptyString ->
      ors k coords = PostReturned status_code text json ->
      status_code <> 200%Z ->
      forall fuel now,
        plan_trip fuel now ors_api_key ors data
        = Some (mkResponse (ErrorData "ORS request failed" (Some text)) 500,
                [PrintReceived data; PrintText text])).
Proof.
  split; [|split].
  - intros e Ec fuel now ors. unfold plan_trip, plan_trip_try.
    now rewrite Ec.
  - intros coords Ec Ek fuel now ors. unfold plan_trip, plan_trip_try.
    now rewrite Ec, Ek.
  - intros coords k ors status_code text json Ec -> Hk Eo Hs fuel now.
    unfold plan_trip, plan_trip_try. rewrite Ec.
    replace (no_key (Some k)) with false
      by (symmetry; apply no_key_false; eauto).
    rewrite Eo. apply Z.eqb_neq in Hs. now rewrite Hs.
Qed.

(** ** The rounded totals *)

Lemma round_half_even_close (q : Q) :
  - (1 # 2) <= inject_Z (round_half_even q) - q /\
  inject_Z (round_half_even q) - q <= 1 # 2.
Proof.
  pose proof (Qfloor_le q) as Lo. pose proof (Qlt_floor q) as Hi.
  rewrite inject_Z_plus in Hi. change (inject_Z 1) with 1 in Hi.
  destruct (round_half_even_cases q) as [[F ->]|[[F [-> | ->]]|[F ->]]];
    rewrite ?inject_Z_plus; change (inject_Z 1) with 1;
    generalize dependent (inject_Z (Qfloor q)); intros; split; lra.
Qed.

Lemma round2_close (q : Q) : Qabs (round2 q - q) <= 1 # 200.
Proof.
  apply Qabs_Qle_condition. unfold round2.
  destruct (round_half_even_close (q * 100)) as [Lo Hi].
  generalize dependent (inject_Z (round_half_even (q * 100))). intros x Lo Hi.
  assert (E : x / 100 - q == (x - q * 100) / 100) by field.
  rewrite E. split.
  - apply Qle_shift_div_l; [reflexivity|]. lra.
  - apply Qle_shift_div_r; [reflexivity|]. lra.
Qed.

(** X14.  The two totals of a result are exact to two places: on a route
    with a feature, [total_miles] is within 0.005 of the miles of all
    segments, and [estimated_drive_hours] within 0.005 of the hours of all
    segments, which the routing service reports in seconds. *)
Theorem totals_are_rounded fuel now route cycle res :
  get_or_empty (features_key route) <> [] ->
  compute_schedule_for_route fuel now route cycle = Some res ->
  Qabs (total_miles res - route_miles (segments_of route)) <= 1 # 200 /\
  Qabs (estimated_drive_hours res - sum_of duration (segments_of route) / 3600)
  <= 1 # 200.
Proof.
  intros Hf Hres. rewrite (compute_schedule_for_route_eq _ _ _ _ Hf) in Hres.
  destruct (while_loop _ _) as [s|]; [|discriminate].
  injection Hres as <-. cbn [total_miles estimated_drive_hours].
  split; apply round2_close.
Qed.

(** ** The theorems at the example inputs *)

(** C1 on [short_trip]: the drive to the pickup ends when the pickup
    starts. *)
Lemma no_gap_no_overlap_witness :
  compute_schedule_for_route 10 0 short_trip 0 = Some short_trip_result /\
  nth_error (schedule short_trip_result) 1
  = Some (nth 1 (schedule short_trip_result) no_period) /\
  nth_error (schedule short_trip_result) 2
  = Some (nth 2 (schedule short_trip_result) no_period) /\
  end_ (nth 1 (schedule short_trip_result) no_period)
  = start (nth 2 (schedule short_trip_result) no_period).
Proof.
  assert (H : compute_schedule_for_route 10 0 short_trip 0 = Some short_trip_result)
    by (vm_compute; reflexivity).
  split; [exact H|]. split; [reflexivity|]. split; [reflexivity|].
  exact (no_gap_no_overlap 10 0 short_trip 0 short_trip_result H 1 _ _
           eq_refl eq_refl).
Defined.

(** C3 on [cross_country]: the split rest is period 15, its completion
    period 16, the next mandatory break period 26; between them eight legs
    of one hour are driven, and a fuel stop is made. *)
Lemma continuous_driving_at_most_8h_witness :
  nonneg_segments (segments_of cross_country) /\
  compute_schedule_for_route 40 0 cross_country 0 = Some cross_country_result /\
  (schedule cross_country_result
   = firstn 15 (schedule cross_country_result)
     ++ nth 15 (schedule cross_country_result) no_period
     :: firstn 10 (skipn 16 (schedule cross_country_result))
     ++ skipn 26 (schedule cross_country_result) /\
   is_daily_rest (nth 15 (schedule cross_country_result) no_period) = true /\
   forallb (fun q => negb (is_break q))
           (firstn 10 (skipn 16 (schedule cross_country_result))) = true /\
   is_break (nth 26 (schedule cross_country_result) no_period) = true /\
   (driving_time (firstn 10 (skipn 16 (schedule cross_country_result)))
    <= BREAK_AFTER_US)%Z) /\
  (schedule cross_country_result
   = firstn 16 (schedule cross_country_result)
     ++ nth 16 (schedule cross_country_result) no_period
     :: firstn 9 (skipn 17 (schedule cross_country_result))
     ++ skipn 26 (schedule cross_country_result) /\
   is_rest (nth 16 (schedule cross_country_result) no_period) = true /\
   forallb (fun q => implb (is_rest q) (is_restart q))
           (firstn 9 (skipn 17 (schedule cross_country_result))) = true /\
   (driving_time (firstn 9 (skipn 17 (schedule cross_country_result)))
    <= BREAK_AFTER_US)%Z).
Proof.
  assert (W : nonneg_segments (segments_of cross_country))
    by (repeat constructor; discriminate).
  assert (H : compute_schedule_for_route 40 0 cross_country 0
              = Some cross_country_result)
    by (vm_compute; reflexivity).
  assert (P1 : forallb (fun q => negb (is_break q))
                       (firstn 10 (skipn 16 (schedule cross_country_result))) = true)
    by reflexivity.
  assert (P2 : forallb (fun q => implb (is_rest q) (is_restart q))
                       (firstn 9 (skipn 17 (schedule cross_country_result))) = true)
    by reflexivity.
  destruct (continuous_driving_at_most_8h 40 0 cross_country 0
              cross_country_result W H) as [T1 T2].
  split; [exact W|]. split; [exact H|]. split.
  - split; [reflexivity|]. split; [reflexivity|]. split; [exact P1|].
    split; [reflexivity|].
    apply (T1 (firstn 15 (schedule cross_country_result))
              (nth 15 (schedule cross_country_result) no_period)
              (firstn 10 (skipn 16 (schedule cross_country_result)))
              (skipn 26 (schedule cross_country_result)) eq_refl eq_refl).
    intros q Hq. rewrite forallb_forall in P1. specialize (P1 q Hq).
    now apply negb_true_iff in P1.
  - split; [reflexivity|]. split; [reflexivity|]. split; [exact P2|].
    apply (T2 (firstn 16 (schedule cross_country_result))
              (nth 16 (schedule cross_country_result) no_period)
              (firstn 9 (skipn 17 (schedule cross_country_result)))
              (skipn 26 (schedule cross_country_result)) eq_refl eq_refl).
    intros q Hq Hr. rewrite forallb_forall in P2. specialize (P2 q Hq).
    rewrite Hr in P2. exact P2.
Defined.

(** C5 on a route without the features key and on [no_segments]. *)
Lemma empty_route_result_witness :
  get_or_empty (features_key (mkRoute None)) = [] /\
  compute_schedule_for_route 0 0 (mkRoute None) 0 = Some empty_result /\
  get_or_empty (features_key no_segments)
  = [mkFeature (mkProperties (Some []))] /\
  get_or_empty (segments_key (feature_properties (mkFeature (mkProperties (Some [])))))
  = [] /\
  exists res,
    compute_schedule_for_route 0 0 no_segments 0 = Some res /\
    schedule res = fixed_periods 0 /\
    total_miles res == 0 /\ estimated_drive_hours res == 0.
Proof.
  split; [reflexivity|].
  split; [exact (proj1 (empty_route_result 0 0 (mkRoute None) 0) eq_refl)|].
  split; [reflexivity|]. split; [reflexivity|].
  exact (proj2 (empty_route_result 0 0 no_segments 0) _ _ eq_refl eq_refl).
Defined.

(** C6 on [long_trip]: the split rest, period 15, is tagged Sleeper. *)
Lemma status_tags_of_schedule_witness :
  compute_schedule_for_route 20 0 long_trip 0 = Some long_trip_result /\
  In (nth 15 (schedule long_trip_result) no_period) (schedule long_trip_result) /\
  In (status (nth 15 (schedule long_trip_result) no_period)) status_tags /\
  (period_note (nth 15 (schedule long_trip_result) no_period) = NSleeper ->
   status (nth 15 (schedule long_trip_result) no_period) = "Sleeper"%string).
Proof.
  assert (H : compute_schedule_for_route 20 0 long_trip 0 = Some long_trip_result)
    by (vm_compute; reflexivity).
  assert (I : In (nth 15 (schedule long_trip_result) no_period)
                 (schedule long_trip_result))
    by (apply (nth_error_In _ 15); reflexivity).
  split; [exact H|]. split; [exact I|].
  exact (proj1 status_tags_of_schedule 20%nat 0%Z long_trip 0 long_trip_result H _ I).
Defined.

(** Termination on [far_pickup]: the first iteration of the loop is the
    break. *)
Lemma terminates_with_progress_witness :
  0 < remaining_miles (before_loop 0 far_pickup_segments 0) /\
  (exists new,
      sched (loop_body (before_loop 0 far_pickup_segments 0))
      = sched (before_loop 0 far_pickup_segments 0) ++ new /\
      new <> [] /\
      (remaining_miles (loop_body (before_loop 0 far_pickup_segments 0))
       < remaining_miles (before_loop 0 far_pickup_segments 0) \/
       Exists positive_duration new \/
       (rule_of (before_loop 0 far_pickup_segments 0) = RDaily /\
        50 < remaining_miles (before_loop 0 far_pickup_segments 0) /\
        remaining_miles (before_loop 0 far_pickup_segments 0) <= 100 /\
        MAX_ON_DUTY_HRS - on_duty_today (before_loop 0 far_pickup_segments 0)
        < 1 / inject_Z US_PER_HOUR))) /\
  exists fuel res, compute_schedule_for_route fuel 0 far_pickup 0 = Some res.
Proof.
  assert (H : 0 < remaining_miles (before_loop 0 far_pickup_segments 0))
    by (vm_compute; reflexivity).
  split; [exact H|]. split.
  - exact (proj1 (proj2 (proj2 terminates_with_progress)) _ H).
  - exact (proj1 terminates_with_progress 0%Z far_pickup 0).
Defined.

(** C9 on [short_trip] and [short_trip_far], which differ in the first
    segment (and in the clock and the cycle hours). *)
Lemma pickup_leg_leaves_fuel_counter_witness :
  segments_of short_trip
  = mkSegment (16093 # 1) 660 :: [mkSegment (64374 # 1) 2640] /\
  segments_of short_trip_far
  = mkSegment (160934 # 1) 6600 :: [mkSegment (64374 # 1) 2640] /\
  compute_schedule_for_route 10 0 short_trip 0 = Some short_trip_result /\
  compute_schedule_for_route 10 5 short_trip_far 3 = Some short_trip_far_result /\
  count_fuel_stops (schedule short_trip_result)
  = count_fuel_stops (schedule short_trip_far_result).
Proof.
  assert (H : compute_schedule_for_route 10 0 short_trip 0 = Some short_trip_result)
    by (vm_compute; reflexivity).
  assert (H' : compute_schedule_for_route 10 5 short_trip_far 3
               = Some short_trip_far_result)
    by (vm_compute; reflexivity).
  split; [reflexivity|]. split; [reflexivity|]. split; [exact H|].
  split; [exact H'|].
  exact (proj2 (proj2 (proj2 pickup_leg_leaves_fuel_counter))
           10%nat 10%nat 0%Z 5%Z short_trip short_trip_far 0 3 _ _ _ _ _
           eq_refl eq_refl H H').
Defined.

(** C10 on [short_trip]: the drive to the pickup, period 1, is annotated
    with 0 miles and the pickup with the miles of the leg. *)
Lemma annotation_excludes_own_leg_witness :
  compute_schedule_for_route 10 0 short_trip 0 = Some short_trip_result /\
  nonneg_segments (segments_of short_trip) /\
  nth_error (schedule short_trip_result) 1
  = Some (nth 1 (schedule short_trip_result) no_period) /\
  status (nth 1 (schedule short_trip_result) no_period) = "Driving"%string /\
  miles_since_start (nth 1 (schedule short_trip_result) no_period)
  = miles_covered (firstn 1 (schedule short_trip_result)) /\
  (exists mi q,
      (period_note (nth 1 (schedule short_trip_result) no_period) = NDriveToPickup mi \/
       period_note (nth 1 (schedule short_trip_result) no_period) = NDrive mi) /\
      miles_covered (firstn 2 (schedule short_trip_result))
      = miles_since_start (nth 1 (schedule short_trip_result) no_period) + mi /\
      nth_error (schedule short_trip_result) 2 = Some q /\
      miles_since_start q
      = miles_since_start (nth 1 (schedule short_trip_result) no_period) + mi) /\
  miles_since_start (nth 1 (schedule short_trip_result) no_period)
  <= miles_since_start (nth 3 (schedule short_trip_result) no_period).
Proof.
  assert (H : compute_schedule_for_route 10 0 short_trip 0 = Some short_trip_result)
    by (vm_compute; reflexivity).
  assert (W : nonneg_segments (segments_of short_trip))
    by (repeat constructor; discriminate).
  destruct (annotation_excludes_own_leg 10 0 short_trip 0 short_trip_result H)
    as (A & B & C).
  split; [exact H|]. split; [exact W|]. split; [reflexivity|].
  split; [reflexivity|]. split; [exact (A 1%nat _ eq_refl)|].
  split; [exact (B 1%nat _ eq_refl eq_refl)|].
  exact (C W 1%nat 3%nat _ _ ltac:(lia) eq_refl eq_refl).
Defined.

(** ** The further theorems at the example inputs *)

(** X1 on [long_trip]. *)
Lemma schedule_shape_witness :
  get_or_empty (features_key long_trip) <> [] /\
  compute_schedule_for_route 20 0 long_trip 0 = Some long_trip_result /\
  exists middle t_end miles,
    schedule long_trip_result
    = opening_periods 0 (segments_of long_trip) ++ middle
      ++ closing_periods t_end miles /\
    forallb is_loop_period middle = true.
Proof.
  assert (F : get_or_empty (features_key long_trip) <> []) by discriminate.
  assert (H : compute_schedule_for_route 20 0 long_trip 0 = Some long_trip_result)
    by (vm_compute; reflexivity).
  split; [exact F|]. split; [exact H|].
  exact (schedule_shape 20 0 long_trip 0 long_trip_result F H).
Defined.

(** X2 on [pickup_only]: a drive of 1000 miles to the pickup, and no
    iteration of the loop. *)
Lemma direct_trip_has_no_loop_period_witness :
  get_or_empty (features_key pickup_only) <> [] /\
  miles_after_pickup (segments_of pickup_only) <= 0 /\
  exists res,
    compute_schedule_for_route 0 0 pickup_only 0 = Some res /\
    schedule res
    = opening_periods 0 (segments_of pickup_only)
      ++ closing_periods (pickup_end 0 (segments_of pickup_only))
                         (miles_to_pickup (segments_of pickup_only)).
Proof.
  assert (F : get_or_empty (features_key pickup_only) <> []) by discriminate.
  assert (M : miles_after_pickup (segments_of pickup_only) <= 0)
    by (vm_compute; discriminate).
  split; [exact F|]. split; [exact M|].
  exact (direct_trip_has_no_loop_period 0 0 pickup_only 0 F M).
Defined.

(** X3 on [cross_country] with 60 hours of the cycle used: the restart is
    period 13, a leg is period 14. *)
Lemma schedule_in_order_witness :
  compute_schedule_for_route 40 0 cross_country 60
  = Some cross_country_late_result /\
  period_note (nth 13 (schedule cross_country_late_result) no_period) = NRestart /\
  may_follow (period_note (nth 13 (schedule cross_country_late_result) no_period))
             (period_note (nth 14 (schedule cross_country_late_result) no_period))
  = true.
Proof.
  assert (H : compute_schedule_for_route 40 0 cross_country 60
              = Some cross_country_late_result)
    by (vm_compute; reflexivity).
  split; [exact H|]. split; [reflexivity|].
  exact (schedule_in_order 40 0 cross_country 60 cross_country_late_result H
           13%nat _ _ eq_refl eq_refl).
Defined.

(** X5 on [long_trip]: 700 miles after the pickup, in twelve legs of 55
    miles and a last one of 40. *)
Lemma legs_of_the_loop_witness :
  compute_schedule_for_route 20 0 long_trip 0 = Some long_trip_result /\
  map (fun p => Qred (leg_miles p)) (legs (schedule long_trip_result))
  = repeat 55 12 ++ [40] /\
  Forall leg_within_speed (schedule long_trip_result) /\
  Forall full_leg (removelast (legs (schedule long_trip_result))).
Proof.
  assert (H : compute_schedule_for_route 20 0 long_trip 0 = Some long_trip_result)
    by (vm_compute; reflexivity).
  split; [exact H|]. split; [reflexivity|].
  exact (legs_of_the_loop 20 0 long_trip 0 long_trip_result H).
Defined.

(** X6 on [cross_country]: one fuel stop, 1045 miles after the pickup. *)
Lemma fuel_stops_are_spaced_witness :
  compute_schedule_for_route 40 0 cross_country 0 = Some cross_country_result /\
  map Qred (fuel_gaps (schedule cross_country_result)) = [1045] /\
  List.length (fuel_gaps (schedule cross_country_result))
  = count_fuel_stops (schedule cross_country_result) /\
  Forall fuel_gap_ok (fuel_gaps (schedule cross_country_result)).
Proof.
  assert (H : compute_schedule_for_route 40 0 cross_country 0
              = Some cross_country_result)
    by (vm_compute; reflexivity).
  split; [exact H|]. split; [reflexivity|].
  exact (fuel_stops_are_spaced 40 0 cross_country 0 cross_country_result H).
Defined.

(** X7 on [cross_country]. *)
Lemma period_durations_witness :
  compute_schedule_for_route 40 0 cross_country 0 = Some cross_country_result /\
  Forall has_duration (schedule cross_country_result).
Proof.
  assert (H : compute_schedule_for_route 40 0 cross_country 0
              = Some cross_country_result)
    by (vm_compute; reflexivity).
  split; [exact H|].
  exact (period_durations 40 0 cross_country 0 cross_country_result H).
Defined.

(** X8 on [cross_country]: the completion of the split rest is period 16;
    no daily rest follows; eleven legs are driven after it, the last one
    of 45 miles. *)
Lemma driving_of_a_day_at_most_11h_witness :
  compute_schedule_for_route 40 0 cross_country 0 = Some cross_country_result /\
  schedule cross_country_result
  = firstn 16 (schedule cross_country_result)
    ++ nth 16 (schedule cross_country_result) no_period
    :: skipn 17 (schedule cross_country_result) ++ [] /\
  is_daily_rest (nth 16 (schedule cross_country_result) no_period) = true /\
  forallb (fun q => negb (is_daily_rest q))
          (skipn 17 (schedule cross_country_result)) = true /\
  count_legs (skipn 17 (schedule cross_country_result)) = 11%nat /\
  (0 <= driving_time (skipn 17 (schedule cross_country_result))
   <= 11 * US_PER_HOUR)%Z.
Proof.
  assert (H : compute_schedule_for_route 40 0 cross_country 0
              = Some cross_country_result)
    by (vm_compute; reflexivity).
  assert (P : forallb (fun q => negb (is_daily_rest q))
                      (skipn 17 (schedule cross_country_result)) = true)
    by reflexivity.
  split; [exact H|]. split; [reflexivity|]. split; [reflexivity|].
  split; [exact P|]. split; [reflexivity|].
  apply (driving_of_a_day_at_most_11h 40 0 cross_country 0 cross_country_result
           (firstn 16 (schedule cross_country_result))
           (nth 16 (schedule cross_country_result) no_period)
           (skipn 17 (schedule cross_country_result)) [] H eq_refl eq_refl).
  intros q Hq. rewrite forallb_forall in P. specialize (P q Hq).
  now apply negb_true_iff in P.
Defined.

(** X9 on [cross_country] and [cross_country_slow]. *)
Lemma schedule_ignores_durations_witness :
  get_or_empty (features_key cross_country) <> [] /\
  get_or_empty (features_key cross_country_slow) <> [] /\
  map distance (segments_of cross_country)
  = map distance (segments_of cross_country_slow) /\
  map duration (segments_of cross_country)
  <> map duration (segments_of cross_country_slow) /\
  option_map schedule (compute_schedule_for_route 40 0 cross_country 0)
  = option_map schedule (compute_schedule_for_route 40 0 cross_country_slow 0) /\
  option_map total_miles (compute_schedule_for_route 40 0 cross_country 0)
  = option_map total_miles (compute_schedule_for_route 40 0 cross_country_slow 0).
Proof.
  assert (F : get_or_empty (features_key cross_country) <> []) by discriminate.
  assert (F' : get_or_empty (features_key cross_country_slow) <> []) by discriminate.
  assert (E : map distance (segments_of cross_country)
              = map distance (segments_of cross_country_slow)) by reflexivity.
  split; [exact F|]. split; [exact F'|]. split; [exact E|].
  split; [discriminate|].
  exact (schedule_ignores_durations 40 0 cross_country cross_country_slow 0 F F' E).
Defined.

(** X11 on [full_request], with a key and a routing service that answers
    with [short_trip]. *)
Lemma plan_trip_ok_only_if_witness :
  plan_trip 10 0 (Some "key"%string) ors_short_trip full_request
  = Some full_request_answer /\
  http_status (fst full_request_answer) = 200%Z /\
  exists coords k text route,
    coordinates full_request = inr coords /\
    Some "key"%string = Some k /\ k <> EmptyString /\
    ors_short_trip k coords = PostReturned 200 text (JsonBody route) /\
    segments_of route <> [].
Proof.
  assert (H : plan_trip 10 0 (Some "key"%string) ors_short_trip full_request
              = Some (fst full_request_answer, snd full_request_answer))
    by (vm_compute; reflexivity).
  split; [exact H|]. split; [reflexivity|].
  exact (proj1 (plan_trip_ok_only_if 10 0 (Some "key"%string) ors_short_trip
                  full_request _ _ H) eq_refl).
Defined.

(** X12 on the same request. *)
Lemma plan_trip_ok_response_witness :
  plan_trip 10 0 (Some "key"%string) ors_short_trip full_request
  = Some full_request_answer /\
  http_status (fst full_request_answer) = 200%Z /\
  exists coords k text route seg0 rest res,
    ors_short_trip k coords = PostReturned 200 text (JsonBody route) /\
    segments_of route = seg0 :: rest /\
    compute_schedule_for_route 10 0 route (cycle_hours_of full_request) = Some res /\
    data_of (fst full_request_answer) = TripData route (summary_of seg0) res /\
    (5 <= List.length (schedule res))%nat /\
    snd full_request_answer = [PrintReceived full_request].
Proof.
  assert (H : plan_trip 10 0 (Some "key"%string) ors_short_trip full_request
              = Some (fst full_request_answer, snd full_request_answer))
    by (vm_compute; reflexivity).
  split; [exact H|]. split; [reflexivity|].
  exact (plan_trip_ok_response 10 0 (Some "key"%string) ors_short_trip
           full_request _ _ H eq_refl).
Defined.

(** X13 on [no_pickup_request], without a key and with a service that is
    down: the missing location is the error. *)
Lemma plan_trip_early_errors_witness :
  coordinates no_pickup_request = inl (KeyError "pickup_location") /\
  plan_trip 0 0 None ors_down no_pickup_request
  = Some (mkResponse (ErrorData "'pickup_location'" None) 500,
          [PrintReceived no_pickup_request; PrintError "'pickup_location'"]).
Proof.
  assert (E : coordinates no_pickup_request = inl (KeyError "pickup_location"))
    by reflexivity.
  split; [exact E|].
  exact (proj1 (plan_trip_early_errors None no_pickup_request) _ E 0%nat 0%Z ors_down).
Defined.

(** X14 on [long_trip]: 710 miles, 12.68 hours. *)
Lemma totals_are_rounded_witness :
  get_or_empty (features_key long_trip) <> [] /\
  compute_schedule_for_route 20 0 long_trip 0 = Some long_trip_result /\
  Qabs (total_miles long_trip_result - route_miles (segments_of long_trip))
  <= 1 # 200 /\
  Qabs (estimated_drive_hours long_trip_result
        - sum_of duration (segments_of long_trip) / 3600) <= 1 # 200.
Proof.
  assert (F : get_or_empty (features_key long_trip) <> []) by discriminate.
  assert (H : compute_schedule_for_route 20 0 long_trip 0 = Some long_trip_result)
    by (vm_compute; reflexivity).
  split; [exact F|]. split; [exact H|].
  exact (totals_are_rounded 20 0 long_trip 0 long_trip_result F H).
Defined.
